(** * PrivateImagesHosting: naming engine, metadata store, expiry sweeper,
      command line and HTTP handlers

    A shallow embedding of the Go packages [naming], [db] and [cleanup] of the
    file-hosting server, of the configuration commands of package [main] and
    of the handlers of package [httpd], followed by the properties of the
    specification that concern them and by further properties of the code.

    Conventions of the embedding.
    - Go [string] and [[]byte] are [string] (a list of 8-bit [ascii]).
    - Go [int], [int64] are [Z]; where the source does arithmetic that can
      leave the 64-bit range the wrap-around is written with [wrap64].
    - Go [map] is stdpp's [gmap]; the order in which a [range] statement
      visits a map is not fixed by the language, so it is an explicit
      parameter ([MapOrder]).
    - The operating system (files, directories), the clock, the random
      source and [encoding/json] are not part of the repository: they are
      inputs of the model ([Disk], [Clock], [RandRead], [JsonCodec],
      [Storage], [Host]).  The [path/filepath] functions are modelled for
      the Linux build of the server (separator [/]).
    - Of an HTTP request the model keeps what the handlers read, of an
      answer the status and the fields of the body; what is written to the
      log by the handlers and the commands is not kept. *)

From Stdlib Require Import ZArith NArith String Ascii List Lia Sorted.
From stdpp Require Import base option list gmap strings.

Local Open Scope Z_scope.

(** ** Byte strings *)

Module GoString.

Fixpoint repeat_char (n : nat) (c : ascii) : string :=
  match n with
  | O => EmptyString
  | S k => String c (repeat_char k c)
  end.

Fixpoint all_chars (p : ascii -> bool) (s : string) : bool :=
  match s with
  | EmptyString => true
  | String c r => p c && all_chars p r
  end.

Fixpoint map_chars (f : ascii -> ascii) (s : string) : string :=
  match s with
  | EmptyString => EmptyString
  | String c r => String (f c) (map_chars f r)
  end.

Definition code (c : ascii) : N := N_of_ascii c.

Definition between (lo hi : N) (c : ascii) : bool :=
  ((lo <=? code c) && (code c <=? hi))%N.

Definition is_digit : ascii -> bool := between 48 57.          (* 0-9 *)
Definition is_upper : ascii -> bool := between 65 90.          (* A-Z *)
Definition is_lower_hex (c : ascii) : bool :=
  is_digit c || between 97 102 c.                               (* a-f *)

(** [n] decimal digits, [n] lower-case hexadecimal digits. *)
Definition digits (n : nat) (s : string) : Prop :=
  String.length s = n /\ all_chars is_digit s = true.
Definition lower_hex (n : nat) (s : string) : Prop :=
  String.length s = n /\ all_chars is_lower_hex s = true.

(** The digit characters of [strconv] and [fmt]: 0-9a-z. *)
Definition digit_char (d : N) : ascii :=
  if (d <? 10)%N then ascii_of_N (48 + d) else ascii_of_N (87 + d).

(** The digits of [n] in [base], most significant first, pushed in front
    of [acc]; [0] is written as one digit. *)
Fixpoint format_uint_aux (fuel : nat) (base n : N) (acc : string) : string :=
  match fuel with
  | O => acc
  | S fuel' =>
      let acc' := String (digit_char (n mod base)) acc in
      if (n / base =? 0)%N then acc'
      else format_uint_aux fuel' base (n / base) acc'
  end.

Definition format_uint (base n : N) : string :=
  format_uint_aux (S (N.to_nat (N.log2 n))) base n EmptyString.

Definition pad_zero (width : nat) (s : string) : string :=
  repeat_char (width - String.length s) "0" +:+ s.

(** [time.appendInt]: sign, then the decimal digits zero-padded to
    [width] (the sign does not count). *)
Definition appendInt (x : Z) (width : nat) : string :=
  (if x <? 0 then "-" else "") +:+ pad_zero width (format_uint 10 (Z.abs_N x)).

(** [fmt] verbs [%0<width>d] and [%0<width>x] on an integer: the width
    counts the sign. *)
Definition fmt_int (base : N) (width : nat) (x : Z) : string :=
  if x <? 0
  then "-" +:+ pad_zero (width - 1) (format_uint base (Z.abs_N x))
  else pad_zero width (format_uint base (Z.abs_N x)).

Definition hex_byte (c : ascii) : string :=
  String (digit_char (code c / 16)) (String (digit_char (code c mod 16)) EmptyString).

Fixpoint hex_bytes (s : string) : string :=
  match s with
  | EmptyString => EmptyString
  | String c r => hex_byte c +:+ hex_bytes r
  end.

(** [fmt] verb [%0<width>x] on a byte slice: two digits per byte. *)
Definition fmt_x_bytes (width : nat) (b : string) : string :=
  pad_zero width (hex_bytes b).

(** [strings.ToLower].  Go lowers a string of ASCII bytes byte by byte and
    sends any other string through [strings.Map(unicode.ToLower, _)],
    whose tables are not modelled: that path is the parameter
    [map_ToLower].  What is recorded of it: it works rune by rune, so
    that a leading byte of ASCII, a rune of its own, is lowered as in
    ASCII and the rest is mapped after it (the rune [.] is kept); no
    rune becomes the separator [/]; and no rune becomes a capital
    letter of ASCII. *)
Definition is_ascii_char (c : ascii) : bool := (code c <? 128)%N.
Definition isASCII : string -> bool := all_chars is_ascii_char.
Definition hasUpper (s : string) : bool := negb (all_chars (fun c => negb (is_upper c)) s).

Definition lower_char (c : ascii) : ascii :=
  if is_upper c then ascii_of_N (code c + 32) else c.

Definition not_slash (c : ascii) : bool := negb (code c =? 47)%N.

Class UnicodeLower := {
  map_ToLower : string -> string;
  map_ToLower_dot : forall s,
    map_ToLower (String "." s) = String "." (map_ToLower s);
  map_ToLower_slash : forall s,
    all_chars not_slash s = true -> all_chars not_slash (map_ToLower s) = true;
  map_ToLower_ascii : forall c s,
    is_ascii_char c = true ->
    map_ToLower (String c s) = String (lower_char c) (map_ToLower s);
  map_ToLower_upper : forall s, hasUpper (map_ToLower s) = false
}.

Definition ToLower `{UnicodeLower} (s : string) : string :=
  if isASCII s then
    if hasUpper s then map_chars lower_char s else s
  else map_ToLower s.

(** [strconv.ParseUint(s, 10, 64)], its loop: a byte that is no digit
    is a syntax error; a value that leaves 64 bits is a range error, with
    the largest value. *)
Inductive num_error :=
| num_ok
| ErrSyntax
| ErrRange.

Definition maxUint64 : N := 2 ^ 64 - 1.

Fixpoint ParseUint_loop (n : N) (s : string) : N * num_error :=
  match s with
  | EmptyString => (n, num_ok)
  | String c r =>
      if is_digit c then
        let d := (code c - 48)%N in
        if (maxUint64 / 10 + 1 <=? n)%N then (maxUint64, ErrRange)
        else
          let n1 := (n * 10 + d)%N in
          if (maxUint64 <? n1)%N then (maxUint64, ErrRange)
          else ParseUint_loop n1 r
      else (0%N, ErrSyntax)
  end.

Definition ParseUint (s : string) : N * num_error :=
  match s with
  | EmptyString => (0%N, ErrSyntax)
  | _ => ParseUint_loop 0 s
  end.

(** [strconv.ParseInt(s, 10, 0)] on a 64-bit platform. *)
Definition ParseInt (s : string) : Z * num_error :=
  match s with
  | EmptyString => (0, ErrSyntax)
  | String c r =>
      let neg := (code c =? 45)%N in
      let body := if (code c =? 43)%N || (code c =? 45)%N then r else s in
      match ParseUint body with
      | (_, ErrSyntax) => (0, ErrSyntax)
      | (un, _) =>
          let cutoff := (2 ^ 63)%N in
          if negb neg && (cutoff <=? un)%N then (Z.of_N cutoff - 1, ErrRange)
          else if neg && (cutoff <? un)%N then (- Z.of_N cutoff, ErrRange)
          else (if neg then - Z.of_N un else Z.of_N un, num_ok)
      end
  end.

(** [strconv.Atoi].  Its fast path for strings shorter than 19 bytes
    gives what [ParseInt] gives. *)
Definition Atoi (s : string) : Z * num_error := ParseInt s.

(** [strings.HasPrefix], [strings.TrimPrefix] *)
Fixpoint HasPrefix (s prefix : string) {struct prefix} : bool :=
  match prefix with
  | EmptyString => true
  | String c p =>
      match s with
      | String c' s' => Ascii.eqb c' c && HasPrefix s' p
      | EmptyString => false
      end
  end.

Definition TrimPrefix (s prefix : string) : string :=
  if HasPrefix s prefix
  then String.substring (String.length prefix)
         (String.length s - String.length prefix) s
  else s.

(** [strings.Split(s, sep)] for a separator of one byte: never empty. *)
Fixpoint Split (sep : ascii) (s : string) : list string :=
  match s with
  | EmptyString => [EmptyString]
  | String c r =>
      if Ascii.eqb c sep then EmptyString :: Split sep r
      else match Split sep r with
           | x :: xs => String c x :: xs
           | [] => [String c EmptyString]
           end
  end.

(** [strings.Join] *)
Fixpoint Join (elems : list string) (sep : string) : string :=
  match elems with
  | [] => ""
  | [x] => x
  | x :: xs => x +:+ sep +:+ Join xs sep
  end.

(** [strings.ToUpper] on a string in ASCII; the program gives it the
    four prefixes of the configuration keys and nothing else. *)
Definition upper_char (c : ascii) : ascii :=
  if between 97 122 c then ascii_of_N (code c - 32) else c.

Definition ToUpper (s : string) : string := map_chars upper_char s.

(** A byte that [Atoi] can accept: a digit or a sign. *)
Definition numeric_byte (c : ascii) : bool :=
  is_digit c || (code c =? 43)%N || (code c =? 45)%N.

End GoString.

(** ** path/filepath, Linux build *)

Module Filepath.
Import GoString.

Definition Separator : ascii := "/".

Definition IsPathSeparator (c : ascii) : bool := (code c =? 47)%N.

(** The elements between separators ([strings.Split(_, "/")]): never
    empty, one more element than there are separators. *)
Fixpoint split_sep (s : string) : list string :=
  match s with
  | EmptyString => [EmptyString]
  | String c r =>
      if IsPathSeparator c then EmptyString :: split_sep r
      else match split_sep r with
           | x :: xs => String c x :: xs
           | [] => [String c EmptyString]
           end
  end.

Fixpoint join_sep (l : list string) : string :=
  match l with
  | [] => EmptyString
  | [x] => x
  | x :: xs => x +:+ String Separator (join_sep xs)
  end.

(** [Clean], element by element.  [out] holds the elements written so
    far, last first; [..] pops a real element when there is one, is kept
    when the path is not rooted and dropped when it is. *)
Definition clean_step (rooted : bool) (out : list string) (e : string) : list string :=
  if String.eqb e "" then out
  else if String.eqb e "." then out
  else if String.eqb e ".." then
    match out with
    | top :: rest =>
        if String.eqb top ".." then e :: out else rest
    | [] => if rooted then out else [e]
    end
  else e :: out.

Definition Clean (path : string) : string :=
  match path with
  | EmptyString => "."
  | String c _ =>
      let rooted := IsPathSeparator c in
      let out := fold_left (clean_step rooted) (split_sep path) [] in
      let body := join_sep (rev out) in
      if rooted then String Separator body
      else if String.eqb body "" then "." else body
  end.

(** [Join] of two elements: leading empty elements are skipped, the rest
    is joined with the separator and cleaned. *)
Definition Join (a b : string) : string :=
  if negb (String.eqb a "") then Clean (a +:+ String Separator b)
  else if negb (String.eqb b "") then Clean b
  else "".

(** [Ext]: scan back from the end up to the last separator; the suffix
    from the first dot met.  [back] holds the bytes not yet examined,
    last first; [tail] is the part of the path already passed. *)
Fixpoint Ext_loop (back : list ascii) (tail : string) : string :=
  match back with
  | [] => ""
  | c :: back' =>
      if IsPathSeparator c then ""
      else if (code c =? 46)%N then String c tail
      else Ext_loop back' (String c tail)
  end.

Definition Ext (path : string) : string :=
  Ext_loop (rev (list_ascii_of_string path)) "".

Definition ToSlash (path : string) : string := path.

(** [Dir]: everything up to the last separator, cleaned.  The loop
    returns the length of that prefix. *)
Fixpoint Dir_loop (i : nat) (path : string) : nat :=
  match i with
  | O => O
  | S j =>
      match String.get j path with
      | Some c => if IsPathSeparator c then i else Dir_loop j path
      | None => O
      end
  end.

Definition Dir (path : string) : string :=
  Clean (String.substring 0 (Dir_loop (String.length path) path) path).

(** A path element that begins with a digit and holds no separator. *)
Definition element (s : string) : Prop :=
  exists c r, s = String c r /\ is_digit c = true /\ all_chars not_slash r = true.

(** [Base]: trailing separators are dropped, then the last element is
    taken.  [back] holds the bytes of the path, last first. *)
Fixpoint strip_seps (back : list ascii) : list ascii :=
  match back with
  | c :: back' => if IsPathSeparator c then strip_seps back' else back
  | [] => []
  end.

Fixpoint last_element (back : list ascii) (tail : string) : string :=
  match back with
  | [] => tail
  | c :: back' =>
      if IsPathSeparator c then tail else last_element back' (String c tail)
  end.

Definition Base (path : string) : string :=
  if String.eqb path "" then "."
  else
    let e := last_element (strip_seps (rev (list_ascii_of_string path))) "" in
    if String.eqb e "" then String Separator "" else e.

End Filepath.

(** ** package naming (server/naming/naming.go) *)

Module Naming.
Import GoString Filepath.

(** What [Format], [Nanosecond] and [UnixNano] observe of a [time.Now()]. *)
Record Clock := {
  Year : Z; Month : Z; Day : Z;
  Hour : Z; Minute : Z; Second : Z;
  Nanosecond : Z;
  UnixNano : Z
}.

(** A reading a system clock can give: a civil date of a four-digit year
    at or after the Unix epoch. *)
Definition valid_clock (t : Clock) : Prop :=
  0 <= Year t <= 9999 /\ 1 <= Month t <= 12 /\ 1 <= Day t <= 31 /\
  0 <= Hour t <= 23 /\ 0 <= Minute t <= 59 /\ 0 <= Second t <= 59 /\
  0 <= Nanosecond t <= 999999999 /\ 0 <= UnixNano t < 2 ^ 63.

(** [crypto/rand.Read] on a 16-byte slice: the 16 bytes, or an error. *)
Inductive RandRead :=
| RandOk (bytes : string)
| RandErr.

Definition valid_rand (r : RandRead) : Prop :=
  match r with
  | RandOk b => String.length b = 16%nat
  | RandErr => True
  end.

(** [now.Format("20060102")] *)
Definition Format_date (t : Clock) : string :=
  appendInt (Year t) 4 +:+ appendInt (Month t) 2 +:+ appendInt (Day t) 2.

(** [now.Format("20060102-150405")] *)
Definition Format_timestamp (t : Clock) : string :=
  Format_date t +:+ "-" +:+
  appendInt (Hour t) 2 +:+ appendInt (Minute t) 2 +:+ appendInt (Second t) 2.

Definition extension `{UnicodeLower} (originalName : string) : string :=
  let ext := ToLower (Ext originalName) in
  if String.eqb ext "" then ".bin" else ext.

Definition GenerateFileName `{UnicodeLower}
    (now : Clock) (rnd : RandRead) (originalName : string) : string :=
  let timestamp := Format_timestamp now in
  let milliseconds := Z.quot (Nanosecond now) 1000000 in
  let timestampWithMs := timestamp +:+ fmt_int 10 3 milliseconds in
  let randomBytes :=
    match rnd with
    | RandOk b => b
    | RandErr => fmt_int 16 16 (UnixNano now)
    end in
  let randomStr := fmt_x_bytes 32 randomBytes in
  let ext := extension originalName in
  timestampWithMs +:+ "-" +:+ randomStr +:+ ext.

Definition GenerateDateDir (now : Clock) : string := Format_date now.

(** [GenerateDateDir] and [GenerateFileName] each read the clock:
    [now1] and [now2]. *)
Definition GenerateFilePath `{UnicodeLower}
    (now1 now2 : Clock) (rnd : RandRead) (originalName : string) : string :=
  let date := GenerateDateDir now1 in
  let fileName := GenerateFileName now2 rnd originalName in
  Join date fileName.

Definition ParseDateFromPath (filePath : string) : string :=
  match split_sep (ToSlash filePath) with
  | p :: _ => p
  | [] => ""
  end.

Definition GetStoragePath (imagesDir relativePath : string) : string :=
  Join imagesDir relativePath.

(** A stand-in for the Unicode path of [ToLower] that knows no letter
    outside ASCII: it lowers [A]-[Z] and keeps every other byte, where
    Go lowers every rune that has a lower case ([.JPÉG] becomes [.jpég]
    in Go and [.jpÉg] here).  It serves to run the model on names in
    ASCII, for which that path is not taken. *)
#[export] Instance ascii_names : UnicodeLower.
Proof.
  refine {| map_ToLower := map_chars lower_char |}.
  - reflexivity.
  - intros s. induction s as [|c s IH]; simpl; [done|].
    intros [Hc Hs]%andb_true_iff. rewrite (IH Hs), andb_true_r.
    unfold lower_char. destruct (is_upper c) eqn:Hu; [|done].
    unfold is_upper, between in Hu. apply andb_true_iff in Hu as [Hlo Hhi].
    apply N.leb_le in Hlo, Hhi.
    unfold not_slash, code. rewrite N_ascii_embedding by (unfold code in *; lia).
    apply negb_true_iff, N.eqb_neq. unfold code in *. lia.
  - reflexivity.
  - intros s. unfold hasUpper. apply negb_false_iff.
    induction s as [|c s IH]; simpl; [done|]. rewrite IH, andb_true_r.
    apply negb_true_iff. unfold lower_char.
    destruct (is_upper c) eqn:Hu; [|done].
    unfold is_upper, between in *. apply andb_true_iff in Hu as [Hlo Hhi].
    apply N.leb_le in Hlo, Hhi.
    unfold code in *. rewrite N_ascii_embedding by lia.
    apply andb_false_iff. right. apply N.leb_gt. lia.
Defined.

(** 31 January 2026, 14:30:22.123456789 UTC. *)
Definition sample_clock : Clock :=
  {| Year := 2026; Month := 1; Day := 31;
     Hour := 14; Minute := 30; Second := 22;
     Nanosecond := 123456789; UnixNano := 1769869822123456789 |}.

End Naming.

(** ** The form of a generated name, in the words of the specification

    [YYYYMMDD], [HHMMSSmmm] and the 32 hexadecimal digits of the
    specification, said without the functions that print them: by the
    numbers that the digits write and the bytes that they encode. *)

Module Form.
Import GoString Naming.

(** The number a digit stands for ([0]-[9], [a]-[f]), and the number a
    string of digits writes in [base], most significant digit first. *)
Definition digit_value (c : ascii) : N :=
  if is_digit c then (code c - 48)%N else (code c - 87)%N.

Fixpoint value (base : N) (s : string) : N :=
  match s with
  | EmptyString => 0%N
  | String c r =>
      (digit_value c * base ^ N.of_nat (String.length r) + value base r)%N
  end.

(** [s] writes [n] with [width] decimal digits. *)
Definition written (width : nat) (n : Z) (s : string) : Prop :=
  digits width s /\ Z.of_N (value 10 s) = n.

(** Year, month and day of [t], with four, two and two digits. *)
Definition YYYYMMDD (t : Clock) (s : string) : Prop :=
  exists y m d,
    s = y +:+ m +:+ d /\
    written 4 (Year t) y /\ written 2 (Month t) m /\ written 2 (Day t) d.

(** Hour, minute, second and millisecond of [t], with two, two, two and
    three digits. *)
Definition HHMMSSmmm (t : Clock) (s : string) : Prop :=
  exists h m sec ms,
    s = h +:+ m +:+ sec +:+ ms /\
    written 2 (Hour t) h /\ written 2 (Minute t) m /\
    written 2 (Second t) sec /\ written 3 (Nanosecond t / 1000000) ms.

(** The bytes that a string of lower-case hexadecimal digits encodes,
    two digits to a byte. *)
Fixpoint unhex (s : string) : option string :=
  match s with
  | EmptyString => Some EmptyString
  | String a (String b r) =>
      if is_lower_hex a && is_lower_hex b then
        match unhex r with
        | Some bytes =>
            Some (String (ascii_of_N (digit_value a * 16 + digit_value b)) bytes)
        | None => None
        end
      else None
  | String _ EmptyString => None
  end.

(** The random part of a name: the hexadecimal encoding of the sixteen
    bytes drawn, or, when the random source failed, of the sixteen
    characters that write the clock's nanoseconds since the epoch in
    hexadecimal. *)
Definition random_part (t : Clock) (rnd : RandRead) (hex : string) : Prop :=
  match rnd with
  | RandOk bytes => unhex hex = Some bytes
  | RandErr =>
      exists text,
        unhex hex = Some text /\ lower_hex 16 text /\
        Z.of_N (value 16 text) = UnixNano t
  end.

End Form.

(** ** package db (the metadata store) *)

Module Db.
Import GoString Filepath.

(** Go's [error]: [nil] or a message. *)
Inductive error :=
| nil
| Errorf (msg : string).

(** [time.Time] as the store uses it: an instant, in nanoseconds since
    the Unix epoch.  [Before], [Add] and the JSON encoding observe
    nothing else. *)
Definition Time := Z.
Definition Before (t u : Time) : bool := t <? u.
Definition Add (t : Time) (d : Z) : Time := t + d.
Definition Minute : Z := 60 * 1000000000.
Definition Hour : Z := 60 * Minute.

Definition wrap64 (z : Z) : Z := (z + 2 ^ 63) mod 2 ^ 64 - 2 ^ 63.
Definition MaxInt64 : Z := 2 ^ 63 - 1.
Definition MinInt64 : Z := - 2 ^ 63.

Record FileMetadata := {
  ID : Z;
  FileName : string;
  OriginalName : string;
  FilePath : string;
  FileSize : Z;
  UploadedAt : Time;
  ExpiresAt : Time;
  TTL : Z;
  RemoteIP : string
}.

Definition set_ID (id : Z) (m : FileMetadata) : FileMetadata :=
  {| ID := id; FileName := FileName m; OriginalName := OriginalName m;
     FilePath := FilePath m; FileSize := FileSize m;
     UploadedAt := UploadedAt m; ExpiresAt := ExpiresAt m;
     TTL := TTL m; RemoteIP := RemoteIP m |}.

Record DatabaseData := {
  Files : gmap Z FileMetadata;
  NextID : Z;
  Config : gmap string string
}.

(** [autoSave] is a channel of capacity one: it holds a save request or
    it is empty. *)
Record Database := {
  filePath : string;
  data : DatabaseData;
  autoSave : bool
}.

Definition with_data (d : Database) (x : DatabaseData) : Database :=
  {| filePath := filePath d; data := x; autoSave := autoSave d |}.

(** *** What the store takes from outside *)

(** The order in which [for _, meta := range d.data.Files] visits the
    map: any enumeration of its entries.  Go may choose another order at
    each [range]; nothing proved below needs two traversals to agree. *)
Class MapOrder := {
  range_files : gmap Z FileMetadata -> list (Z * FileMetadata);
  range_files_perm : forall m, range_files m ≡ₚ map_to_list m
}.

(** [encoding/json] on [DatabaseData].  [Unmarshal] decodes into an
    existing value and returns it with the error.  [faithful] holds of
    the values the encoding writes exactly (Go writes U+FFFD for the bytes
    of a string that are not UTF-8, so a value with such a string is not
    one); decoding what [MarshalIndent] wrote of such a value into the
    empty value [Open] prepares gives the value back. *)
Definition emptyData : DatabaseData :=
  {| Files := ∅; NextID := 1; Config := ∅ |}.

Class JsonCodec := {
  faithful : DatabaseData -> Prop;
  MarshalIndent : DatabaseData -> option string;
  Unmarshal : string -> DatabaseData -> DatabaseData * error;
  Unmarshal_MarshalIndent : forall d s,
    faithful d -> MarshalIndent d = Some s -> Unmarshal s emptyData = (d, nil)
}.

(** The file system under the snapshot: the files by path, and the
    paths at which creating or writing is refused. *)
Record Disk := {
  disk_files : gmap string string;
  disk_denied : gset string
}.

Definition MkdirAll (dir : string) (disk : Disk) : error :=
  if decide (dir ∈ disk_denied disk) then Errorf "permission denied" else nil.

Definition Stat (path : string) (disk : Disk) : error :=
  match disk_files disk !! path with
  | Some _ => nil
  | None => Errorf "no such file or directory"
  end.

Definition ReadFile (path : string) (disk : Disk) : string * error :=
  match disk_files disk !! path with
  | Some content => (content, nil)
  | None => (""%string, Errorf "no such file or directory")
  end.

Definition WriteFile (path content : string) (disk : Disk) : Disk * error :=
  if decide (path ∈ disk_denied disk) then (disk, Errorf "permission denied")
  else ({| disk_files := <[path := content]> (disk_files disk);
           disk_denied := disk_denied disk |}, nil).

Definition Rename (oldpath newpath : string) (disk : Disk) : Disk * error :=
  match disk_files disk !! oldpath with
  | None => (disk, Errorf "no such file or directory")
  | Some content =>
      if decide (newpath ∈ disk_denied disk) then (disk, Errorf "permission denied")
      else ({| disk_files := <[newpath := content]> (delete oldpath (disk_files disk));
               disk_denied := disk_denied disk |}, nil)
  end.

(** *** The store *)

Definition Itoa (x : Z) : string :=
  (if x <? 0 then "-" else "") +:+ format_uint 10 (Z.abs_N x).

Definition defaultServerHost : string := "0.0.0.0".
Definition defaultServerPort : Z := 8080.
Definition defaultImagesDir : string := "./Images".
Definition defaultMaxFileSize : Z := 100 * 1024 * 1024.
Definition defaultCleanupInterval : Z := 60.
Definition defaultDefaultTTL : Z := 1.
Definition defaultMaxTTL : Z := 8760.
Definition defaultAPIKey : string := "change-me-api-key".
Definition defaultAdminUser : string := "276793422".
Definition defaultAdminPass : string := "490003219".
Definition defaultListPass : string := "490003219".
Definition defaultIPWhitelist : string := "".
Definition defaultRateLimit : Z := 60.
Definition defaultSessionTimeout : Z := 300.

Definition defaultConfig : gmap string string :=
  list_to_map
    [ ("server.host"%string, defaultServerHost);
      ("server.port"%string, Itoa defaultServerPort);
      ("storage.images_dir"%string, defaultImagesDir);
      ("storage.max_file_size"%string, Itoa defaultMaxFileSize);
      ("storage.cleanup_interval"%string, Itoa defaultCleanupInterval);
      ("storage.default_ttl"%string, Itoa defaultDefaultTTL);
      ("storage.max_ttl"%string, Itoa defaultMaxTTL);
      ("auth.api_key"%string, defaultAPIKey);
      ("auth.admin_username"%string, defaultAdminUser);
      ("auth.admin_password"%string, defaultAdminPass);
      ("auth.list_password"%string, defaultListPass);
      ("security.ip_whitelist"%string, defaultIPWhitelist);
      ("security.rate_limit_per_minute"%string, Itoa defaultRateLimit);
      ("security.session_timeout"%string, Itoa defaultSessionTimeout) ].

(** [select { case d.autoSave <- struct{}{}: default: }] *)
Definition triggerSave (d : Database) : Database :=
  {| filePath := filePath d; data := data d; autoSave := true |}.

Definition initDefaultConfig (d : Database) : Database :=
  triggerSave
    (with_data d {| Files := Files (data d); NextID := NextID (data d);
                    Config := defaultConfig |}).

Section WithCodec.
Context `{JsonCodec}.

(** [Open].  The goroutine it starts is [autoSaveLoop] below. *)
Definition Open (dbPath : string) (disk : Disk) : option Database * error :=
  let dir := Dir dbPath in
  match MkdirAll dir disk with
  | Errorf e =>
      (None, Errorf ("failed to create database directory: " +:+ e))
  | nil =>
      let database :=
        {| filePath := dbPath; data := emptyData; autoSave := false |} in
      let database :=
        match Stat dbPath disk with
        | nil =>
            match ReadFile dbPath disk with
            | (content, nil) =>
                (* the error of Unmarshal is looked at and dropped *)
                with_data database (fst (Unmarshal content (data database)))
            | (_, Errorf _) => database
            end
        | Errorf _ => database
        end in
      let database :=
        if decide (size (Config (data database)) = 0%nat)
        then initDefaultConfig database
        else database in
      (Some database, nil)
  end.

Definition save (d : Database) (disk : Disk) : Disk * error :=
  match MarshalIndent (data d) with
  | None => (disk, Errorf "failed to marshal database")
  | Some content =>
      let tempPath := filePath d +:+ ".tmp" in
      match WriteFile tempPath content disk with
      | (disk', Errorf e) => (disk', Errorf ("failed to write database: " +:+ e))
      | (disk', nil) => Rename tempPath (filePath d) disk'
      end
  end.

Definition Close (d : Database) (disk : Disk) : Disk * error := save d disk.

(** One turn of the [select] of [autoSaveLoop]: the ticker fired, or a
    save request was taken from the channel.  The error of [save] is
    dropped. *)
Inductive wakeup := Tick | Request.

Definition autoSaveLoop_turn (w : wakeup) (d : Database) (disk : Disk)
    : option (Database * Disk) :=
  match w with
  | Tick => Some (d, fst (save d disk))
  | Request =>
      if autoSave d
      then Some ({| filePath := filePath d; data := data d; autoSave := false |},
                 fst (save d disk))
      else None
  end.
End WithCodec.

Definition GetConfig (key : string) (d : Database) : string :=
  match Config (data d) !! key with
  | Some val => val
  | None => ""
  end.

Definition SetConfig (key value : string) (d : Database) : Database * error :=
  (triggerSave
     (with_data d {| Files := Files (data d); NextID := NextID (data d);
                     Config := <[key := value]> (Config (data d)) |}),
   nil).

Definition GetAllConfig (d : Database) : gmap string string := Config (data d).

(** Records are values here: every caller in the repository hands
    [SaveFileMetadata] a record it has just allocated.  The id it writes
    into [meta.ID] is returned next to the store. *)
Definition SaveFileMetadata (meta : FileMetadata) (d : Database)
    : Z * Database * error :=
  let id := NextID (data d) in
  let meta := set_ID id meta in
  (id,
   triggerSave
     (with_data d {| Files := <[id := meta]> (Files (data d));
                     NextID := wrap64 (id + 1);
                     Config := Config (data d) |}),
   nil).

Definition GetFileMetadataByID (id : Z) (d : Database) : option FileMetadata * error :=
  (Files (data d) !! id, nil).

Section WithOrder.
Context `{MapOrder}.

Definition has_path (p : string) (e : Z * FileMetadata) : bool :=
  String.eqb (FilePath (snd e)) p.

Definition GetFileMetadata (p : string) (d : Database) : option FileMetadata * error :=
  (snd <$> find (has_path p) (range_files (Files (data d))), nil).

Definition DeleteFileMetadata (p : string) (d : Database) : Database * error :=
  match find (has_path p) (range_files (Files (data d))) with
  | Some (id, _) =>
      (triggerSave
         (with_data d {| Files := delete id (Files (data d));
                         NextID := NextID (data d);
                         Config := Config (data d) |}),
       nil)
  | None => (d, nil)
  end.

(** [now] is the [time.Now()] the function reads. *)
Definition GetExpiredFiles (now : Time) (d : Database) : list FileMetadata * error :=
  (List.filter (fun meta => Before (ExpiresAt meta) now)
     (snd <$> range_files (Files (data d))),
   nil).

Definition GetStats (d : Database) : Z * Z * error :=
  (Z.of_nat (size (Files (data d))),
   fold_left (fun total e => wrap64 (total + FileSize (snd e)))
     (range_files (Files (data d))) 0,
   nil).
End WithOrder.

(** The invariant of the data model: no two live records have the
    same [FilePath]. *)
Definition paths_unique (files : gmap Z FileMetadata) : Prop :=
  NoDup ((fun e => FilePath (snd e)) <$> map_to_list files).

(** A run of inserts, one after the other (the store's lock makes
    concurrent calls take turns): the ids handed out, and the store. *)
Fixpoint SaveAll (metas : list FileMetadata) (d : Database) : list Z * Database :=
  match metas with
  | [] => ([], d)
  | m :: rest =>
      let '(id, d', _) := SaveFileMetadata m d in
      let '(ids, d'') := SaveAll rest d' in
      (id :: ids, d'')
  end.

(** The upload handler's expiry: [uploadedAt.Add(time.Duration(ttl) * time.Hour)]. *)
Definition expiry (uploadedAt : Time) (ttl : Z) : Time :=
  Add uploadedAt (wrap64 (ttl * Hour)).

(** One order: that in which stdpp lists a map. *)
#[export] Instance listed_order : MapOrder :=
  {| range_files := map_to_list;
     range_files_perm := fun m => reflexivity (map_to_list m) |}.

(** A run of [SetConfig] calls, in order. *)
Fixpoint SetAll (writes : list (string * string)) (d : Database) : Database :=
  match writes with
  | [] => d
  | (key, value) :: rest => SetAll rest (fst (SetConfig key value d))
  end.

Definition GetConfigInt (key : string) (d : Database) : Z :=
  let val := GetConfig key d in
  if String.eqb val "" then 0
  else match GoString.Atoi val with
       | (num, num_ok) => num
       | (_, _) => 0
       end.

(** The order in which [for date := range dateMap] visits the dates.
    [dateMap] is a [map[string]bool] in which every value is [true]: a
    set of strings. *)
Class DateOrder := {
  range_dates : gset string -> list string;
  range_dates_perm : forall dates, range_dates dates ≡ₚ elements dates
}.

Section Browsing.
Context `{MapOrder} `{DateOrder}.

Definition ListFilesByDate (date : string) (d : Database)
    : list FileMetadata * error :=
  (List.filter
     (fun meta => HasPrefix (ToSlash (FilePath meta)) (date +:+ "/"))
     (snd <$> range_files (Files (data d))),
   nil).

(** The body of the first loop of [ListAllDates]. *)
Definition add_date (dateMap : gset string) (e : Z * FileMetadata) : gset string :=
  match split_sep (ToSlash (FilePath (snd e))) with
  | p :: _ => {[ p ]} ∪ dateMap
  | [] => dateMap
  end.

Definition ListAllDates (d : Database) : list string * error :=
  let dateMap := fold_left add_date (range_files (Files (data d))) ∅ in
  (range_dates dateMap, nil).
End Browsing.

#[export] Instance listed_dates : DateOrder :=
  {| range_dates := elements;
     range_dates_perm := fun dates => reflexivity (elements dates) |}.

(** *** Notions to state the properties of the store *)

(** The value the last write to [key] gave it, if [key] was written. *)
Fixpoint last_write (key : string) (writes : list (string * string)) : option string :=
  match writes with
  | [] => None
  | (k, v) :: rest =>
      match last_write key rest with
      | Some v' => Some v'
      | None => if String.eqb k key then Some v else None
      end
  end.

(** The sizes of the records of a list, added up without a bound. *)
Definition total_size (l : list (Z * FileMetadata)) : Z :=
  fold_right (fun e acc => FileSize (snd e) + acc) 0 l.

End Db.

(** ** package cleanup (server/cleanup/cleanup.go) *)

Module Cleanup.
Import GoString Filepath Naming.

Record Config := {
  ImagesDir : string;
  CleanupInterval : Z
}.

(** What [os.Remove] and [os.ReadDir] answer: no error, an error for
    which [os.IsNotExist] holds, or another error. *)
Inductive os_error :=
| os_nil
| os_not_exist
| os_failure (msg : string).

(** The directory tree under [ImagesDir].  Nothing is assumed of it: the
    properties of the sweep hold whatever these calls do and return. *)
Class Storage (World : Type) := {
  os_Remove : string -> World -> World * os_error;
  os_ReadDir : string -> World -> list string * os_error
}.

(** The lines [runCleanup] hands to [log].  [LogComplete] carries the two
    counters; the text that [formatBytes] makes of the second is not
    modelled. *)
Inductive LogLine :=
| LogStart
| LogGetExpiredError
| LogNoExpired
| LogDeleteError (filePath : string)
| LogMetadataError (filePath : string)
| LogDeleted (filePath originalName : string) (fileSize : Z)
| LogDirNote (dateDir : string)
| LogComplete (deletedCount freedSpace : Z).

Section WithStorage.
Context {World : Type} `{Storage World} `{Db.MapOrder}.

Definition removeEmptyDir (dirPath : string) (w : World) : World * os_error :=
  match os_ReadDir dirPath w with
  | (entries, os_nil) =>
      if Nat.eqb (length entries) 0 then os_Remove dirPath w else (w, os_nil)
  | (_, err) => (w, err)
  end.

(** The variables the loop of [runCleanup] works on. *)
Record Sweep := {
  sw_db : Db.Database;
  sw_world : World;
  deletedCount : Z;
  freedSpace : Z;
  sw_log : list LogLine
}.

(** The body of [for _, file := range expiredFiles]. *)
Definition cleanup_file (cfg : Config) (st : Sweep) (file : Db.FileMetadata) : Sweep :=
  (* delete physical file *)
  let fullPath := GetStoragePath (ImagesDir cfg) (Db.FilePath file) in
  let '(w1, err) := os_Remove fullPath (sw_world st) in
  let '(count1, freed1, log1) :=
    match err with
    | os_nil =>
        (Db.wrap64 (deletedCount st + 1),
         Db.wrap64 (freedSpace st + Db.FileSize file),
         sw_log st)
    | os_not_exist => (deletedCount st, freedSpace st, sw_log st)
    | os_failure _ =>
        (deletedCount st, freedSpace st,
         sw_log st ++ [LogDeleteError (Db.FilePath file)])
    end in
  (* delete metadata from database *)
  let '(db1, derr) := Db.DeleteFileMetadata (Db.FilePath file) (sw_db st) in
  let log2 :=
    match derr with
    | Db.Errorf _ => log1 ++ [LogMetadataError (Db.FilePath file)]
    | Db.nil =>
        log1 ++ [LogDeleted (Db.FilePath file) (Db.OriginalName file) (Db.FileSize file)]
    end in
  (* try to remove empty date directory *)
  let dateDir := ParseDateFromPath (Db.FilePath file) in
  let '(w2, log3) :=
    if negb (String.eqb dateDir "") then
      let fullDirPath := Join (ImagesDir cfg) dateDir in
      match removeEmptyDir fullDirPath w1 with
      | (w', os_nil) => (w', log2)
      | (w', _) => (w', log2 ++ [LogDirNote dateDir])
      end
    else (w1, log2) in
  {| sw_db := db1; sw_world := w2;
     deletedCount := count1; freedSpace := freed1; sw_log := log3 |}.

(** What one turn of the loop does to the store. *)
Definition forget (d : Db.Database) (file : Db.FileMetadata) : Db.Database :=
  fst (Db.DeleteFileMetadata (Db.FilePath file) d).

(** [runCleanup]; [now] is the clock reading of [GetExpiredFiles]. *)
Definition runCleanup (cfg : Config) (now : Db.Time) (d : Db.Database) (w : World)
    : Db.Database * World * list LogLine :=
  match Db.GetExpiredFiles now d with
  | (_, Db.Errorf _) => (d, w, [LogStart; LogGetExpiredError])
  | (expiredFiles, Db.nil) =>
      if Nat.eqb (length expiredFiles) 0 then (d, w, [LogStart; LogNoExpired])
      else
        let st :=
          fold_left (cleanup_file cfg) expiredFiles
            {| sw_db := d; sw_world := w;
               deletedCount := 0; freedSpace := 0; sw_log := [LogStart] |} in
        (sw_db st, sw_world st,
         sw_log st ++ [LogComplete (deletedCount st) (freedSpace st)])
  end.

End WithStorage.

(** *** [Start], [Stop], [RunOnce]: who is sweeping

    The goroutines of the manager, followed at the grain of whole sweeps.
    [Start] launches one sweep in a goroutine of its own and a loop that
    waits on the ticker and on [stopChan]; the loop calls [runCleanup]
    itself when it takes a tick.  [RunOnce] calls [runCleanup] in the
    goroutine of its caller.  The channel of a [time.Ticker] holds one
    tick; a tick that finds it full is dropped. *)
Inductive origin := Initial | Timer | Manual.

#[export] Instance origin_eq_dec : EqDecision origin.
Proof. solve_decision. Defined.

Record Manager := {
  running : list origin;      (* the calls of runCleanup in progress *)
  loop_sweeping : bool;       (* the loop is inside its call of runCleanup *)
  loop_exited : bool;         (* the loop has returned *)
  ticks_buffered : nat;       (* ticks waiting in ticker.C *)
  stop_closed : bool          (* stopChan is closed *)
}.

Inductive event :=
| TickFires            (* the ticker sends on its channel *)
| LoopTakesTick        (* case <-ticker.C: cm.runCleanup() begins *)
| LoopSweepReturns     (* that call returns; back to the select *)
| InitialReturns       (* the sweep of go cm.runCleanup() returns *)
| RunOnceCalled        (* a caller enters RunOnce *)
| RunOnceReturns
| StopCalled           (* close(cm.stopChan) *)
| LoopTakesStop.       (* case <-cm.stopChan: return *)

Fixpoint remove_one (o : origin) (l : list origin) : list origin :=
  match l with
  | [] => []
  | x :: r => if decide (x = o) then r else x :: remove_one o r
  end.

Definition count (o : origin) (l : list origin) : nat :=
  length (List.filter (fun x => bool_decide (x = o)) l).

(** The manager just after [Start] has returned. *)
Definition Start : Manager :=
  {| running := [Initial]; loop_sweeping := false; loop_exited := false;
     ticks_buffered := 0; stop_closed := false |}.

(** One step; [None] when the event cannot happen in that state. *)
Definition step (m : Manager) (e : event) : option Manager :=
  match e with
  | TickFires =>
      if loop_exited m then None
      else Some {| running := running m; loop_sweeping := loop_sweeping m;
                   loop_exited := loop_exited m;
                   ticks_buffered :=
                     if Nat.ltb (ticks_buffered m) 1 then S (ticks_buffered m)
                     else ticks_buffered m;
                   stop_closed := stop_closed m |}
  | LoopTakesTick =>
      if loop_exited m || loop_sweeping m then None
      else match ticks_buffered m with
           | O => None
           | S k =>
               Some {| running := Timer :: running m; loop_sweeping := true;
                       loop_exited := false; ticks_buffered := k;
                       stop_closed := stop_closed m |}
           end
  | LoopSweepReturns =>
      if loop_sweeping m
      then Some {| running := remove_one Timer (running m); loop_sweeping := false;
                   loop_exited := loop_exited m;
                   ticks_buffered := ticks_buffered m;
                   stop_closed := stop_closed m |}
      else None
  | InitialReturns =>
      if bool_decide (Initial ∈ running m)
      then Some {| running := remove_one Initial (running m);
                   loop_sweeping := loop_sweeping m; loop_exited := loop_exited m;
                   ticks_buffered := ticks_buffered m;
                   stop_closed := stop_closed m |}
      else None
  | RunOnceCalled =>
      Some {| running := Manual :: running m;
              loop_sweeping := loop_sweeping m; loop_exited := loop_exited m;
              ticks_buffered := ticks_buffered m; stop_closed := stop_closed m |}
  | RunOnceReturns =>
      if bool_decide (Manual ∈ running m)
      then Some {| running := remove_one Manual (running m);
                   loop_sweeping := loop_sweeping m; loop_exited := loop_exited m;
                   ticks_buffered := ticks_buffered m;
                   stop_closed := stop_closed m |}
      else None
  | StopCalled =>
      if stop_closed m then None
      else Some {| running := running m; loop_sweeping := loop_sweeping m;
                   loop_exited := loop_exited m;
                   ticks_buffered := ticks_buffered m; stop_closed := true |}
  | LoopTakesStop =>
      if loop_exited m || loop_sweeping m || negb (stop_closed m) then None
      else Some {| running := running m; loop_sweeping := false;
                   loop_exited := true;
                   ticks_buffered := ticks_buffered m; stop_closed := true |}
  end.

Fixpoint run (m : Manager) (trace : list event) : option Manager :=
  match trace with
  | [] => Some m
  | e :: rest =>
      match step m e with
      | Some m' => run m' rest
      | None => None
      end
  end.

Definition in_flight (m : Manager) : nat := length (running m).

(** What every reachable state of the manager satisfies. *)
Definition orderly (m : Manager) : Prop :=
  count Timer (running m) = (if loop_sweeping m then 1 else 0)%nat /\
  (count Initial (running m) <= 1)%nat /\
  (ticks_buffered m <= 1)%nat.

(** *** [Start]: the ticker, and [formatBytes] *)

(** [time.Duration(cm.cfg.CleanupInterval) * time.Minute] *)
Definition interval (cfg : Config) : Z :=
  Db.wrap64 (CleanupInterval cfg * Db.Minute).

(** [time.NewTicker] panics on an interval that is not positive: [None]. *)
Definition NewTicker (d : Z) : option Z :=
  if d <=? 0 then None else Some d.

(** The loop of [formatBytes]: [div] and [exp] after it; [None] when the
    fuel does not see its end. *)
Fixpoint formatBytes_loop (fuel : nat) (n div : Z) (exp : nat) : option (Z * nat) :=
  if 1024 <=? n then
    match fuel with
    | O => None
    | S fuel' =>
        formatBytes_loop fuel' (Z.quot n 1024) (Db.wrap64 (div * 1024)) (S exp)
    end
  else Some (div, exp).

(** What [formatBytes] prints, up to the formatting of the quotient
    (a floating-point number): a fixed text, or the count, the divisor
    and the letter of the unit.  [Panic] is an index out of the six
    letters of ["KMGTPE"]. *)
Inductive Formatted :=
| Plain (text : string)
| Scaled (b div : Z) (unitLetter : ascii)
| Panic.

Definition scaled (b : Z) : option Formatted :=
  match formatBytes_loop 64 (Z.quot b 1024) 1024 0 with
  | Some (div, exp) =>
      Some match String.get exp "KMGTPE" with
           | Some c => Scaled b div c
           | None => Panic
           end
  | None => None
  end.

Definition formatBytes (b : Z) : option Formatted :=
  if b <? 1024 then Some (Plain "0 B") else scaled b.

End Cleanup.

(** ** The configuration handed to the server *)

Module Config.

(** [config.Config], by the fields that [buildConfigFromDB] fills and
    the handlers read (the struct is declared in package [config];
    [Server_Host] stands for [cfg.Server.Host], and so on). *)
Record Config := {
  Server_Host : string;
  Server_Port : Z;
  Storage_ImagesDir : string;
  Storage_MaxFileSize : Z;
  Storage_CleanupInterval : Z;
  Storage_DefaultTTL : Z;
  Storage_MaxTTL : Z;
  Auth_APIKey : string;
  Auth_AdminUsername : string;
  Auth_AdminPassword : string;
  Auth_ListPassword : string;
  Security_IPWhitelist : list string;
  Security_RateLimitPerMinute : Z;
  Security_SessionTimeout : Z;
  Database_Path : string;
  AutoRestart_Enabled : bool;
  AutoRestart_MaxRestartCount : Z
}.

End Config.

(** ** The command line (package main) *)

Module Main.
Import GoString Db Config.

(** [buildConfigFromDB]; [dbPath] is what [getDefaultDBPath] answers on
    the machine. *)
Definition buildConfigFromDB (dbPath : string) (database : Database) : Config :=
  let ipWhitelistStr := GetConfig "security.ip_whitelist" database in
  let path := GetConfig "database.path" database in
  let autoRestartStr := GetConfig "auto_restart.enabled" database in
  {| Server_Host := GetConfig "server.host" database;
     Server_Port := GetConfigInt "server.port" database;
     Storage_ImagesDir := GetConfig "storage.images_dir" database;
     Storage_MaxFileSize := GetConfigInt "storage.max_file_size" database;
     Storage_CleanupInterval := GetConfigInt "storage.cleanup_interval" database;
     Storage_DefaultTTL := GetConfigInt "storage.default_ttl" database;
     Storage_MaxTTL := GetConfigInt "storage.max_ttl" database;
     Auth_APIKey := GetConfig "auth.api_key" database;
     Auth_AdminUsername := GetConfig "auth.admin_username" database;
     Auth_AdminPassword := GetConfig "auth.admin_password" database;
     Auth_ListPassword := GetConfig "auth.list_password" database;
     Security_IPWhitelist :=
       if negb (String.eqb ipWhitelistStr "") then Split "," ipWhitelistStr else [];
     Security_RateLimitPerMinute :=
       GetConfigInt "security.rate_limit_per_minute" database;
     Security_SessionTimeout := GetConfigInt "security.session_timeout" database;
     Database_Path := if String.eqb path "" then dbPath else path;
     AutoRestart_Enabled := String.eqb autoRestartStr "true";
     AutoRestart_MaxRestartCount :=
       GetConfigInt "auto_restart.max_restart_count" database |}.

(** The configuration [main] hands to [cleanup.NewCleanupManager]. *)
Definition cleanupConfig (cfg : Config) : Cleanup.Config :=
  {| Cleanup.ImagesDir := Storage_ImagesDir cfg;
     Cleanup.CleanupInterval := Storage_CleanupInterval cfg |}.

(** How a command ends: it returns to [main], which returns (status 0),
    or it calls [os.Exit] or [log.Fatalf] (status 1). *)
Inductive Ending :=
| Returned
| Exit (status : Z).

(** What a command leaves: the disk, the lines written to the standard
    output, and how it ended.  What goes to the standard error is not
    kept.  The goroutine that [Open] starts is not followed: the model
    is of the run in which it does not get to save before the command
    ends.  When the command ends through the deferred [Close], the
    snapshot is the one [Close] wrote in every run, since a save of the
    goroutine either comes before it or writes the same data. *)
Record Outcome := {
  out_disk : Disk;
  stdout : list string;
  ending : Ending
}.

(** The order in which [for k := range allConfig] visits the keys. *)
Class ConfigOrder := {
  range_config : gmap string string -> list string;
  range_config_perm : forall m, range_config m ≡ₚ (map_to_list m).*1
}.

(** [groups[prefix] = append(groups[prefix], k)] *)
Definition add_key (groups : gmap string (list string)) (k : string)
    : gmap string (list string) :=
  let prefix := hd ""%string (Split "." k) in
  <[prefix := default [] (groups !! prefix) ++ [k]]> groups.

Definition order : list string := ["server"; "storage"; "auth"; "security"]%string.

(** The lines of one group of [get all]: nothing when the group is not
    there, else an empty line, the heading and one line for each key. *)
Definition print_group (allConfig : gmap string string)
    (groups : gmap string (list string)) (prefix : string) : list string :=
  match groups !! prefix with
  | Some keys =>
      [""; "[" +:+ ToUpper prefix +:+ "]"]%string
      ++ ((fun k => "  " +:+ k +:+ ": " +:+ default ""%string (allConfig !! k)) <$> keys)
  | None => []
  end.

(** The branch [key == "all"] of [handleGetCommand], from the first
    [Println] on. *)
Definition print_all `{ConfigOrder} (allConfig : gmap string string) : list string :=
  let groups := fold_left add_key (range_config allConfig) ∅ in
  ["Configuration:"; "================"]%string
  ++ concat (print_group allConfig groups <$> order).

Section Commands.
Context `{JsonCodec} `{ConfigOrder}.

(** [handleSetCommand].  [args] begins with the word [set].  The
    deferred [Close] runs when the function returns, and its error is
    dropped; it does not run when the process exits. *)
Definition handleSetCommand (dbPath : string) (args : list string) (disk : Disk)
    : Outcome :=
  match args with
  | _ :: key :: ((_ :: _) as values) =>
      let value := Join values " " in
      match Open dbPath disk with
      | (Some database, nil) =>
          match SetConfig key value database with
          | (database, nil) =>
              {| out_disk := fst (Close database disk);
                 stdout := ["Config updated: " +:+ key +:+ " = " +:+ value]%string;
                 ending := Returned |}
          | (_, Errorf _) =>
              {| out_disk := disk; stdout := []; ending := Exit 1 |}
          end
      | _ => {| out_disk := disk; stdout := []; ending := Exit 1 |}
      end
  | _ => {| out_disk := disk; stdout := []; ending := Exit 1 |}
  end.

(** [handleGetCommand].  [args] begins with the word [get]. *)
Definition handleGetCommand (dbPath : string) (args : list string) (disk : Disk)
    : Outcome :=
  match args with
  | _ :: key :: _ =>
      match Open dbPath disk with
      | (Some database, nil) =>
          if String.eqb key "all" then
            let allConfig := GetAllConfig database in
            {| out_disk := fst (Close database disk);
               stdout := print_all allConfig;
               ending := Returned |}
          else
            let value := GetConfig key database in
            if String.eqb value "" then
              {| out_disk := disk;
                 stdout := ["Config key '" +:+ key +:+ "' not found or empty"]%string;
                 ending := Exit 1 |}
            else
              {| out_disk := fst (Close database disk);
                 stdout := [value];
                 ending := Returned |}
      | _ => {| out_disk := disk; stdout := []; ending := Exit 1 |}
      end
  | _ => {| out_disk := disk; stdout := []; ending := Exit 1 |}
  end.
End Commands.

(** One order: that in which stdpp lists a map. *)
#[export] Instance listed_config : ConfigOrder :=
  {| range_config := fun m => (map_to_list m).*1;
     range_config_perm := fun m => reflexivity ((map_to_list m).*1) |}.

End Main.

(** ** The HTTP handlers (package httpd) *)

Module Httpd.
Import GoString Naming Db Config.

Definition Second : Z := 1000000000.

Definition StatusOK : Z := 200.
Definition StatusBadRequest : Z := 400.
Definition StatusUnauthorized : Z := 401.
Definition StatusNotFound : Z := 404.
Definition StatusMethodNotAllowed : Z := 405.
Definition StatusInternalServerError : Z := 500.

(** What the handlers read of a request.  [ParseMultipartForm] and
    [FormFile] are the answers of net/http on the body: an error, or
    the file's name and content; [Body_password] is what the JSON
    decoder finds in the body of a login. *)
Record Request := {
  Method : string;
  URL_Path : string;
  Query_path : string;
  X_API_Key : string;
  X_Forwarded_For : string;
  RemoteAddr : string;
  Cookie_session_token : option string;
  ParseMultipartForm : error;
  FormFile : (string * string) + string;
  FormValue_ttl : string;
  Body_password : option string
}.

(** What a handler answers: [http.Error], [writeJSONError], or one of
    the bodies written with status 200 (for an upload, [expires_at] is
    the instant, not its RFC 3339 text). *)
Inductive Response :=
| Error (text : string) (code : Z)
| JSONError (status : Z) (message : string)
| Uploaded (file_path download_url : string) (expires_at : Time)
| ServeFile (contentType fullPath : string)
| Listing (current_path : string)
    (files : list FileMetadata) (directories : list string)
| Success
| RootPage.

(** The file system under [ImagesDir] and the MIME table, as the
    handlers use them.  Nothing is assumed of them. *)
Class Host (World : Type) := {
  os_Stat : string -> World -> Cleanup.os_error;
  os_MkdirAll : string -> World -> World * error;
  os_Create : string -> World -> World * error;
  io_Copy : string -> string -> World -> World * (Z * error);
  TypeByExtension : string -> string
}.

(** [isAllDigits] ranges over the runes of [s]; a rune is a digit only
    when it is one byte that is a digit. *)
Definition isAllDigits (s : string) : bool := all_chars is_digit s.

Definition getRemoteIP (r : Request) : string :=
  if negb (String.eqb (X_Forwarded_For r) "")
  then hd ""%string (Split "," (X_Forwarded_For r))
  else RemoteAddr r.

(** [formatBytes] of this package: the loop is that of package cleanup,
    a count below 1024 is printed as it is. *)
Definition formatBytes (b : Z) : option Cleanup.Formatted :=
  if b <? 1024 then Some (Cleanup.Plain (Itoa b +:+ " B")) else Cleanup.scaled b.

(** The server: its configuration and the session table. *)
Record Server := {
  cfg : Config;
  sessions : gmap string Time
}.

(** [now.After(expiresAt)] *)
Definition After (now expiresAt : Time) : bool := expiresAt <? now.

(** [checkSession]: [None] when the session is good, the answer it
    writes otherwise.  [now] is its clock reading. *)
Definition checkSession (now : Time) (r : Request) (s : Server) : option Response :=
  match Cookie_session_token r with
  | None => Some (JSONError StatusUnauthorized "Not authenticated")
  | Some value =>
      match sessions s !! value with
      | Some expiresAt =>
          if After now expiresAt
          then Some (JSONError StatusUnauthorized "Session expired")
          else None
      | None => Some (JSONError StatusUnauthorized "Session expired")
      end
  end.

(** One turn of the loop of [cleanupSessions], at clock reading [now]. *)
Definition cleanupSessions_turn (now : Time) (s : Server) : Server :=
  {| cfg := cfg s;
     sessions := filter (fun e => After now e.2 = false) (sessions s) |}.

(** [handleLogin]; [token] is what [generateToken] draws. *)
Definition handleLogin (now : Time) (token : string) (r : Request) (s : Server)
    : Response * Server :=
  if negb (String.eqb (Method r) "POST")
  then (Error "Method not allowed" StatusMethodNotAllowed, s)
  else
    match Body_password r with
    | None => (JSONError StatusBadRequest "Invalid request", s)
    | Some password =>
        if negb (String.eqb password (Auth_ListPassword (cfg s)))
        then (JSONError StatusUnauthorized "Invalid password", s)
        else
          (Success,
           {| cfg := cfg s;
              sessions :=
                <[token := Add now (wrap64 (Security_SessionTimeout (cfg s) * Second))]>
                  (sessions s) |})
    end.

Section Handlers.
Context {World : Type} `{Host World} `{UnicodeLower} `{MapOrder} `{DateOrder}.

(** [handleUpload].  [now1] and [now2] are the clock readings of
    [GenerateFilePath], [rnd] its random bytes, [uploadedAt] the reading
    taken after the copy.  [GenerateFilePath] returns no error, so the
    branch on it is not taken. *)
Definition handleUpload (now1 now2 : Clock) (rnd : RandRead) (uploadedAt : Time)
    (r : Request) (s : Server) (d : Database) (w : World)
    : Response * Database * World :=
  if negb (String.eqb (Method r) "POST")
  then (Error "Method not allowed" StatusMethodNotAllowed, d, w)
  else if negb (String.eqb (X_API_Key r) (Auth_APIKey (cfg s)))
  then (JSONError StatusUnauthorized "Invalid or missing API key", d, w)
  else
    match ParseMultipartForm r with
    | Errorf e => (JSONError StatusBadRequest ("Failed to parse form: " +:+ e), d, w)
    | nil =>
        match FormFile r with
        | inr e => (JSONError StatusBadRequest ("Failed to get file: " +:+ e), d, w)
        | inl (Filename, content) =>
            let ttlStr := FormValue_ttl r in
            match (if negb (String.eqb ttlStr "") then Atoi ttlStr
                   else (Storage_DefaultTTL (cfg s), num_ok)) with
            | (ttl, num_ok) =>
                if (ttl <? 1) || (Storage_MaxTTL (cfg s) <? ttl)
                then (JSONError StatusBadRequest
                        ("TTL must be between 1 and "
                         +:+ Itoa (Storage_MaxTTL (cfg s)) +:+ " hours"), d, w)
                else
                  let relativePath := GenerateFilePath now1 now2 rnd Filename in
                  let dateDir := ParseDateFromPath relativePath in
                  let fullDirPath :=
                    Filepath.Join (Storage_ImagesDir (cfg s)) dateDir in
                  match os_MkdirAll fullDirPath w with
                  | (w1, Errorf e) =>
                      (JSONError StatusInternalServerError
                         ("Failed to create directory: " +:+ e), d, w1)
                  | (w1, nil) =>
                      let fullPath :=
                        GetStoragePath (Storage_ImagesDir (cfg s)) relativePath in
                      match os_Create fullPath w1 with
                      | (w2, Errorf e) =>
                          (JSONError StatusInternalServerError
                             ("Failed to create file: " +:+ e), d, w2)
                      | (w2, nil) =>
                          match io_Copy fullPath content w2 with
                          | (w3, (_, Errorf e)) =>
                              (JSONError StatusInternalServerError
                                 ("Failed to save file: " +:+ e), d, w3)
                          | (w3, (size, nil)) =>
                              let expiresAt := Add uploadedAt (wrap64 (ttl * Hour)) in
                              let metadata :=
                                {| ID := 0;
                                   FileName := Filepath.Base relativePath;
                                   OriginalName := Filename;
                                   FilePath := relativePath;
                                   FileSize := size;
                                   UploadedAt := uploadedAt;
                                   ExpiresAt := expiresAt;
                                   TTL := ttl;
                                   RemoteIP := getRemoteIP r |} in
                              let '(_, d1, _) := SaveFileMetadata metadata d in
                              (Uploaded relativePath ("/files/" +:+ relativePath)
                                 expiresAt, d1, w3)
                          end
                      end
                  end
            | (_, _) => (JSONError StatusBadRequest "Invalid TTL value", d, w)
            end
        end
    end.

(** [handleFiles]: the file to serve, or the refusal. *)
Definition handleFiles (r : Request) (s : Server) (w : World) : Response :=
  if negb (String.eqb (Method r) "GET")
  then Error "Method not allowed" StatusMethodNotAllowed
  else
    let filePath := TrimPrefix (URL_Path r) "/files/" in
    if String.eqb filePath "" then Error "File not found" StatusNotFound
    else
      let fullPath := GetStoragePath (Storage_ImagesDir (cfg s)) filePath in
      match os_Stat fullPath w with
      | Cleanup.os_not_exist => Error "File not found" StatusNotFound
      | _ =>
          let ext := Filepath.Ext filePath in
          let mimeType := TypeByExtension ext in
          let mimeType :=
            if String.eqb mimeType "" then "application/octet-stream"%string
            else mimeType in
          ServeFile mimeType fullPath
      end.

(** [handleCatchAll] *)
Definition handleCatchAll (r : Request) (s : Server) (w : World) : Response :=
  if String.eqb (URL_Path r) "/" then RootPage
  else
    let requestPath := TrimPrefix (URL_Path r) "/" in
    match Split "/" requestPath with
    | date :: name :: _ =>
        if Nat.eqb (String.length date) 8 && isAllDigits date
           && negb (String.eqb (Filepath.Ext name) "")
        then handleFiles r s w
        else Error "404 page not found" StatusNotFound
    | _ => Error "404 page not found" StatusNotFound
    end.

(** [handleAPIFiles]; [now] is the clock reading of [checkSession]. *)
Definition handleAPIFiles (now : Time) (r : Request) (s : Server) (d : Database)
    : Response :=
  if negb (String.eqb (Method r) "GET")
  then Error "Method not allowed" StatusMethodNotAllowed
  else
    match checkSession now r s with
    | Some refusal => refusal
    | None =>
        let date := Query_path r in
        if negb (String.eqb date "") then
          match ListFilesByDate date d with
          | (files, nil) => Listing date files []
          | (_, Errorf e) =>
              JSONError StatusInternalServerError ("Failed to list files: " +:+ e)
          end
        else
          match ListAllDates d with
          | (dates, nil) => Listing date [] dates
          | (_, Errorf e) =>
              JSONError StatusInternalServerError ("Failed to list dates: " +:+ e)
          end
    end.
End Handlers.

End Httpd.

(** ** Sample inputs for the store *)

Module Snapshot.
Import Db.

#[export] Instance FileMetadata_eq_dec : EqDecision FileMetadata.
Proof. solve_decision. Defined.
#[export] Instance DatabaseData_eq_dec : EqDecision DatabaseData.
Proof. solve_decision. Defined.

(** A codec that knows one document: it writes [text] for [known] and
    refuses to write anything else; it reads [text] back as [known] and
    rejects any other content, leaving the target as it is. *)
Definition write (known : DatabaseData) (text : string) (d : DatabaseData)
    : option string :=
  if decide (d = known) then Some text else None.

Definition read (known : DatabaseData) (text : string)
    (content : string) (target : DatabaseData) : DatabaseData * error :=
  if String.eqb content text then (known, nil)
  else (target, Errorf "invalid character").

Definition codec (known : DatabaseData) (text : string) : JsonCodec.
Proof.
  refine {| faithful := fun _ => True;
            MarshalIndent := write known text; Unmarshal := read known text |}.
  intros d s _. unfold write, read. case_decide; [|done].
  intros [= <-]. rewrite String.eqb_refl. by subst.
Defined.

Definition sample (path : string) (expires : Time) : FileMetadata :=
  {| ID := 0; FileName := path; OriginalName := "photo.jpg"; FilePath := path;
     FileSize := 10; UploadedAt := expires - Hour; ExpiresAt := expires;
     TTL := 1; RemoteIP := "127.0.0.1" |}.

Definition fresh : Database :=
  {| filePath := "data/metadata.db"; data := emptyData; autoSave := false |}.

Definition empty_disk : Disk := {| disk_files := ∅; disk_denied := ∅ |}.

(** The data of a store opened on an empty directory. *)
Definition defaults : DatabaseData :=
  {| Files := ∅; NextID := 1; Config := defaultConfig |}.

(** A disk whose snapshot file does not parse. *)
Definition garbled_disk : Disk :=
  {| disk_files := {[ "data/metadata.db"%string := "{"%string ]};
     disk_denied := ∅ |}.

(** A directory tree that refuses everything, and one in which every
    file has already gone. *)
Definition refusing : Cleanup.Storage unit :=
  {| Cleanup.os_Remove := fun _ w => (w, Cleanup.os_failure "permission denied");
     Cleanup.os_ReadDir := fun _ w => ([], Cleanup.os_failure "permission denied") |}.

Definition vanished : Cleanup.Storage unit :=
  {| Cleanup.os_Remove := fun _ w => (w, Cleanup.os_not_exist);
     Cleanup.os_ReadDir := fun _ w => ([], Cleanup.os_not_exist) |}.

(** A store with two records, of which the first has expired at time
    [150]. *)
Definition two_records : Database :=
  snd (SaveAll [sample "20260131/a.jpg" 100; sample "20260131/b.jpg" 200] fresh).

Definition images : Cleanup.Config :=
  {| Cleanup.ImagesDir := "./Images"; Cleanup.CleanupInterval := 60 |}.

(** A directory tree in which every call succeeds and every file is
    there; [io.Copy] reports the length of what it copied. *)
Definition willing : Httpd.Host unit :=
  {| Httpd.os_Stat := fun _ _ => Cleanup.os_nil;
     Httpd.os_MkdirAll := fun _ w => (w, nil);
     Httpd.os_Create := fun _ w => (w, nil);
     Httpd.io_Copy := fun _ content w => (w, (Z.of_nat (String.length content), nil));
     Httpd.TypeByExtension := fun _ => ""%string |}.

(** A server on the default configuration, with no session. *)
Definition server : Httpd.Server :=
  {| Httpd.cfg :=
       Main.buildConfigFromDB "data/metadata.db"
         {| filePath := "data/metadata.db"; data := defaults; autoSave := false |};
     Httpd.sessions := ∅ |}.

Definition request (method path : string) : Httpd.Request :=
  {| Httpd.Method := method; Httpd.URL_Path := path; Httpd.Query_path := "";
     Httpd.X_API_Key := "change-me-api-key"; Httpd.X_Forwarded_For := "";
     Httpd.RemoteAddr := "127.0.0.1:50000";
     Httpd.Cookie_session_token := Some "token"%string;
     Httpd.ParseMultipartForm := nil;
     Httpd.FormFile := inl ("photo.jpg", "0123456789")%string;
     Httpd.FormValue_ttl := "1";
     Httpd.Body_password := Some "490003219"%string |}.

End Snapshot.

(** * Properties *)

(** ** The metadata store *)

Module DbFacts.
Import GoString Filepath Db Snapshot.

Lemma filter_perm {A} (f : A -> bool) (l l' : list A) :
  l ≡ₚ l' -> List.filter f l ≡ₚ List.filter f l'.
Proof.
  induction 1 as [|x l l' _ IH|x y l|l l' l'' _ IH1 _ IH2]; simpl.
  - constructor.
  - destruct (f x); [by constructor|done].
  - destruct (f x), (f y); try done. apply perm_swap.
  - by etrans.
Qed.

Lemma wrap64_id z : MinInt64 <= z <= MaxInt64 -> wrap64 z = z.
Proof.
  unfold wrap64, MinInt64, MaxInt64. intros Hz.
  rewrite Z.mod_small; lia.
Qed.

Section Order.
Context `{MapOrder}.

Lemma range_files_lookup (m : gmap Z FileMetadata) id meta :
  (id, meta) ∈ range_files m <-> m !! id = Some meta.
Proof. by rewrite range_files_perm, elem_of_map_to_list. Qed.

Lemma find_path_Some p (m : gmap Z FileMetadata) id meta :
  find (has_path p) (range_files m) = Some (id, meta) ->
  m !! id = Some meta /\ FilePath meta = p.
Proof.
  intros Hf. apply find_some in Hf as [Hin Hp].
  apply list_elem_of_In, range_files_lookup in Hin.
  split; [done|]. unfold has_path in Hp; simpl in Hp.
  by apply String.eqb_eq.
Qed.

Lemma find_path_None p (m : gmap Z FileMetadata) :
  find (has_path p) (range_files m) = None ->
  forall id meta, m !! id = Some meta -> FilePath meta <> p.
Proof.
  intros Hf id meta Hl. apply range_files_lookup, list_elem_of_In in Hl.
  pose proof (find_none _ _ Hf _ Hl) as Hp.
  unfold has_path in Hp; simpl in Hp. by apply String.eqb_neq.
Qed.

Lemma expired_elem now d meta :
  meta ∈ fst (GetExpiredFiles now d) <->
  exists id, Files (data d) !! id = Some meta /\ ExpiresAt meta < now.
Proof.
  unfold GetExpiredFiles; simpl.
  rewrite list_elem_of_In, filter_In, <- list_elem_of_In, list_elem_of_fmap.
  unfold Before. rewrite Z.ltb_lt. split.
  - intros [[[id m] [-> Hin]] Hlt]. exists id.
    by apply range_files_lookup in Hin.
  - intros [id [Hl Hlt]]. split; [|done].
    exists (id, meta). split; [done|]. by apply range_files_lookup.
Qed.
End Order.

Lemma SaveAll_spec (metas : list FileMetadata) (d : Database) :
  MinInt64 <= NextID (data d) ->
  NextID (data d) + Z.of_nat (length metas) <= MaxInt64 ->
  fst (SaveAll metas d) = seqZ (NextID (data d)) (Z.of_nat (length metas)) /\
  NextID (data (snd (SaveAll metas d))) = NextID (data d) + Z.of_nat (length metas) /\
  (forall id, id < NextID (data d) ->
     Files (data (snd (SaveAll metas d))) !! id = Files (data d) !! id) /\
  (forall (i : nat) meta, metas !! i = Some meta ->
     Files (data (snd (SaveAll metas d))) !! (NextID (data d) + Z.of_nat i)
     = Some (set_ID (NextID (data d) + Z.of_nat i) meta)).
Proof.
  revert d. induction metas as [|m rest IH]; intros d Hlo Hhi.
  - simpl. split; [done|]. split; [lia|]. split; [done|]. intros i meta Hi. done.
  - simpl in Hhi. simpl.
    set (d1 := triggerSave _).
    assert (Hn1 : NextID (data d1) = NextID (data d) + 1).
    { subst d1; simpl. apply wrap64_id. unfold MaxInt64 in *. lia. }
    assert (Hlo1 : MinInt64 <= NextID (data d1)) by lia.
    assert (Hhi1 : NextID (data d1) + Z.of_nat (length rest) <= MaxInt64) by lia.
    destruct (IH d1 Hlo1 Hhi1) as (Hids & Hnext & Hold & Hnew).
    destruct (SaveAll rest d1) as [ids d2] eqn:Hsave. simpl in *.
    split; [|split; [|split]].
    + rewrite seqZ_cons by lia. f_equal. rewrite Hids, Hn1. f_equal; lia.
    + lia.
    + intros id Hid. rewrite Hold by lia. subst d1; simpl.
      apply lookup_insert_ne. lia.
    + intros [|i] meta Hi; simpl in Hi.
      * inversion Hi; subst meta. rewrite Z.add_0_r, Hold by lia.
        subst d1; simpl. apply lookup_insert_eq.
      * specialize (Hnew i meta Hi). rewrite Hn1 in Hnew.
        replace (NextID (data d) + Z.of_nat (S i))
          with (NextID (data d) + 1 + Z.of_nat i) by lia. done.
Qed.

Lemma seqZ_sorted (n : nat) (m : Z) : StronglySorted Z.lt (seqZ m (Z.of_nat n)).
Proof.
  revert m. induction n as [|n IH]; intros m.
  - rewrite seqZ_nil by lia. constructor.
  - rewrite seqZ_cons by lia.
    replace (Z.pred (Z.of_nat (S n))) with (Z.of_nat n) by lia.
    constructor; [apply IH|].
    apply Forall_seqZ. lia.
Qed.

Lemma find_path_is_Some `{MapOrder} p (m : gmap Z FileMetadata) id meta :
  m !! id = Some meta -> FilePath meta = p ->
  exists e, find (has_path p) (range_files m) = Some e /\ FilePath (snd e) = p.
Proof.
  intros Hl Hp.
  destruct (find (has_path p) (range_files m)) as [[id' m']|] eqn:Hf.
  - exists (id', m'). split; [done|]. by apply find_path_Some in Hf as [_ ?].
  - by destruct (find_path_None _ _ Hf _ _ Hl).
Qed.

(** C3. Inserts made one after the other on a store get the ids
    [NextID], [NextID + 1], ...: as many ids as inserts, pairwise
    distinct and strictly increasing; the counter ends that many higher;
    each inserted record is then found under its id (and a record is
    found under its path); the records with smaller ids are still
    there.  The counter is an [int64]: the statement is for runs that stay
    below its maximum. *)
Theorem SaveAll_ids_increasing (metas : list FileMetadata) (d : Database) :
  MinInt64 <= NextID (data d) ->
  NextID (data d) + Z.of_nat (length metas) <= MaxInt64 ->
  let ids := fst (SaveAll metas d) in
  let d' := snd (SaveAll metas d) in
  ids = seqZ (NextID (data d)) (Z.of_nat (length metas)) /\
  length ids = length metas /\
  NoDup ids /\
  StronglySorted Z.lt ids /\
  NextID (data d') = NextID (data d) + Z.of_nat (length metas) /\
  (forall (i : nat) id meta,
     ids !! i = Some id -> metas !! i = Some meta ->
     GetFileMetadataByID id d' = (Some (set_ID id meta), nil)) /\
  (forall (order : MapOrder) meta,
     meta ∈ metas ->
     exists found, GetFileMetadata (FilePath meta) d' = (Some found, nil) /\
                   FilePath found = FilePath meta) /\
  (forall id, id < NextID (data d) ->
     GetFileMetadataByID id d' = GetFileMetadataByID id d).
Proof.
  intros Hlo Hhi ids d'.
  destruct (SaveAll_spec metas d Hlo Hhi) as (Hids & Hnext & Hold & Hnew).
  fold ids in Hids. fold d' in Hnext, Hold, Hnew.
  assert (Hget : forall (i : nat) id meta,
             ids !! i = Some id -> metas !! i = Some meta ->
             Files (data d') !! id = Some (set_ID id meta)).
  { intros i id meta Hi Hm. rewrite Hids in Hi.
    apply lookup_seqZ in Hi as [-> _]. by apply Hnew. }
  split; [done|]. rewrite Hids.
  split; [rewrite length_seqZ; lia|].
  split; [apply NoDup_seqZ|].
  split; [apply seqZ_sorted|].
  split; [done|].
  split; [|split].
  - intros i id meta Hi Hm. unfold GetFileMetadataByID. f_equal.
    apply (Hget i); [by rewrite Hids|done].
  - intros order meta Hin.
    apply list_elem_of_lookup in Hin as [i Hm].
    assert (Hi : ids !! i = Some (NextID (data d) + Z.of_nat i)).
    { rewrite Hids. apply lookup_seqZ_lt.
      apply lookup_lt_Some in Hm. lia. }
    pose proof (Hget i _ meta Hi Hm) as Hl.
    destruct (find_path_is_Some (FilePath meta) _ _ _ Hl eq_refl)
      as ([id' found] & Hf & Hp).
    exists found. unfold GetFileMetadata. by rewrite Hf.
  - intros id Hid. unfold GetFileMetadataByID. f_equal. by apply Hold.
Qed.

Lemma SaveAll_ids_increasing_witness :
  let metas := [sample "a" 100; sample "b" 200; sample "c" 300] in
  MinInt64 <= NextID (data fresh) /\
  NextID (data fresh) + Z.of_nat (length metas) <= MaxInt64 /\
  fst (SaveAll metas fresh) = [1; 2; 3] /\
  NoDup (fst (SaveAll metas fresh)) /\
  NextID (data (snd (SaveAll metas fresh))) = 4.
Proof.
  intros metas.
  assert (Hlo : MinInt64 <= NextID (data fresh)) by (vm_compute; discriminate).
  assert (Hhi : NextID (data fresh) + Z.of_nat (length metas) <= MaxInt64)
    by (vm_compute; discriminate).
  destruct (SaveAll_ids_increasing metas fresh Hlo Hhi)
    as (Hids & _ & Hnd & _ & Hnext & _).
  split; [exact Hlo|]. split; [exact Hhi|]. split; [exact Hids|].
  split; [exact Hnd|exact Hnext].
Defined.

(** C4. [GetExpiredFiles] returns the records whose [ExpiresAt] is
    strictly before the clock reading [now], each once, and nothing
    else; a record uploaded at [T] with a TTL of one hour is not
    returned at [T + 59 min] and is returned at [T + 61 min]. *)
Theorem GetExpiredFiles_strictly_before `{MapOrder} (now : Time) (d : Database) :
  snd (GetExpiredFiles now d) = nil /\
  fst (GetExpiredFiles now d)
    ≡ₚ List.filter (fun meta => ExpiresAt meta <? now)
         (snd <$> map_to_list (Files (data d))) /\
  (forall meta,
     meta ∈ fst (GetExpiredFiles now d) <->
     exists id, Files (data d) !! id = Some meta /\ ExpiresAt meta < now) /\
  (forall id meta T,
     Files (data d) !! id = Some meta ->
     UploadedAt meta = T -> TTL meta = 1 -> ExpiresAt meta = expiry T (TTL meta) ->
     (meta ∉ fst (GetExpiredFiles (T + 59 * Minute) d)) /\
     (meta ∈ fst (GetExpiredFiles (T + 61 * Minute) d))).
Proof.
  split; [done|]. split; [|split].
  - unfold GetExpiredFiles; simpl. apply filter_perm.
    apply fmap_Permutation, range_files_perm.
  - apply expired_elem.
  - intros id meta T Hl _ Httl Hexp.
    rewrite Httl in Hexp. unfold expiry, Add in Hexp.
    rewrite wrap64_id in Hexp by (vm_compute; split; discriminate).
    rewrite !expired_elem. split.
    + intros (id' & _ & Hlt). rewrite Hexp in Hlt.
      unfold Hour, Minute in Hlt. lia.
    + exists id. split; [done|]. rewrite Hexp. unfold Hour, Minute. lia.
Qed.

Lemma DeleteFileMetadata_nil `{MapOrder} (p : string) (d : Database) :
  snd (DeleteFileMetadata p d) = nil.
Proof. unfold DeleteFileMetadata. by destruct (find _ _) as [[? ?]|]. Qed.

(** C9. [DeleteFileMetadata] returns no error; when a record has the
    path, one record with that path is removed and nothing else changes
    in the file map; when no record has the path, the store is left as it
    was. *)
Theorem DeleteFileMetadata_present_or_absent `{MapOrder} (p : string) (d : Database) :
  snd (DeleteFileMetadata p d) = nil /\
  ((exists id meta, Files (data d) !! id = Some meta /\ FilePath meta = p) ->
   exists id meta,
     Files (data d) !! id = Some meta /\ FilePath meta = p /\
     Files (data (fst (DeleteFileMetadata p d))) = delete id (Files (data d)) /\
     Files (data (fst (DeleteFileMetadata p d))) !! id = None) /\
  ((forall id meta, Files (data d) !! id = Some meta -> FilePath meta <> p) ->
   fst (DeleteFileMetadata p d) = d /\
   Files (data (fst (DeleteFileMetadata p d))) = Files (data d)).
Proof.
  unfold DeleteFileMetadata.
  destruct (find (has_path p) (range_files (Files (data d))))
    as [[id meta]|] eqn:Hf; simpl.
  - apply find_path_Some in Hf as [Hl Hp].
    split; [done|]. split.
    + intros _. exists id, meta. repeat split; try done.
      apply lookup_delete_eq.
    + intros Hnone. by destruct (Hnone id meta Hl).
  - split; [done|]. split; [|done].
    intros (id & meta & Hl & Hp).
    by destruct (find_path_None _ _ Hf _ _ Hl).
Qed.

(** C10. For a key that is not in the configuration map [GetConfig]
    returns the empty string, the very answer it gives once the key has
    been set to the empty string: the two stores cannot be told apart
    through [GetConfig]. *)
Theorem GetConfig_missing_key (key : string) (d : Database) :
  Config (data d) !! key = None ->
  GetConfig key d = ""%string /\
  Config (data (fst (SetConfig key "" d))) !! key = Some ""%string /\
  GetConfig key (fst (SetConfig key "" d)) = GetConfig key d.
Proof.
  intros Hnone. unfold GetConfig; simpl.
  rewrite Hnone, lookup_insert_eq. done.
Qed.

Lemma GetConfig_missing_key_witness :
  Config (data fresh) !! "storage.max_ttl"%string = None /\
  GetConfig "storage.max_ttl" fresh = ""%string /\
  GetConfig "storage.max_ttl" (fst (SetConfig "storage.max_ttl" "" fresh)) = ""%string.
Proof.
  assert (Hnone : Config (data fresh) !! "storage.max_ttl"%string = None)
    by reflexivity.
  destruct (GetConfig_missing_key "storage.max_ttl" fresh Hnone) as (H1 & _ & H3).
  split; [exact Hnone|]. split; [exact H1|]. rewrite H3. exact H1.
Defined.

(** *** Snapshots: [Open], [save], [Close] *)

Section Codec.
Context `{JsonCodec}.

Lemma Open_directory_error path disk e :
  MkdirAll (Dir path) disk = Errorf e ->
  Open path disk = (None, Errorf ("failed to create database directory: " +:+ e)).
Proof. intros Hmk. unfold Open. by rewrite Hmk. Qed.

Lemma save_ok d disk disk' :
  save d disk = (disk', nil) ->
  exists content,
    MarshalIndent (data d) = Some content /\
    disk_files disk' =
      <[filePath d := content]> (delete (filePath d +:+ ".tmp") (disk_files disk)) /\
    disk_denied disk' = disk_denied disk.
Proof.
  unfold save, WriteFile, Rename.
  destruct (MarshalIndent (data d)) as [content|]; [|done].
  case_decide; [done|]. simpl. rewrite lookup_insert_eq.
  case_decide; [done|]. intros [= <-]. exists content. simpl.
  by rewrite delete_insert_eq.
Qed.

Lemma save_writable d disk content :
  MarshalIndent (data d) = Some content ->
  filePath d ∉ disk_denied disk ->
  filePath d +:+ ".tmp" ∉ disk_denied disk ->
  save d disk =
    ({| disk_files :=
          <[filePath d := content]> (delete (filePath d +:+ ".tmp") (disk_files disk));
        disk_denied := disk_denied disk |}, nil).
Proof.
  intros Hm Hp Ht. unfold save, WriteFile, Rename. rewrite Hm.
  case_decide; [done|]. simpl. rewrite lookup_insert_eq.
  case_decide; [done|]. by rewrite delete_insert_eq.
Qed.

Lemma Open_existing path disk content :
  MkdirAll (Dir path) disk = nil ->
  disk_files disk !! path = Some content ->
  Open path disk =
    (Some (let database :=
             {| filePath := path;
                data := fst (Unmarshal content emptyData);
                autoSave := false |} in
           if decide (size (Config (data database)) = 0%nat)
           then initDefaultConfig database else database),
     nil).
Proof.
  intros Hmk Hl. unfold Open, Stat, ReadFile. by rewrite Hmk, Hl.
Qed.

(** C1 (the code departs from it).  When the directory can be made
    and the snapshot file is there but does not parse, [Open] does not
    fail: it returns a store built from whatever [Unmarshal] left in the
    target.  If that has no configuration, the defaults are put in and a
    save is requested; the next turn of [autoSaveLoop] then replaces the
    file that did not parse with the new snapshot, and writes no copy of
    the old content anywhere. *)
Theorem Open_unparseable_snapshot path content disk partial e :
  MkdirAll (Dir path) disk = nil ->
  disk_files disk !! path = Some content ->
  Unmarshal content emptyData = (partial, Errorf e) ->
  Config partial = ∅ ->
  let opened :=
    initDefaultConfig {| filePath := path; data := partial; autoSave := false |} in
  Open path disk = (Some opened, nil) /\
  autoSave opened = true /\
  forall s,
    faithful (data opened) -> MarshalIndent (data opened) = Some s ->
    path ∉ disk_denied disk -> path +:+ ".tmp" ∉ disk_denied disk ->
    exists disk',
      autoSaveLoop_turn Request opened disk
        = Some ({| filePath := path; data := data opened; autoSave := false |}, disk') /\
      disk_files disk'
        = <[path := s]> (delete (path +:+ ".tmp") (disk_files disk)) /\
      disk_files disk' !! path = Some s /\
      s <> content.
Proof.
  intros Hmk Hl Hun Hcfg opened.
  split; [|split; [done|]].
  - rewrite (Open_existing _ _ _ Hmk Hl), Hun. simpl.
    rewrite Hcfg, map_size_empty. by rewrite decide_True.
  - intros s Hok Hs Hp Ht. unfold autoSaveLoop_turn. simpl.
    rewrite (save_writable opened disk s Hs Hp Ht). simpl.
    eexists. split; [done|]. simpl. split; [done|].
    split; [apply lookup_insert_eq|].
    intros ->. apply Unmarshal_MarshalIndent in Hs; [|done].
    rewrite Hun in Hs. discriminate.
Qed.

(** C6.  A batch of records is inserted, the store is closed without an
    error, and the same path is opened again (its directory can be made,
    as when the store was first opened; the strings of the store are
    ones the encoding writes exactly): the reopened store has the same
    file map, so every id gives the same record, with its path and its
    timestamps, and the same [NextID]; when the closed store had a
    configuration, the whole data is the same. *)
Theorem Close_Open_round_trip (metas : list FileMetadata) (d0 : Database)
    (disk disk' : Disk) :
  let d := snd (SaveAll metas d0) in
  faithful (data d) ->
  MkdirAll (Dir (filePath d)) disk = nil ->
  Close d disk = (disk', nil) ->
  exists d',
    Open (filePath d) disk' = (Some d', nil) /\
    Files (data d') = Files (data d) /\
    NextID (data d') = NextID (data d) /\
    (forall id, GetFileMetadataByID id d' = GetFileMetadataByID id d) /\
    (Config (data d) <> ∅ -> data d' = data d).
Proof.
  intros d Hok Hmk Hclose. unfold Close in Hclose.
  apply save_ok in Hclose as (content & Hm & Hfiles & Hden).
  assert (Hmk' : MkdirAll (Dir (filePath d)) disk' = nil).
  { unfold MkdirAll in *. by rewrite Hden. }
  assert (Hl : disk_files disk' !! filePath d = Some content).
  { rewrite Hfiles. apply lookup_insert_eq. }
  rewrite (Open_existing _ _ _ Hmk' Hl).
  rewrite (Unmarshal_MarshalIndent _ _ Hok Hm). simpl.
  eexists. split; [done|].
  case_decide as Hsz; simpl.
  - repeat split; try done.
    intros Hne. apply map_size_empty_iff in Hsz. done.
  - repeat split; try done.
Qed.

End Codec.

Lemma Open_unparseable_snapshot_witness :
  let C := codec defaults "snapshot" in
  let path := "data/metadata.db"%string in
  @Unmarshal C "{" emptyData = (emptyData, Errorf "invalid character") /\
  @Open C path garbled_disk
    = (Some {| filePath := path; data := defaults; autoSave := true |}, nil) /\
  exists disk',
    @autoSaveLoop_turn C Request
      {| filePath := path; data := defaults; autoSave := true |} garbled_disk
      = Some ({| filePath := path; data := defaults; autoSave := false |}, disk') /\
    disk_files disk' !! path = Some "snapshot"%string.
Proof.
  intros C path.
  assert (Hmk : MkdirAll (Dir path) garbled_disk = nil) by (vm_compute; reflexivity).
  assert (Hl : disk_files garbled_disk !! path = Some "{"%string) by (vm_compute; reflexivity).
  assert (Hun : @Unmarshal C "{" emptyData = (emptyData, Errorf "invalid character"))
    by (vm_compute; reflexivity).
  assert (Hcfg : Config emptyData = ∅) by reflexivity.
  destruct (@Open_unparseable_snapshot C path "{" garbled_disk emptyData _ Hmk Hl Hun Hcfg)
    as (Hopen & _ & Hflush).
  split; [exact Hun|]. split; [exact Hopen|].
  assert (Hs : @MarshalIndent C defaults = Some "snapshot"%string) by (vm_compute; reflexivity).
  assert (Hp : path ∉ disk_denied garbled_disk) by apply not_elem_of_empty.
  assert (Ht : path +:+ ".tmp" ∉ disk_denied garbled_disk) by apply not_elem_of_empty.
  destruct (Hflush _ I Hs Hp Ht) as (disk' & Hturn & _ & Hnew & _).
  exists disk'. split; [exact Hturn|exact Hnew].
Defined.

Lemma Close_Open_round_trip_witness :
  let metas := [sample "a" 100; sample "b" 200] in
  let d := snd (SaveAll metas fresh) in
  let C := codec (data d) "snapshot" in
  MkdirAll (Dir (filePath d)) empty_disk = nil /\
  @Close C d empty_disk = (fst (@Close C d empty_disk), nil) /\
  exists d',
    @Open C (filePath d) (fst (@Close C d empty_disk)) = (Some d', nil) /\
    Files (data d') = Files (data d) /\
    NextID (data d') = 3.
Proof.
  intros metas d C.
  assert (Hmk : MkdirAll (Dir (filePath d)) empty_disk = nil) by (vm_compute; reflexivity).
  assert (Hclose : @Close C d empty_disk = (fst (@Close C d empty_disk), nil))
    by (vm_compute; reflexivity).
  destruct (@Close_Open_round_trip C metas fresh empty_disk _ I Hmk Hclose)
    as (d' & Hopen & Hfiles & Hnext & _).
  split; [exact Hmk|]. split; [exact Hclose|].
  exists d'. split; [exact Hopen|]. split; [exact Hfiles|exact Hnext].
Defined.

(** The store on a first run, and on a directory that cannot be made. *)
Example open_first_run :
  exists d,
    @Open (codec defaults "snapshot") "data/metadata.db" empty_disk = (Some d, nil) /\
    data d = defaults /\ autoSave d = true /\
    size (Config (data d)) = 14%nat /\
    GetConfig "storage.max_file_size" d = "104857600"%string /\
    GetConfig "storage.max_ttl" d = "8760"%string.
Proof. eexists. split; [vm_compute; reflexivity|]. vm_compute. done. Qed.

Example open_directory_refused :
  @Open (codec defaults "snapshot") "data/metadata.db"
    {| disk_files := ∅; disk_denied := {[ "data"%string ]} |}
  = (None, Errorf "failed to create database directory: permission denied").
Proof. vm_compute. reflexivity. Qed.

End DbFacts.

(** ** The expiry sweeper *)

Module CleanupFacts.
Import GoString Filepath Naming Cleanup Db Snapshot DbFacts.

Lemma NoDup_fmap_inj_on {A B} (f : A -> B) (l : list A) x y :
  NoDup (f <$> l) -> x ∈ l -> y ∈ l -> f x = f y -> x = y.
Proof.
  induction l as [|a l IH]; simpl; intros Hnd Hx Hy Hf.
  - by apply elem_of_nil in Hx.
  - apply NoDup_cons in Hnd as [Ha Hnd].
    apply elem_of_cons in Hx as [->|Hx]; apply elem_of_cons in Hy as [->|Hy].
    + done.
    + destruct Ha. rewrite Hf. by apply list_elem_of_fmap_2.
    + destruct Ha. rewrite <- Hf. by apply list_elem_of_fmap_2.
    + by apply IH.
Qed.

Lemma paths_unique_lookup (files : gmap Z FileMetadata) i j mi mj :
  paths_unique files ->
  files !! i = Some mi -> files !! j = Some mj ->
  FilePath mi = FilePath mj -> i = j.
Proof.
  intros Hu Hi Hj Hp.
  apply elem_of_map_to_list in Hi, Hj.
  by pose proof (NoDup_fmap_inj_on _ _ (i, mi) (j, mj) Hu Hi Hj Hp) as [= -> _].
Qed.

Lemma paths_unique_delete (files : gmap Z FileMetadata) i :
  paths_unique files -> paths_unique (delete i files).
Proof.
  unfold paths_unique. intros Hu.
  destruct (files !! i) as [m|] eqn:Hi.
  - rewrite <- (map_to_list_delete files i m Hi) in Hu.
    simpl in Hu. by apply NoDup_cons in Hu as [_ ?].
  - by rewrite delete_id.
Qed.

Section Sweep.
Context {World : Type} `{Storage World} `{MapOrder}.

(** What a call of [DeleteFileMetadata] leaves when paths are unique:
    the records with another path. *)
Lemma delete_by_path_lookup p d id m :
  paths_unique (Files (data d)) ->
  Files (data (fst (DeleteFileMetadata p d))) !! id = Some m <->
  Files (data d) !! id = Some m /\ FilePath m <> p.
Proof.
  intros Hu. unfold DeleteFileMetadata.
  destruct (find (has_path p) (range_files (Files (data d))))
    as [[id0 m0]|] eqn:Hf; simpl.
  - apply find_path_Some in Hf as [Hl0 Hp0]. rewrite lookup_delete_Some. split.
    + intros [Hne Hl]. split; [done|]. intros Hp. apply Hne.
      apply (paths_unique_lookup _ _ _ _ _ Hu Hl0 Hl). congruence.
    + intros [Hl Hp]. split; [|done]. intros ->. congruence.
  - split; [|by intros []].
    intros Hl. split; [done|]. by apply (find_path_None _ _ Hf id).
Qed.

Lemma delete_by_path_unique p d :
  paths_unique (Files (data d)) ->
  paths_unique (Files (data (fst (DeleteFileMetadata p d)))).
Proof.
  intros Hu. unfold DeleteFileMetadata.
  destruct (find _ _) as [[id0 m0]|]; simpl; [|done].
  by apply paths_unique_delete.
Qed.

Lemma cleanup_file_db cfg st file :
  sw_db (cleanup_file cfg st file) = forget (sw_db st) file.
Proof.
  unfold cleanup_file, forget.
  destruct (os_Remove _ _) as [w1 err].
  destruct err, (DeleteFileMetadata _ _) as [db1 []];
    destruct (negb _); try destruct (removeEmptyDir _ _) as [w' []]; reflexivity.
Qed.

Lemma cleanup_file_log cfg st file :
  exists before after,
    sw_log (cleanup_file cfg st file)
    = sw_log st ++ before
      ++ [LogDeleted (FilePath file) (OriginalName file) (FileSize file)] ++ after.
Proof.
  unfold cleanup_file.
  destruct (os_Remove _ _) as [w1 err].
  pose proof (DeleteFileMetadata_nil (FilePath file) (sw_db st)) as He.
  destruct (DeleteFileMetadata _ _) as [db1 derr]. simpl in He. subst derr.
  destruct err; destruct (negb _); try destruct (removeEmptyDir _ _) as [w' []];
    simpl; rewrite <- ?app_assoc; simpl.
  all: first [ by exists [], [] | by eexists [], [_]
             | by eexists [_], [] | by eexists [_], [_] ].
Qed.

Lemma sweep_db cfg files st :
  sw_db (fold_left (cleanup_file cfg) files st) = fold_left forget files (sw_db st).
Proof.
  revert st. induction files as [|f files IH]; intros st; simpl; [done|].
  by rewrite IH, cleanup_file_db.
Qed.

Lemma sweep_log cfg files st file :
  file ∈ files ->
  LogDeleted (FilePath file) (OriginalName file) (FileSize file)
    ∈ sw_log (fold_left (cleanup_file cfg) files st).
Proof.
  assert (Hmono : forall fs s line,
            line ∈ sw_log s -> line ∈ sw_log (fold_left (cleanup_file cfg) fs s)).
  { induction fs as [|f fs IH]; intros s line Hin; simpl; [done|].
    apply IH. destruct (cleanup_file_log cfg s f) as (b & a & ->).
    apply elem_of_app. by left. }
  revert st. induction files as [|f files IH]; intros st Hin; simpl.
  - by apply elem_of_nil in Hin.
  - apply elem_of_cons in Hin as [->|Hin]; [|by apply IH].
    apply Hmono. destruct (cleanup_file_log cfg st f) as (b & a & ->).
    rewrite !elem_of_app. right. right. left. apply list_elem_of_singleton. done.
Qed.

Lemma forget_all_lookup files d id m :
  paths_unique (Files (data d)) ->
  Files (data (fold_left forget files d)) !! id = Some m <->
  Files (data d) !! id = Some m /\ FilePath m ∉ FilePath <$> files.
Proof.
  revert d. induction files as [|f files IH]; intros d Hu; simpl.
  - split; [intros ?; split; [done|apply not_elem_of_nil]|by intros []].
  - rewrite IH by by apply delete_by_path_unique.
    unfold forget. rewrite delete_by_path_lookup by done.
    rewrite not_elem_of_cons. tauto.
Qed.

(** The file map after a sweep, when paths are unique: the records that
    had not expired. *)
Lemma runCleanup_files cfg now d w id m :
  paths_unique (Files (data d)) ->
  Files (data (fst (fst (runCleanup cfg now d w)))) !! id = Some m <->
  Files (data d) !! id = Some m /\ ~ ExpiresAt m < now.
Proof.
  intros Hu. unfold runCleanup.
  pose proof (expired_elem now d) as Hexp.
  destruct (GetExpiredFiles now d) as [expired err] eqn:Hget.
  assert (err = nil) as -> by (by inversion Hget).
  simpl in Hexp.
  assert (Hpaths : Files (data d) !! id = Some m ->
            (FilePath m ∉ FilePath <$> expired) <-> ~ ExpiresAt m < now).
  { intros Hl. rewrite list_elem_of_fmap. split.
    - intros Hnot Hlt. apply Hnot. exists m. split; [done|].
      apply Hexp. by exists id.
    - intros Hnlt (m2 & Hp & Hin). apply Hexp in Hin as (id2 & Hl2 & Hlt2).
      pose proof (paths_unique_lookup _ _ _ _ _ Hu Hl Hl2 Hp) as ->.
      congruence. }
  destruct (Nat.eqb (length expired) 0) eqn:Hlen; simpl.
  - apply Nat.eqb_eq, nil_length_inv in Hlen. subst expired.
    split; [|by intros []]. intros Hl. split; [done|].
    apply Hpaths; [done|]. rewrite fmap_nil. apply not_elem_of_nil.
  - rewrite sweep_db. simpl. rewrite forget_all_lookup by done.
    split; intros [Hl Hx]; (split; [done|]); by apply Hpaths.
Qed.

(** C2.  In a store whose records have distinct paths, a sweep at clock
    reading [now] removes the metadata of every record that had expired,
    and reports it, whatever the storage answered to the deletion of its
    file (done, already missing, failed) and to the deletions before it;
    the records that had not expired are kept.  In each turn of the loop
    the store is changed by [DeleteFileMetadata] on the path of the file,
    and by nothing that depends on the answer of [os.Remove]. *)
Theorem runCleanup_forgets_every_expired cfg now d w :
  paths_unique (Files (data d)) ->
  let swept := runCleanup cfg now d w in
  (forall id meta,
     Files (data d) !! id = Some meta -> ExpiresAt meta < now ->
     Files (data (fst (fst swept))) !! id = None /\
     LogDeleted (FilePath meta) (OriginalName meta) (FileSize meta) ∈ snd swept) /\
  (forall id meta,
     Files (data d) !! id = Some meta -> ~ ExpiresAt meta < now ->
     Files (data (fst (fst swept))) !! id = Some meta) /\
  (forall st file,
     sw_db (cleanup_file cfg st file)
     = fst (DeleteFileMetadata (FilePath file) (sw_db st))).
Proof.
  intros Hu swept. split; [|split].
  - intros id meta Hl Hlt. split.
    + destruct (Files (data (fst (fst swept))) !! id) as [m|] eqn:Hafter; [|done].
      apply runCleanup_files in Hafter as [Hl' Hn]; [|done].
      rewrite Hl in Hl'. inversion Hl'; subst m. done.
    + subst swept. unfold runCleanup.
      pose proof (expired_elem now d meta) as Hexp.
      destruct (GetExpiredFiles now d) as [expired err] eqn:Hget.
      assert (err = nil) as -> by (by inversion Hget).
      simpl in Hexp.
      assert (Hin : meta ∈ expired) by (apply Hexp; by exists id).
      destruct (Nat.eqb (length expired) 0) eqn:Hlen.
      * apply Nat.eqb_eq, nil_length_inv in Hlen. subst expired.
        by apply elem_of_nil in Hin.
      * simpl. apply elem_of_app. left. by apply sweep_log.
  - intros id meta Hl Hn. by apply runCleanup_files.
  - intros st file. apply cleanup_file_db.
Qed.

(** C8.  In a store whose records have distinct paths, after a sweep at
    clock reading [now] a second sweep, at a reading [now'] by which no
    further record has expired, finds nothing expired: it reports so,
    calls nothing on the storage, and leaves the store and the storage
    as the first sweep left them. *)
Theorem runCleanup_twice cfg now now' d w :
  paths_unique (Files (data d)) ->
  (forall id meta,
     Files (data d) !! id = Some meta -> ExpiresAt meta < now' -> ExpiresAt meta < now) ->
  let swept := runCleanup cfg now d w in
  fst (GetExpiredFiles now' (fst (fst swept))) = [] /\
  runCleanup cfg now' (fst (fst swept)) (snd (fst swept))
  = (fst (fst swept), snd (fst swept), [LogStart; LogNoExpired]).
Proof.
  intros Hu Hquiet swept.
  assert (Hnone : fst (GetExpiredFiles now' (fst (fst swept))) = []).
  { destruct (fst (GetExpiredFiles now' (fst (fst swept)))) as [|m rest] eqn:Hexp;
      [done|].
    assert (Hin : m ∈ fst (GetExpiredFiles now' (fst (fst swept))))
      by (rewrite Hexp; apply elem_of_cons; by left).
    apply expired_elem in Hin as (id & Hl & Hlt).
    apply runCleanup_files in Hl as [Hl Hn]; [|done].
    destruct Hn. by apply (Hquiet id). }
  split; [done|].
  unfold runCleanup at 1.
  destruct (GetExpiredFiles now' (fst (fst swept))) as [expired err] eqn:Hget.
  assert (err = nil) as -> by (by inversion Hget).
  simpl in Hnone. by subst expired.
Qed.

End Sweep.

Lemma two_records_unique : paths_unique (Files (data two_records)).
Proof. apply (bool_decide_unpack _). vm_compute. exact I. Qed.

Lemma runCleanup_forgets_every_expired_witness :
  paths_unique (Files (data two_records)) /\
  let swept := @runCleanup unit refusing listed_order images 150 two_records tt in
  Files (data (fst (fst swept))) !! 1 = None /\
  Files (data (fst (fst swept))) !! 2
  = Some (set_ID 2 (sample "20260131/b.jpg" 200)).
Proof.
  split; [exact two_records_unique|].
  destruct (@runCleanup_forgets_every_expired unit refusing listed_order
              images 150 two_records tt two_records_unique) as (Hgone & Hkept & _).
  split.
  - apply (Hgone 1 (set_ID 1 (sample "20260131/a.jpg" 100))); [reflexivity|].
    vm_compute. reflexivity.
  - apply (Hkept 2 (set_ID 2 (sample "20260131/b.jpg" 200))); [reflexivity|].
    vm_compute. discriminate.
Defined.

Lemma runCleanup_twice_witness :
  paths_unique (Files (data two_records)) /\
  let swept := @runCleanup unit vanished listed_order images 150 two_records tt in
  @runCleanup unit vanished listed_order images 150 (fst (fst swept)) (snd (fst swept))
  = (fst (fst swept), snd (fst swept), [LogStart; LogNoExpired]).
Proof.
  split; [exact two_records_unique|].
  apply (@runCleanup_twice unit vanished listed_order images 150 150 two_records tt
           two_records_unique).
  intros id meta _ Hlt. exact Hlt.
Defined.

(** *** Sweeps in flight *)

Lemma count_cons o x l :
  count o (x :: l) = ((if decide (x = o) then 1 else 0) + count o l)%nat.
Proof.
  unfold count. simpl. unfold bool_decide. by destruct (decide_rel eq x o).
Qed.

Lemma count_remove_other o o' l :
  o <> o' -> count o (remove_one o' l) = count o l.
Proof.
  intros Hne. induction l as [|x l IH]; simpl; [done|].
  destruct (decide (x = o')) as [->|Hx].
  - rewrite count_cons. by rewrite decide_False by done.
  - by rewrite !count_cons, IH.
Qed.

Lemma count_remove_same o l :
  count o (remove_one o l) = pred (count o l).
Proof.
  induction l as [|x l IH]; simpl; [done|].
  destruct (decide (x = o)) as [->|Hx].
  - rewrite count_cons. by rewrite decide_True by done.
  - rewrite !count_cons, IH. rewrite decide_False by done. done.
Qed.

Lemma count_all l :
  length l = (count Initial l + count Timer l + count Manual l)%nat.
Proof.
  induction l as [|x l IH]; [done|].
  rewrite !count_cons. simpl. rewrite IH. destruct x; simpl; lia.
Qed.

Lemma orderly_Start : orderly Start.
Proof. unfold orderly, Start, count. simpl. lia. Qed.

Lemma orderly_step m e m' : orderly m -> step m e = Some m' -> orderly m'.
Proof.
  unfold orderly. intros (Ht & Hi & Hb) Hstep.
  destruct e; simpl in Hstep.
  - destruct (loop_exited m); [done|]. inversion Hstep; subst; simpl.
    split; [done|]. split; [done|].
    destruct (Nat.ltb_spec (ticks_buffered m) 1); lia.
  - destruct (loop_exited m); [done|]. simpl in Hstep.
    destruct (loop_sweeping m) eqn:Hs; [done|].
    destruct (ticks_buffered m) as [|k] eqn:Hk; [done|].
    inversion Hstep; subst; simpl. rewrite !count_cons. simpl.
    split; [lia|]. split; lia.
  - destruct (loop_sweeping m) eqn:Hs; [|done].
    inversion Hstep; subst; simpl.
    rewrite count_remove_same, count_remove_other by done.
    split; [lia|]. split; lia.
  - case_bool_decide; [|done]. inversion Hstep; subst; simpl.
    rewrite count_remove_same, count_remove_other by done.
    split; [done|]. split; lia.
  - inversion Hstep; subst; simpl. rewrite !count_cons. simpl.
    split; [done|]. split; lia.
  - case_bool_decide; [|done]. inversion Hstep; subst; simpl.
    rewrite !count_remove_other by done.
    split; [done|]. split; lia.
  - destruct (stop_closed m); [done|]. by inversion Hstep; subst; simpl.
  - destruct (loop_exited m); [done|]. simpl in Hstep.
    destruct (loop_sweeping m) eqn:Hs; [done|]. simpl in Hstep.
    destruct (stop_closed m); [|done]. simpl in Hstep.
    inversion Hstep; subst; simpl. split; [done|]. split; lia.
Qed.

Lemma orderly_run trace : forall m m',
  orderly m -> run m trace = Some m' -> orderly m'.
Proof.
  induction trace as [|e trace IH]; simpl; intros m m' Hm Hrun.
  - by inversion Hrun; subst.
  - destruct (step m e) as [m1|] eqn:Hstep; [|done].
    eapply IH; [|done]. by eapply orderly_step.
Qed.

Lemma loop_alive_step m e m' :
  (loop_sweeping m = true -> loop_exited m = false) ->
  step m e = Some m' ->
  loop_sweeping m' = true -> loop_exited m' = false.
Proof.
  intros Hm Hstep. destruct e; simpl in Hstep.
  - destruct (loop_exited m); [done|]. by inversion Hstep; subst.
  - destruct (loop_exited m); [done|]. simpl in Hstep.
    destruct (loop_sweeping m); [done|].
    destruct (ticks_buffered m); [done|]. by inversion Hstep; subst.
  - destruct (loop_sweeping m); [|done]. by inversion Hstep; subst.
  - case_bool_decide; [|done]. by inversion Hstep; subst.
  - by inversion Hstep; subst.
  - case_bool_decide; [|done]. by inversion Hstep; subst.
  - destruct (stop_closed m); [done|]. by inversion Hstep; subst.
  - destruct (loop_exited m); [done|]. simpl in Hstep.
    destruct (loop_sweeping m); [done|]. simpl in Hstep.
    destruct (stop_closed m); [|done]. by inversion Hstep; subst.
Qed.

Lemma loop_alive_run trace : forall m m',
  (loop_sweeping m = true -> loop_exited m = false) ->
  run m trace = Some m' ->
  loop_sweeping m' = true -> loop_exited m' = false.
Proof.
  induction trace as [|e trace IH]; simpl; intros m m' Hm Hrun.
  - by inversion Hrun; subst.
  - destruct (step m e) as [m1|] eqn:Hstep; [|done].
    eapply IH; [|done]. by eapply loop_alive_step.
Qed.

(** C7, as the code has it.  At any point after [Start]: at most one
    sweep of the timer loop is in flight, and at most one start-up sweep;
    at most one tick is waiting in the ticker's channel; so the sweeps in
    flight are at most two more than the [RunOnce] calls in progress.
    [RunOnce] is never held back: it can be called in every state, and
    adds a sweep to those in flight.  A tick that fires while the loop
    is in a sweep starts no sweep: it is held in the channel when the
    channel is empty and dropped when a tick is held already.  The
    sweep of the loop can return in every state in which it runs, and
    leaves the loop at its [select] with the ticks that were held.  At
    its [select] with a tick held, whatever else is in flight, the loop
    can take the tick, which starts a sweep and empties the channel;
    when [Stop] has not been called it can do nothing else, and when
    [Stop] has been called it can instead take the stop signal: then it
    ends with the tick still held, and takes no tick afterwards. *)
Theorem timer_sweeps_do_not_overlap trace m :
  run Start trace = Some m ->
  (count Timer (running m) <= 1)%nat /\
  (count Initial (running m) <= 1)%nat /\
  (ticks_buffered m <= 1)%nat /\
  (in_flight m <= 2 + count Manual (running m))%nat /\
  (exists m', step m RunOnceCalled = Some m' /\ in_flight m' = S (in_flight m)) /\
  (loop_sweeping m = true ->
   exists m', step m TickFires = Some m' /\
              running m' = running m /\ loop_sweeping m' = true /\
              ticks_buffered m' = 1%nat) /\
  (loop_sweeping m = true ->
   exists m', step m LoopSweepReturns = Some m' /\
              loop_sweeping m' = false /\ loop_exited m' = false /\
              count Timer (running m') = 0%nat /\
              ticks_buffered m' = ticks_buffered m /\
              stop_closed m' = stop_closed m) /\
  (loop_sweeping m = false -> loop_exited m = false -> ticks_buffered m = 1%nat ->
   (exists m', step m LoopTakesTick = Some m' /\
               running m' = Timer :: running m /\ loop_sweeping m' = true /\
               ticks_buffered m' = 0%nat) /\
   (stop_closed m = false ->
    forall e m', step m e = Some m' -> loop_sweeping m' <> loop_sweeping m \/
                                        loop_exited m' <> loop_exited m ->
                 e = LoopTakesTick) /\
   (stop_closed m = true ->
    exists m', step m LoopTakesStop = Some m' /\
               loop_exited m' = true /\ running m' = running m /\
               ticks_buffered m' = 1%nat /\
               step m' LoopTakesTick = None)).
Proof.
  intros Hrun.
  destruct (orderly_run trace Start m orderly_Start Hrun) as (Ht & Hi & Hb).
  pose proof (loop_alive_run trace Start m ltac:(done) Hrun) as Halive.
  assert (Htimer : (count Timer (running m) <= 1)%nat)
    by (rewrite Ht; destruct (loop_sweeping m); lia).
  split; [done|]. split; [done|]. split; [done|].
  split; [unfold in_flight; rewrite count_all; lia|].
  split; [eexists; split; reflexivity|].
  split; [|split].
  - intros Hs. simpl. rewrite (Halive Hs). eexists. split; [done|]. simpl.
    split; [done|]. split; [done|].
    destruct (Nat.ltb_spec (ticks_buffered m) 1); lia.
  - intros Hs. simpl. rewrite Hs. eexists. split; [done|]. simpl.
    split; [done|]. split; [by apply Halive|].
    rewrite count_remove_same, Ht, Hs. done.
  - intros Hs He Hb1. split; [|split].
    + simpl. rewrite He, Hs, Hb1. simpl. by eexists.
    + intros Hstop e m' Hstep Hchange.
      destruct e; simpl in Hstep; try done.
      * rewrite He in Hstep. inversion Hstep; subst; simpl in *. by destruct Hchange as [[]|[]].
      * rewrite Hs in Hstep. done.
      * case_bool_decide; [|done]. inversion Hstep; subst; simpl in *. by destruct Hchange as [[]|[]].
      * inversion Hstep; subst; simpl in *. by destruct Hchange as [[]|[]].
      * case_bool_decide; [|done]. inversion Hstep; subst; simpl in *. by destruct Hchange as [[]|[]].
      * rewrite Hstop in Hstep. inversion Hstep; subst; simpl in *. by destruct Hchange as [[]|[]].
      * rewrite He, Hs, Hstop in Hstep. done.
    + intros Hstop. simpl. rewrite He, Hs, Hstop. simpl.
      eexists. split; [done|]. simpl. by rewrite Hb1.
Qed.

Lemma timer_sweeps_do_not_overlap_witness :
  run Start [InitialReturns; TickFires; LoopTakesTick; TickFires; TickFires]
  = Some {| running := [Timer]; loop_sweeping := true; loop_exited := false;
            ticks_buffered := 1; stop_closed := false |} /\
  (count Timer [Timer] <= 1)%nat.
Proof.
  assert (Hrun :
    run Start [InitialReturns; TickFires; LoopTakesTick; TickFires; TickFires]
    = Some {| running := [Timer]; loop_sweeping := true; loop_exited := false;
              ticks_buffered := 1; stop_closed := false |}) by reflexivity.
  split; [exact Hrun|].
  exact (proj1 (timer_sweeps_do_not_overlap _ _ Hrun)).
Defined.

(** C7, as it is written, fails.  The start-up sweep of [Start] and the
    first sweep of the timer loop can run together; with the timer loop
    in a sweep, a call of [RunOnce] starts another one.  And a tick that
    fires while the loop is in a sweep is not suppressed: it waits in
    the channel, and the loop, back at its [select], can take it and
    start the next sweep. *)
Lemma sweeps_overlap :
  (exists m,
     run Start [TickFires; LoopTakesTick] = Some m /\
     running m = [Timer; Initial] /\ in_flight m = 2%nat) /\
  (exists m,
     run Start [InitialReturns; TickFires; LoopTakesTick; RunOnceCalled] = Some m /\
     running m = [Manual; Timer] /\ in_flight m = 2%nat) /\
  (exists m,
     run Start [InitialReturns; TickFires; LoopTakesTick; TickFires;
                LoopSweepReturns; LoopTakesTick] = Some m /\
     running m = [Timer]) /\
  ~ (forall trace m, run Start trace = Some m -> (in_flight m <= 1)%nat).
Proof.
  split; [eexists; by repeat split|].
  split; [eexists; by repeat split|].
  split; [eexists; by repeat split|].
  intros Hclaim.
  pose proof (Hclaim [TickFires; LoopTakesTick] _ eq_refl) as Hle.
  vm_compute in Hle. lia.
Qed.

(** A sweep at time [150] over two records, the first of which has
    expired: when the deletion of the file is refused, and when the file
    has already gone. *)
Example sweep_when_deletion_fails :
  snd (@runCleanup unit refusing listed_order images 150 two_records tt)
  = [LogStart; LogDeleteError "20260131/a.jpg";
     LogDeleted "20260131/a.jpg" "photo.jpg" 10;
     LogDirNote "20260131"; LogComplete 0 0].
Proof. vm_compute. reflexivity. Qed.

Example sweep_when_file_missing :
  snd (@runCleanup unit vanished listed_order images 150 two_records tt)
  = [LogStart; LogDeleted "20260131/a.jpg" "photo.jpg" 10;
     LogDirNote "20260131"; LogComplete 0 0].
Proof. vm_compute. reflexivity. Qed.

Example storage_path : GetStoragePath "./Images" "20260131/a.jpg" = "Images/20260131/a.jpg"%string.
Proof. vm_compute. reflexivity. Qed.

End CleanupFacts.

(** ** The naming engine *)

Module NamingFacts.
Import GoString Filepath Naming Form.

(** *** Strings *)

Lemma app_nil s : "" +:+ s = s.
Proof. reflexivity. Qed.

Lemma app_cons c s t : String c s +:+ t = String c (s +:+ t).
Proof. reflexivity. Qed.

Lemma app_length s t :
  String.length (s +:+ t) = (String.length s + String.length t)%nat.
Proof.
  induction s as [|c s IH]; [done|].
  rewrite app_cons. simpl. by rewrite IH.
Qed.

Lemma app_assoc s t u : (s +:+ t) +:+ u = s +:+ (t +:+ u).
Proof.
  induction s as [|c s IH]; [done|].
  by rewrite !app_cons, IH.
Qed.

Lemma all_chars_app p s t :
  all_chars p (s +:+ t) = all_chars p s && all_chars p t.
Proof.
  induction s as [|c s IH]; [done|].
  rewrite app_cons. simpl. rewrite IH. by destruct (p c).
Qed.

Lemma all_chars_impl (p q : ascii -> bool) s :
  (forall c, p c = true -> q c = true) ->
  all_chars p s = true -> all_chars q s = true.
Proof.
  intros Hpq. induction s as [|c s IH]; simpl; [done|].
  intros [Hc Hs]%andb_true_iff. by rewrite (Hpq c Hc), IH.
Qed.

Lemma repeat_char_length n c : String.length (repeat_char n c) = n.
Proof. induction n; simpl; congruence. Qed.

Lemma all_chars_repeat p n c : p c = true -> all_chars p (repeat_char n c) = true.
Proof. intros Hc. induction n; simpl; [done|]. by rewrite Hc. Qed.

Lemma map_chars_length f s : String.length (map_chars f s) = String.length s.
Proof. induction s; simpl; congruence. Qed.

Lemma code_ascii_of_N n : (n < 256)%N -> code (ascii_of_N n) = n.
Proof. intros Hn. unfold code. by apply N_ascii_embedding. Qed.

Lemma code_lt c : (code c < 256)%N.
Proof. apply N_ascii_bounded. Qed.

(** *** Numbers as text *)

Lemma digit_char_decimal d : (d < 10)%N -> is_digit (digit_char d) = true.
Proof.
  intros Hd. unfold digit_char, is_digit, between.
  destruct (N.ltb_spec d 10); [|lia].
  rewrite code_ascii_of_N by lia.
  apply andb_true_iff. split; apply N.leb_le; lia.
Qed.

Lemma digit_char_hex d : (d < 16)%N -> is_lower_hex (digit_char d) = true.
Proof.
  intros Hd. unfold is_lower_hex.
  destruct (N.ltb_spec d 10) as [Hlt|Hge].
  - by rewrite digit_char_decimal.
  - apply orb_true_iff. right. unfold digit_char, between.
    destruct (N.ltb_spec d 10); [lia|].
    rewrite code_ascii_of_N by lia.
    apply andb_true_iff. split; apply N.leb_le; lia.
Qed.

Lemma pad_zero_shape (p : ascii -> bool) width s :
  p "0"%char = true ->
  (String.length s <= width)%nat -> all_chars p s = true ->
  String.length (pad_zero width s) = width /\ all_chars p (pad_zero width s) = true.
Proof.
  intros H0 Hlen Hall. unfold pad_zero.
  rewrite app_length, repeat_char_length, all_chars_app, all_chars_repeat, Hall by done.
  split; [lia|done].
Qed.

Section Digits.
Variable p : ascii -> bool.
Variable base : N.
Hypothesis base_pos : (1 < base)%N.
Hypothesis digit_ok : forall d, (d < base)%N -> p (digit_char d) = true.

Lemma format_uint_aux_shape fuel : forall n acc (k : nat),
  (1 <= k)%nat -> (n < base ^ N.of_nat k)%N ->
  all_chars p acc = true ->
  (String.length (format_uint_aux fuel base n acc) <= String.length acc + k)%nat /\
  all_chars p (format_uint_aux fuel base n acc) = true.
Proof.
  induction fuel as [|fuel IH]; intros n acc k Hk Hn Hacc; simpl.
  - split; [lia|done].
  - assert (Hd : p (digit_char (n mod base)) = true).
    { apply digit_ok. apply N.mod_lt. lia. }
    destruct (N.eqb_spec (n / base) 0) as [Hz|Hnz]; simpl.
    + rewrite Hd, Hacc. split; [lia|done].
    + destruct k as [|[|k]]; [lia| |].
      * exfalso. apply Hnz. apply N.div_small. simpl in Hn. lia.
      * destruct (IH (n / base)%N (String (digit_char (n mod base)) acc) (S k))
          as [Hlen Hall].
        -- lia.
        -- apply N.Div0.div_lt_upper_bound.
           replace (N.of_nat (S (S k))) with (N.succ (N.of_nat (S k))) in Hn by lia.
           by rewrite N.pow_succ_r' in Hn.
        -- simpl. by rewrite Hd, Hacc.
        -- simpl in Hlen. split; [lia|done].
Qed.

Lemma format_uint_shape n (k : nat) :
  (1 <= k)%nat -> (n < base ^ N.of_nat k)%N ->
  (String.length (format_uint base n) <= k)%nat /\
  all_chars p (format_uint base n) = true.
Proof.
  intros Hk Hn. unfold format_uint.
  by apply (format_uint_aux_shape _ n EmptyString k).
Qed.

Lemma fmt_int_shape (width : nat) x :
  p "0"%char = true ->
  (1 <= width)%nat -> 0 <= x < Z.of_N (base ^ N.of_nat width) ->
  String.length (fmt_int base width x) = width /\
  all_chars p (fmt_int base width x) = true.
Proof.
  intros H0 Hw Hx. unfold fmt_int.
  destruct (Z.ltb_spec x 0); [lia|].
  destruct (format_uint_shape (Z.abs_N x) width) as [Hlen Hall]; [done|lia|].
  by apply pad_zero_shape.
Qed.
End Digits.

Lemma appendInt_digits x (width : nat) :
  (1 <= width)%nat -> 0 <= x < 10 ^ Z.of_nat width ->
  digits width (appendInt x width).
Proof.
  intros Hw Hx. unfold appendInt, digits.
  destruct (Z.ltb_spec x 0); [lia|]. rewrite app_nil.
  destruct (format_uint_shape is_digit 10 ltac:(lia) digit_char_decimal
              (Z.abs_N x) width) as [Hlen Hall]; [done| |].
  - apply N2Z.inj_lt. rewrite N2Z.inj_pow, N2Z.inj_abs_N, nat_N_Z. simpl. lia.
  - by apply pad_zero_shape.
Qed.

Lemma hex_bytes_shape b :
  String.length (hex_bytes b) = (2 * String.length b)%nat /\
  all_chars is_lower_hex (hex_bytes b) = true.
Proof.
  induction b as [|c b [IHlen IHall]]; [done|].
  simpl. rewrite ?app_cons, ?app_nil. simpl.
  rewrite IHlen, IHall.
  pose proof (code_lt c).
  rewrite !digit_char_hex.
  - split; [lia|done].
  - apply N.mod_lt. lia.
  - apply N.Div0.div_lt_upper_bound. lia.
Qed.

Lemma digits_app a b s t :
  digits a s -> digits b t -> digits (a + b) (s +:+ t).
Proof.
  intros [Hls Has] [Hlt Hat]. unfold digits.
  rewrite app_length, all_chars_app, Has, Hat. split; [lia|done].
Qed.

Lemma digit_not_slash c : is_digit c = true -> not_slash c = true.
Proof.
  unfold is_digit, between, not_slash.
  intros [Hlo _]%andb_true_iff. apply N.leb_le in Hlo.
  apply negb_true_iff, N.eqb_neq. lia.
Qed.

Lemma hex_not_slash c : is_lower_hex c = true -> not_slash c = true.
Proof.
  unfold is_lower_hex. intros [Hd|Hh]%orb_true_iff; [by apply digit_not_slash|].
  unfold between, not_slash in *.
  apply andb_true_iff in Hh as [Hlo _]. apply N.leb_le in Hlo.
  apply negb_true_iff, N.eqb_neq. lia.
Qed.

Lemma digit_not_dot c : is_digit c = true -> Ascii.eqb c "." = false.
Proof.
  intros Hd. destruct (Ascii.eqb_spec c "."); [|done].
  subst c. vm_compute in Hd. discriminate.
Qed.

(** *** Extensions *)

Lemma separator_not_slash c : IsPathSeparator c = negb (not_slash c).
Proof. unfold IsPathSeparator, not_slash. by rewrite negb_involutive. Qed.

Lemma Ext_loop_shape back : forall tail,
  all_chars not_slash tail = true ->
  Ext_loop back tail = ""%string \/
  exists rest, Ext_loop back tail = String "." rest /\ all_chars not_slash rest = true.
Proof.
  induction back as [|c back IH]; intros tail Htail; simpl; [by left|].
  rewrite separator_not_slash.
  destruct (not_slash c) eqn:Hc; simpl; [|by left].
  destruct (N.eqb_spec (code c) 46) as [Hdot|Hother].
  - right. exists tail. split; [|done]. f_equal.
    rewrite <- (ascii_N_embedding c). unfold code in Hdot. by rewrite Hdot.
  - apply IH. simpl. by rewrite Hc.
Qed.

Lemma Ext_shape path :
  Ext path = ""%string \/
  exists rest, Ext path = String "." rest /\ all_chars not_slash rest = true.
Proof. by apply Ext_loop_shape. Qed.

Lemma lower_char_not_slash c : not_slash c = true -> not_slash (lower_char c) = true.
Proof.
  intros Hc. unfold lower_char. destruct (is_upper c) eqn:Hu; [|done].
  unfold is_upper, between in Hu. apply andb_true_iff in Hu as [Hlo Hhi].
  apply N.leb_le in Hlo, Hhi.
  unfold not_slash. rewrite code_ascii_of_N by lia.
  apply negb_true_iff, N.eqb_neq. lia.
Qed.

Lemma map_lower_not_slash s :
  all_chars not_slash s = true -> all_chars not_slash (map_chars lower_char s) = true.
Proof.
  induction s as [|c s IH]; simpl; [done|].
  intros [Hc Hs]%andb_true_iff. by rewrite lower_char_not_slash, IH.
Qed.

Lemma map_lower_no_upper s :
  hasUpper s = false -> map_chars lower_char s = s.
Proof.
  unfold hasUpper. rewrite negb_false_iff.
  induction s as [|c s IH]; simpl; [done|].
  intros [Hc Hs]%andb_true_iff. rewrite IH by done.
  unfold lower_char. apply negb_true_iff in Hc. by rewrite Hc.
Qed.

Section Lower.
Context `{UnicodeLower}.

Lemma ToLower_ascii s : isASCII s = true -> ToLower s = map_chars lower_char s.
Proof.
  intros Ha. unfold ToLower. rewrite Ha.
  destruct (hasUpper s) eqn:Hu; [done|]. by rewrite map_lower_no_upper.
Qed.

Lemma ToLower_not_slash s :
  all_chars not_slash s = true -> all_chars not_slash (ToLower s) = true.
Proof.
  intros Hs. unfold ToLower.
  destruct (isASCII s); [|by apply map_ToLower_slash].
  destruct (hasUpper s); [by apply map_lower_not_slash|done].
Qed.

Lemma ToLower_dot rest :
  exists rest', ToLower (String "." rest) = String "." rest'.
Proof.
  unfold ToLower.
  destruct (isASCII _); [|rewrite map_ToLower_dot; by eexists].
  destruct (hasUpper _); by eexists.
Qed.

Lemma ToLower_no_upper s : hasUpper (ToLower s) = false.
Proof.
  unfold ToLower. destruct (isASCII s); [|apply map_ToLower_upper].
  destruct (hasUpper s) eqn:Hu; [|done].
  apply (@map_ToLower_upper ascii_names).
Qed.

Lemma map_chars_app f a b :
  map_chars f (a +:+ b) = map_chars f a +:+ map_chars f b.
Proof. induction a as [|c a IH]; [done|]. rewrite !app_cons. simpl. by rewrite IH, app_cons. Qed.

Lemma map_ToLower_prefix a rest :
  isASCII a = true ->
  map_ToLower (a +:+ rest) = map_chars lower_char a +:+ map_ToLower rest.
Proof.
  induction a as [|c a IH]; [by rewrite !app_nil|].
  simpl. intros [Hc Ha]%andb_true_iff.
  rewrite !app_cons, map_ToLower_ascii by done. by rewrite IH.
Qed.

(** The bytes of ASCII with which a string begins are lowered where they
    stand, whatever follows them. *)
Lemma ToLower_prefix a rest :
  isASCII a = true ->
  exists rest', ToLower (a +:+ rest) = map_chars lower_char a +:+ rest'.
Proof.
  intros Ha. unfold ToLower.
  destruct (isASCII (a +:+ rest)).
  - exists (map_chars lower_char rest).
    rewrite <- map_chars_app.
    destruct (hasUpper (a +:+ rest)) eqn:Hu; [done|].
    by rewrite map_lower_no_upper.
  - exists (map_ToLower rest). by apply map_ToLower_prefix.
Qed.

Lemma extension_prefix originalName a rest :
  isASCII a = true -> Ext originalName = a +:+ rest ->
  exists rest', extension originalName = map_chars lower_char a +:+ rest'.
Proof.
  intros Ha Hext. unfold extension. rewrite Hext.
  destruct (ToLower_prefix a rest Ha) as [rest' Hlow]. rewrite Hlow.
  destruct (String.eqb_spec (map_chars lower_char a +:+ rest') "") as [He|_];
    [|by exists rest'].
  exists ".bin"%string. destruct a as [|c a]; [done|].
  cbn [map_chars] in He. by rewrite app_cons in He.
Qed.

Lemma extension_no_upper originalName : hasUpper (extension originalName) = false.
Proof.
  unfold extension. destruct (String.eqb (ToLower (Ext originalName)) "");
    [done|apply ToLower_no_upper].
Qed.

(** The extension given to the stored file: [.bin] when [Ext] finds
    none, the lowered [Ext] otherwise; in both cases a dot and no
    separator after it. *)
Lemma extension_spec originalName :
  (Ext originalName = ""%string -> extension originalName = ".bin"%string) /\
  (Ext originalName <> ""%string ->
   extension originalName = ToLower (Ext originalName)) /\
  (isASCII (Ext originalName) = true -> Ext originalName <> ""%string ->
   extension originalName = map_chars lower_char (Ext originalName)) /\
  exists rest,
    extension originalName = String "." rest /\ all_chars not_slash rest = true.
Proof.
  unfold extension.
  destruct (Ext_shape originalName) as [Hnone|(rest & Hext & Hrest)].
  - rewrite Hnone. change (ToLower "") with ""%string. simpl.
    repeat split; try done. by exists "bin"%string.
  - rewrite Hext.
    destruct (ToLower_dot rest) as [rest' Hlow].
    pose proof (ToLower_not_slash (String "." rest)) as Hns.
    rewrite Hlow in *. simpl in Hns. simpl.
    split; [done|]. split; [done|]. split.
    + intros Ha _. rewrite <- Hlow. by apply ToLower_ascii.
    + exists rest'. split; [done|]. by apply Hns.
Qed.
End Lower.

(** *** Joining the date directory and the file name *)

Lemma split_sep_element d rest :
  all_chars not_slash d = true ->
  split_sep (d +:+ String "/" rest) = d :: split_sep rest.
Proof.
  induction d as [|c d IH]; intros Hd.
  - by rewrite app_nil.
  - simpl in Hd. apply andb_true_iff in Hd as [Hc Hd].
    rewrite app_cons. simpl. rewrite separator_not_slash, Hc. simpl.
    by rewrite IH.
Qed.

Lemma split_sep_last f :
  all_chars not_slash f = true -> split_sep f = [f].
Proof.
  induction f as [|c f IH]; simpl; [done|].
  intros [Hc Hf]%andb_true_iff.
  rewrite separator_not_slash, Hc. simpl. by rewrite IH.
Qed.

Lemma element_step rooted out s :
  element s -> clean_step rooted out s = s :: out.
Proof.
  intros (c & r & -> & Hc & _). unfold clean_step. simpl.
  by rewrite (digit_not_dot c Hc).
Qed.

Lemma Clean_unrooted c rest :
  IsPathSeparator c = false ->
  Clean (String c rest) =
    let body :=
      join_sep (rev (fold_left (clean_step false) (split_sep (String c rest)) [])) in
    if String.eqb body "" then "."%string else body.
Proof. intros Hc. unfold Clean. by rewrite Hc. Qed.

Lemma Join_elements d f :
  element d -> element f -> Join d f = d +:+ String "/" f.
Proof.
  intros Hd Hf. unfold Join.
  pose proof Hd as (c & r & Hdeq & Hc & Hr).
  pose proof Hf as (c' & r' & Hfeq & Hc' & Hr').
  assert (Hdn : all_chars not_slash d = true).
  { subst d. simpl. by rewrite digit_not_slash, Hr. }
  assert (Hfn : all_chars not_slash f = true).
  { subst f. simpl. by rewrite digit_not_slash, Hr'. }
  assert (Hne : String.eqb d "" = false) by (by subst d).
  rewrite Hne. simpl.
  assert (Hpath : d +:+ String Separator f = String c (r +:+ String Separator f))
    by (by rewrite Hdeq, app_cons).
  rewrite Hpath, Clean_unrooted
    by (by rewrite separator_not_slash, digit_not_slash).
  rewrite <- Hpath.
  rewrite split_sep_element, split_sep_last by done.
  simpl. rewrite !element_step by done. simpl.
  by rewrite Hpath.
Qed.

(** *** The generated path *)

Lemma digits_element n s rest :
  digits (S n) s -> all_chars not_slash rest = true -> element (s +:+ rest).
Proof.
  intros [Hlen Hall] Hrest. destruct s as [|c s]; [done|].
  simpl in Hall. apply andb_true_iff in Hall as [Hc Hs].
  exists c, (s +:+ rest). split; [by rewrite app_cons|]. split; [done|].
  rewrite all_chars_app, Hrest, andb_true_r.
  by apply (all_chars_impl is_digit), Hs; apply digit_not_slash.
Qed.

Lemma not_slash_app s t :
  all_chars not_slash s = true -> all_chars not_slash t = true ->
  all_chars not_slash (s +:+ t) = true.
Proof. intros Hs Ht. by rewrite all_chars_app, Hs, Ht. Qed.

Lemma not_slash_cons c t :
  not_slash c = true -> all_chars not_slash t = true ->
  all_chars not_slash (String c t) = true.
Proof. intros Hc Ht. simpl. by rewrite Hc, Ht. Qed.

Lemma digits_is_element n s : digits (S n) s -> element s.
Proof.
  intros [Hlen Hall]. destruct s as [|c s]; [done|].
  simpl in Hall. apply andb_true_iff in Hall as [Hc Hs].
  exists c, s. split; [done|]. split; [done|].
  by apply (all_chars_impl is_digit), Hs; apply digit_not_slash.
Qed.

Lemma Format_date_digits now : valid_clock now -> digits 8 (Format_date now).
Proof.
  intros (Hy & Hm & Hd & _). unfold Format_date.
  apply (digits_app 4 4); [apply appendInt_digits; simpl; lia|].
  apply (digits_app 2 2); apply appendInt_digits; simpl; lia.
Qed.

Lemma time_of_day_digits now :
  valid_clock now ->
  digits 9 ((appendInt (Hour now) 2 +:+ appendInt (Minute now) 2
             +:+ appendInt (Second now) 2)
            +:+ fmt_int 10 3 (Z.quot (Nanosecond now) 1000000)).
Proof.
  intros (_ & _ & _ & Hh & Hm & Hs & Hn & _).
  apply (digits_app 6 3).
  - apply (digits_app 2 4); [apply appendInt_digits; simpl; lia|].
    apply (digits_app 2 2); apply appendInt_digits; simpl; lia.
  - apply (fmt_int_shape is_digit 10 ltac:(lia) digit_char_decimal 3);
      [done|lia|].
    rewrite Z.quot_div_nonneg by lia. split.
    + apply Z.div_pos; lia.
    + apply Z.div_lt_upper_bound; simpl; lia.
Qed.

Lemma random_hex now rnd :
  valid_clock now -> valid_rand rnd ->
  lower_hex 32
    (fmt_x_bytes 32
       match rnd with
       | RandOk b => b
       | RandErr => fmt_int 16 16 (UnixNano now)
       end).
Proof.
  intros (_ & _ & _ & _ & _ & _ & _ & Hu) Hrnd.
  assert (Hlen : String.length
            match rnd with
            | RandOk b => b
            | RandErr => fmt_int 16 16 (UnixNano now)
            end = 16%nat).
  { destruct rnd as [b|]; [done|].
    apply (fmt_int_shape (fun _ => true) 16 ltac:(lia) (fun _ _ => eq_refl) 16);
      [done|lia|].
    split; [lia|]. eapply Z.lt_le_trans; [apply Hu|]. by vm_compute. }
  unfold fmt_x_bytes, lower_hex.
  destruct (hex_bytes_shape
              match rnd with
              | RandOk b => b
              | RandErr => fmt_int 16 16 (UnixNano now)
              end) as [Hl Ha].
  apply pad_zero_shape; [done|lia|done].
Qed.

(** *** What the digits write *)

Lemma digit_value_char d : (d < 16)%N -> digit_value (digit_char d) = d.
Proof.
  intros Hd. unfold digit_value, digit_char, is_digit, between.
  destruct (N.ltb_spec d 10).
  - rewrite code_ascii_of_N by lia.
    destruct (N.leb_spec 48 (48 + d)); [|lia].
    destruct (N.leb_spec (48 + d) 57); [|lia]. simpl. lia.
  - rewrite code_ascii_of_N by lia.
    destruct (N.leb_spec 48 (87 + d)); [|lia].
    destruct (N.leb_spec (87 + d) 57); [lia|]. simpl. lia.
Qed.

Section Value.
Variable base : N.
Hypothesis base_lo : (1 < base)%N.
Hypothesis base_hi : (base <= 16)%N.

Lemma value_format_aux fuel : forall n acc,
  (n < base ^ N.of_nat fuel)%N ->
  value base (format_uint_aux fuel base n acc)
  = (n * base ^ N.of_nat (String.length acc) + value base acc)%N.
Proof.
  induction fuel as [|fuel IH]; intros n acc Hn.
  - simpl in *. assert (n = 0%N) as -> by lia. lia.
  - cbn [format_uint_aux].
    assert (Hmod : (n mod base < base)%N) by (apply N.mod_lt; lia).
    assert (Hd : digit_value (digit_char (n mod base)) = (n mod base)%N)
      by (apply digit_value_char; lia).
    pose proof (N.div_mod n base ltac:(lia)) as Hdiv.
    set (acc' := String (digit_char (n mod base)) acc).
    assert (Hacc' : value base acc'
              = (n mod base * base ^ N.of_nat (String.length acc) + value base acc)%N)
      by (subst acc'; cbn [value]; by rewrite Hd).
    destruct (N.eqb_spec (n / base) 0) as [Hz|Hnz].
    + rewrite Hacc'. rewrite Hz in Hdiv. f_equal. f_equal. lia.
    + rewrite IH.
      * rewrite Hacc'. subst acc'. cbn [String.length].
        rewrite Nat2N.inj_succ, N.pow_succ_r'.
        remember (base ^ N.of_nat (String.length acc))%N as X.
        remember (n / base)%N as q. remember (n mod base)%N as r.
        rewrite Hdiv at 1. clear. lia.
      * apply N.Div0.div_lt_upper_bound.
        by rewrite Nat2N.inj_succ, N.pow_succ_r' in Hn.
Qed.

Lemma value_format n : value base (format_uint base n) = n.
Proof.
  unfold format_uint. rewrite value_format_aux; [simpl; lia|].
  destruct (N.eq_dec n 0%N) as [->|Hnz].
  - simpl. lia.
  - eapply N.lt_le_trans; [apply N.log2_spec; lia|].
    rewrite Nat2N.inj_succ, N2Nat.id. apply N.pow_le_mono_l. lia.
Qed.

Lemma value_app a s :
  value base (a +:+ s)
  = (value base a * base ^ N.of_nat (String.length s) + value base s)%N.
Proof.
  induction a as [|c a IH]; [rewrite app_nil; simpl; lia|].
  rewrite app_cons. cbn [value]. rewrite IH, app_length.
  rewrite Nat2N.inj_add, N.pow_add_r. lia.
Qed.

Lemma value_zeros k : value base (repeat_char k "0") = 0%N.
Proof. induction k as [|k IH]; [done|]. simpl. rewrite IH. done. Qed.

Lemma value_pad width s : value base (pad_zero width s) = value base s.
Proof. unfold pad_zero. rewrite value_app, value_zeros. lia. Qed.
End Value.

Lemma written_appendInt x (width : nat) :
  (1 <= width)%nat -> 0 <= x < 10 ^ Z.of_nat width ->
  written width x (appendInt x width).
Proof.
  intros Hw Hx. split; [by apply appendInt_digits|].
  unfold appendInt. destruct (Z.ltb_spec x 0); [lia|]. rewrite app_nil.
  rewrite value_pad, value_format by lia. rewrite N2Z.inj_abs_N. lia.
Qed.

Lemma written_fmt_int x (width : nat) :
  (1 <= width)%nat -> 0 <= x < 10 ^ Z.of_nat width ->
  written width x (fmt_int 10 width x).
Proof.
  intros Hw Hx. split.
  - apply (fmt_int_shape is_digit 10 ltac:(lia) digit_char_decimal width);
      [done|done|].
    split; [lia|]. rewrite N2Z.inj_pow, nat_N_Z. simpl. lia.
  - unfold fmt_int. destruct (Z.ltb_spec x 0); [lia|].
    rewrite value_pad, value_format by lia. rewrite N2Z.inj_abs_N. lia.
Qed.

Lemma unhex_hex_bytes b : unhex (hex_bytes b) = Some b.
Proof.
  induction b as [|c b IH]; [done|].
  cbn [hex_bytes]. unfold hex_byte. rewrite !app_cons, app_nil.
  pose proof (code_lt c) as Hc.
  assert (Hq : (code c / 16 < 16)%N) by (apply N.Div0.div_lt_upper_bound; lia).
  assert (Hr : (code c mod 16 < 16)%N) by (apply N.mod_lt; lia).
  cbn [unhex]. rewrite !digit_char_hex by done. cbn [andb]. rewrite IH.
  rewrite !digit_value_char by done.
  replace (code c / 16 * 16 + code c mod 16)%N with (code c)
    by (pose proof (N.div_mod (code c) 16 ltac:(lia)); lia).
  unfold code. by rewrite ascii_N_embedding.
Qed.

Lemma fmt_x_bytes_full b :
  String.length b = 16%nat -> fmt_x_bytes 32 b = hex_bytes b.
Proof.
  intros Hlen. unfold fmt_x_bytes, pad_zero.
  destruct (hex_bytes_shape b) as [Hl _]. rewrite Hl, Hlen. by rewrite app_nil.
Qed.

Lemma Format_date_written now : valid_clock now -> YYYYMMDD now (Format_date now).
Proof.
  intros (Hy & Hm & Hd & _). unfold Format_date.
  exists (appendInt (Year now) 4), (appendInt (Month now) 2), (appendInt (Day now) 2).
  split; [done|].
  split; [|split]; apply written_appendInt; simpl; lia.
Qed.

Lemma time_of_day_written now :
  valid_clock now ->
  HHMMSSmmm now
    ((appendInt (Hour now) 2 +:+ appendInt (Minute now) 2
      +:+ appendInt (Second now) 2)
     +:+ fmt_int 10 3 (Z.quot (Nanosecond now) 1000000)).
Proof.
  intros (_ & _ & _ & Hh & Hm & Hs & Hn & _).
  exists (appendInt (Hour now) 2), (appendInt (Minute now) 2),
    (appendInt (Second now) 2), (fmt_int 10 3 (Z.quot (Nanosecond now) 1000000)).
  split; [by rewrite !app_assoc|].
  split; [apply written_appendInt; simpl; lia|].
  split; [apply written_appendInt; simpl; lia|].
  split; [apply written_appendInt; simpl; lia|].
  rewrite Z.quot_div_nonneg by lia.
  apply written_fmt_int; [lia|]. split.
  - apply Z.div_pos; lia.
  - apply Z.div_lt_upper_bound; simpl; lia.
Qed.

Lemma random_part_written now rnd :
  valid_clock now -> valid_rand rnd ->
  random_part now rnd
    (fmt_x_bytes 32
       match rnd with
       | RandOk b => b
       | RandErr => fmt_int 16 16 (UnixNano now)
       end).
Proof.
  intros (_ & _ & _ & _ & _ & _ & _ & Hu) Hrnd.
  assert (H63 : 2 ^ 63 < Z.of_N (16 ^ N.of_nat 16)) by (by vm_compute).
  destruct rnd as [b|]; simpl in *.
  - rewrite fmt_x_bytes_full by done. apply unhex_hex_bytes.
  - destruct (fmt_int_shape is_lower_hex 16 ltac:(lia) digit_char_hex 16
                (UnixNano now)) as [Hlen Hall]; [done|lia|lia|].
    exists (fmt_int 16 16 (UnixNano now)).
    split; [rewrite fmt_x_bytes_full by done; apply unhex_hex_bytes|].
    split; [done|].
    unfold fmt_int. destruct (Z.ltb_spec (UnixNano now) 0); [lia|].
    rewrite value_pad, value_format by lia. rewrite N2Z.inj_abs_N. lia.
Qed.
Section Path.
Context `{UnicodeLower}.

(** C5.  Given clock readings of a four-digit year and a random source
    that fills its sixteen bytes or fails, the path made for an upload
    (on the Linux build, where the separator is [/]) is
    an eight-digit date, [/], an eight-digit date, [-], nine digits (time
    of day, to the millisecond), [-], thirty-two lower-case hexadecimal
    digits, and the extension.  The first date writes the year, month
    and day of the clock reading of [GenerateDateDir], the second date
    and the time of day write the year, month, day, hour, minute, second
    and millisecond of the clock reading of [GenerateFileName], and the
    hexadecimal digits encode the sixteen random bytes (when the random
    source fails: the sixteen characters that write that reading's
    nanoseconds since the epoch in hexadecimal).  The extension is
    [.bin] when [Ext] finds none in the original name, and otherwise
    what [ToLower] makes of it: for an extension in ASCII, its
    upper-case letters lowered; in every case the bytes of ASCII up to
    the first byte that is not are lowered where they stand, no capital
    letter of ASCII is left anywhere, and the extension starts with a
    dot and holds no separator. *)
Theorem GenerateFilePath_form now1 now2 rnd originalName :
  valid_clock now1 -> valid_clock now2 -> valid_rand rnd ->
  exists dir day tod hex,
    GenerateFilePath now1 now2 rnd originalName
    = dir +:+ "/" +:+ day +:+ "-" +:+ tod +:+ "-" +:+ hex
      +:+ extension originalName /\
    dir = GenerateDateDir now1 /\
    digits 8 dir /\ digits 8 day /\ digits 9 tod /\ lower_hex 32 hex /\
    YYYYMMDD now1 dir /\ YYYYMMDD now2 day /\ HHMMSSmmm now2 tod /\
    random_part now2 rnd hex /\
    (Ext originalName = ""%string -> extension originalName = ".bin"%string) /\
    (Ext originalName <> ""%string ->
     extension originalName = ToLower (Ext originalName)) /\
    (isASCII (Ext originalName) = true -> Ext originalName <> ""%string ->
     extension originalName = map_chars lower_char (Ext originalName)) /\
    hasUpper (extension originalName) = false /\
    (forall a rest,
       isASCII a = true -> Ext originalName = a +:+ rest ->
       exists rest', extension originalName = map_chars lower_char a +:+ rest') /\
    exists rest,
      extension originalName = String "." rest /\ all_chars not_slash rest = true.
Proof.
  intros Hv1 Hv2 Hrnd.
  pose proof (Format_date_digits now1 Hv1) as Hdir.
  pose proof (Format_date_digits now2 Hv2) as Hday.
  pose proof (time_of_day_digits now2 Hv2) as Htod.
  pose proof (random_hex now2 rnd Hv2 Hrnd) as Hhex.
  destruct (extension_spec originalName) as (Hbin & Hlow & Hascii & rest & Hext & Hrest).
  eexists (Format_date now1), (Format_date now2), _, _.
  split; [|split; [done|]].
  2: { split; [exact Hdir|]. split; [exact Hday|]. split; [exact Htod|].
       split; [exact Hhex|].
       split; [by apply Format_date_written|].
       split; [by apply Format_date_written|].
       split; [by apply time_of_day_written|].
       split; [by apply random_part_written|].
       split; [done|]. split; [done|]. split; [done|].
       split; [apply extension_no_upper|].
       split; [apply extension_prefix|].
       by exists rest. }
  assert (Hname : GenerateFileName now2 rnd originalName
            = Format_date now2 +:+
              ("-" +:+ ((appendInt (Hour now2) 2 +:+ appendInt (Minute now2) 2
                         +:+ appendInt (Second now2) 2)
                        +:+ fmt_int 10 3 (Z.quot (Nanosecond now2) 1000000))
               +:+ "-" +:+ fmt_x_bytes 32
                             match rnd with
                             | RandOk b => b
                             | RandErr => fmt_int 16 16 (UnixNano now2)
                             end
               +:+ extension originalName)).
  { unfold GenerateFileName, Format_timestamp.
    rewrite !app_assoc, ?app_cons, ?app_nil. reflexivity. }
  unfold GenerateFilePath, GenerateDateDir. rewrite Hname.
  rewrite Join_elements.
  - rewrite ?app_cons, ?app_nil. reflexivity.
  - apply (digits_is_element 7), Hdir.
  - apply (digits_element 7); [exact Hday|].
    destruct Htod as [_ Htod]. destruct Hhex as [_ Hhex].
    rewrite ?app_cons, ?app_nil.
    apply not_slash_cons; [done|].
    apply not_slash_app;
      [by apply (all_chars_impl is_digit), Htod; apply digit_not_slash|].
    apply not_slash_cons; [done|].
    apply not_slash_app;
      [by apply (all_chars_impl is_lower_hex), Hhex; apply hex_not_slash|].
    rewrite Hext. by apply not_slash_cons.
Qed.
End Path.

Lemma sample_clock_valid : valid_clock sample_clock.
Proof. unfold valid_clock, sample_clock. simpl. lia. Qed.

Lemma GenerateFilePath_form_witness :
  valid_clock sample_clock /\
  valid_rand (RandOk "0123456789abcdeF") /\
  exists dir day tod hex,
    @GenerateFilePath ascii_names sample_clock sample_clock
      (RandOk "0123456789abcdeF") "Photo.JPG"
    = dir +:+ "/" +:+ day +:+ "-" +:+ tod +:+ "-" +:+ hex +:+ ".jpg" /\
    digits 8 dir /\ digits 8 day /\ digits 9 tod /\ lower_hex 32 hex /\
    YYYYMMDD sample_clock dir /\ YYYYMMDD sample_clock day /\
    HHMMSSmmm sample_clock tod /\ unhex hex = Some "0123456789abcdeF"%string.
Proof.
  assert (Hr : valid_rand (RandOk "0123456789abcdeF")) by reflexivity.
  split; [exact sample_clock_valid|]. split; [exact Hr|].
  destruct (@GenerateFilePath_form ascii_names sample_clock sample_clock
              (RandOk "0123456789abcdeF") "Photo.JPG"
              sample_clock_valid sample_clock_valid Hr)
    as (dir & day & tod & hex & Hpath & _ & Hdir & Hday & Htod & Hhex
        & Hdate1 & Hdate2 & Htime & Hrand & _).
  exists dir, day, tod, hex.
  split; [exact Hpath|]. split; [exact Hdir|]. split; [exact Hday|].
  split; [exact Htod|]. split; [exact Hhex|]. split; [exact Hdate1|].
  split; [exact Hdate2|]. split; [exact Htime|exact Hrand].
Defined.

(** The model on a few names. *)
Example path_of_photo :
  GenerateFilePath sample_clock sample_clock (RandOk "0123456789abcdeF") "Photo.JPG"
  = "20260131/20260131-143022123-30313233343536373839616263646546.jpg"%string.
Proof. vm_compute. reflexivity. Qed.

Example path_without_random_source :
  GenerateFilePath sample_clock sample_clock RandErr "archive.tar.GZ"
  = "20260131/20260131-143022123-31383866643733396465356133393135.gz"%string.
Proof. vm_compute. reflexivity. Qed.

Example path_of_name_without_extension :
  GenerateFilePath sample_clock sample_clock RandErr "v1.2/README"
  = "20260131/20260131-143022123-31383866643733396465356133393135.bin"%string.
Proof. vm_compute. reflexivity. Qed.

Example path_of_name_ending_in_dot :
  GenerateFilePath sample_clock sample_clock RandErr "notes."
  = "20260131/20260131-143022123-31383866643733396465356133393135."%string.
Proof. vm_compute. reflexivity. Qed.

Example clean_samples :
  Clean "a/../../b/./c//d/" = "../b/c/d"%string /\
  Clean "/../a/b/../c" = "/a/c"%string /\
  Clean "" = "."%string /\
  Dir "data/metadata.db" = "data"%string /\
  Dir "metadata.db" = "."%string.
Proof. vm_compute. done. Qed.

End NamingFacts.

(** ** More of the metadata store: configuration, lookups, statistics *)

Module DbMore.
Import GoString Filepath Db Snapshot DbFacts NamingFacts.

(** *** Configuration *)

Lemma SetAll_data writes : forall d,
  Files (data (SetAll writes d)) = Files (data d) /\
  NextID (data (SetAll writes d)) = NextID (data d) /\
  filePath (SetAll writes d) = filePath d /\
  forall key,
    Config (data (SetAll writes d)) !! key =
      match last_write key writes with
      | Some v => Some v
      | None => Config (data d) !! key
      end.
Proof.
  induction writes as [|[k v] rest IH]; intros d; [done|].
  change (SetAll ((k, v) :: rest) d) with (SetAll rest (fst (SetConfig k v d))).
  destruct (IH (fst (SetConfig k v d))) as (Hf & Hn & Hp & Hc).
  split; [by rewrite Hf|]. split; [by rewrite Hn|]. split; [by rewrite Hp|].
  intros key. rewrite Hc. simpl. destruct (last_write key rest); [done|].
  destruct (String.eqb_spec k key) as [->|Hne].
  - by rewrite lookup_insert_eq.
  - by rewrite lookup_insert_ne.
Qed.

(** X1.  After any run of [SetConfig] calls, [GetConfig] of a key gives
    the value of the last call that wrote it, and what it gave before
    the run if none did; no key is lost, and the records, the id counter
    and the path of the store are as they were. *)
Theorem SetAll_last_write_wins (writes : list (string * string)) (d : Database) :
  (forall key,
     GetConfig key (SetAll writes d) =
       match last_write key writes with
       | Some v => v
       | None => GetConfig key d
       end) /\
  (forall key, is_Some (Config (data d) !! key) ->
     is_Some (Config (data (SetAll writes d)) !! key)) /\
  Files (data (SetAll writes d)) = Files (data d) /\
  NextID (data (SetAll writes d)) = NextID (data d) /\
  filePath (SetAll writes d) = filePath d.
Proof.
  destruct (SetAll_data writes d) as (Hf & Hn & Hp & Hc).
  split; [|split; [|done]].
  - intros key. unfold GetConfig. rewrite Hc. by destruct (last_write key writes).
  - intros key Hsome. rewrite Hc. by destruct (last_write key writes).
Qed.

(** *** Numbers in the configuration *)

Lemma digit_char_code d : (d < 10)%N -> code (digit_char d) = (48 + d)%N.
Proof.
  intros Hd. unfold digit_char. destruct (N.ltb_spec d 10); [|lia].
  apply code_ascii_of_N. lia.
Qed.

(** Reading back the digits that [format_uint] put in front of [rest]. *)
Lemma ParseUint_loop_digit a r rest :
  (r < 10)%N -> (a * 10 + r <= maxUint64)%N ->
  ParseUint_loop a (String (digit_char r) rest) = ParseUint_loop (a * 10 + r) rest.
Proof.
  intros Hr Hle. simpl.
  rewrite digit_char_decimal, digit_char_code by done.
  rewrite (N.add_comm 48), N.add_sub.
  unfold maxUint64 in *.
  change ((2 ^ 64 - 1) / 10 + 1)%N with 1844674407370955162%N.
  change (2 ^ 64 - 1)%N with 18446744073709551615%N in *.
  destruct (N.leb_spec 1844674407370955162 a) as [Hcut|_]; [lia|].
  destruct (N.ltb_spec 18446744073709551615 (a * 10 + r)); [lia|done].
Qed.

Lemma format_uint_aux_S fuel base n acc :
  format_uint_aux (S fuel) base n acc =
    if (n / base =? 0)%N then String (digit_char (n mod base)) acc
    else format_uint_aux fuel base (n / base) (String (digit_char (n mod base)) acc).
Proof. reflexivity. Qed.

Lemma ParseUint_loop_format fuel : forall n a rest,
  (n < 2 ^ N.of_nat (S fuel))%N ->
  exists k,
    ((a * 10 ^ k + n <= maxUint64)%N ->
     ParseUint_loop a (format_uint_aux (S fuel) 10 n rest)
     = ParseUint_loop (a * 10 ^ k + n) rest).
Proof.
  assert (Hlast : forall n a rest fuel',
            (n / 10 = 0)%N -> (a * 10 ^ 1 + n <= maxUint64)%N ->
            ParseUint_loop a (format_uint_aux (S fuel') 10 n rest)
            = ParseUint_loop (a * 10 ^ 1 + n) rest).
  { intros n a rest fuel' Hz Hle. rewrite format_uint_aux_S, Hz. simpl N.eqb. cbv iota.
    assert (n < 10)%N as Hlt by (apply N.div_small_iff in Hz; lia).
    rewrite N.mod_small by done. rewrite N.pow_1_r in *.
    by apply ParseUint_loop_digit. }
  induction fuel as [|fuel IH]; intros n a rest Hn.
  - exists 1%N. intros Hle. apply Hlast; [|done].
    change (2 ^ N.of_nat 1)%N with 2%N in Hn. apply N.div_small. lia.
  - destruct (N.eq_dec (n / 10)%N 0%N) as [Hz|Hnz].
    + exists 1%N. intros Hle. by apply Hlast.
    + assert (Hn' : (n / 10 < 2 ^ N.of_nat (S fuel))%N).
      { apply N.Div0.div_lt_upper_bound.
        replace (N.of_nat (S (S fuel))) with (N.succ (N.of_nat (S fuel))) in Hn by lia.
        rewrite N.pow_succ_r' in Hn. lia. }
      destruct (IH (n / 10)%N a (String (digit_char (n mod 10)) rest) Hn') as [k Hk].
      exists (N.succ k). intros Hle.
      rewrite N.pow_succ_r' in Hle.
      pose proof (N.div_mod n 10 ltac:(lia)) as Hdm.
      assert (Hm : (n mod 10 < 10)%N) by (apply N.mod_lt; lia).
      rewrite format_uint_aux_S.
      destruct (N.eqb_spec (n / 10) 0) as [|_]; [done|].
      assert (Hq : (a * 10 ^ k + n / 10 <= maxUint64)%N /\
                   ((a * 10 ^ k + n / 10) * 10 + n mod 10
                    = a * 10 ^ N.succ k + n)%N).
      { rewrite N.pow_succ_r'. revert Hle Hdm Hm.
        generalize (n / 10)%N (n mod 10)%N (10 ^ k)%N maxUint64.
        intros q r p M Hle Hdm Hm. nia. }
      destruct Hq as [Hq1 Hq2].
      rewrite Hk by done.
      rewrite ParseUint_loop_digit by (done || (rewrite Hq2, N.pow_succ_r'; done)).
      by rewrite Hq2.
Qed.

Lemma format_uint_aux_grows fuel : forall base n acc,
  (String.length acc <= String.length (format_uint_aux fuel base n acc))%nat.
Proof.
  induction fuel as [|fuel IH]; intros base n acc; simpl; [lia|].
  destruct (n / base =? 0)%N; simpl; [lia|].
  etrans; [|apply IH]. simpl. lia.
Qed.

Lemma format_uint_nonempty base n : format_uint base n <> EmptyString.
Proof.
  unfold format_uint. simpl. intros Hempty.
  destruct (n / base =? 0)%N; [done|].
  pose proof (format_uint_aux_grows (N.to_nat (N.log2 n)) base (n / base)
                (String (digit_char (n mod base)) EmptyString)) as Hlen.
  rewrite Hempty in Hlen. simpl in Hlen. lia.
Qed.

Lemma ParseUint_format n :
  (n <= maxUint64)%N -> ParseUint (format_uint 10 n) = (n, num_ok).
Proof.
  intros Hn.
  pose proof (format_uint_nonempty 10 n) as Hne.
  unfold ParseUint. destruct (format_uint 10 n) eqn:Hfmt; [done|].
  rewrite <- Hfmt. unfold format_uint.
  assert (Hlt : (n < 2 ^ N.of_nat (S (N.to_nat (N.log2 n))))%N).
  { rewrite Nat2N.inj_succ, N2Nat.id.
    destruct (N.eq_dec n 0%N) as [->|Hnz]; [done|].
    apply N.log2_spec. lia. }
  destruct (ParseUint_loop_format (N.to_nat (N.log2 n)) n 0%N EmptyString Hlt)
    as [k Hk].
  rewrite Hk by lia. simpl. f_equal.
Qed.

Lemma format_uint_decimal n :
  (n <= maxUint64)%N ->
  exists c r, format_uint 10 n = String c r /\ is_digit c = true.
Proof.
  intros Hn.
  destruct (format_uint_shape is_digit 10 ltac:(lia) digit_char_decimal n 20)
    as [_ Hall]; [lia| |].
  { eapply N.le_lt_trans; [apply Hn|]. by vm_compute. }
  pose proof (format_uint_nonempty 10 n) as Hne.
  destruct (format_uint 10 n) as [|c r]; [done|].
  simpl in Hall. apply andb_true_iff in Hall as [Hc _]. by exists c, r.
Qed.

Lemma digit_not_sign c :
  is_digit c = true -> (code c =? 43)%N = false /\ (code c =? 45)%N = false.
Proof.
  unfold is_digit, between. intros [Hlo _]%andb_true_iff.
  apply N.leb_le in Hlo. split; apply N.eqb_neq; lia.
Qed.

Lemma Atoi_Itoa n : MinInt64 <= n <= MaxInt64 -> Atoi (Itoa n) = (n, num_ok).
Proof.
  unfold MinInt64, MaxInt64. intros Hn. unfold Atoi, Itoa.
  assert (Hmax : (Z.abs_N n <= maxUint64)%N).
  { unfold maxUint64. apply N2Z.inj_le. rewrite N2Z.inj_abs_N.
    change (Z.of_N (2 ^ 64 - 1)) with 18446744073709551615. lia. }
  pose proof (ParseUint_format _ Hmax) as Hparse.
  destruct (format_uint_decimal _ Hmax) as (c & r & Hfmt & Hc).
  destruct (digit_not_sign c Hc) as [Hplus Hminus].
  destruct (Z.ltb_spec n 0) as [Hneg|Hpos].
  - rewrite app_cons, app_nil. unfold ParseInt.
    change (code "-" =? 45)%N with true. change (code "-" =? 43)%N with false.
    simpl orb. cbv iota. rewrite Hparse. simpl negb. simpl andb.
    destruct (N.ltb_spec (2 ^ 63) (Z.abs_N n)) as [Hbig|_].
    + exfalso. apply N2Z.inj_lt in Hbig. rewrite N2Z.inj_abs_N in Hbig.
      change (Z.of_N (2 ^ 63)) with (2 ^ 63) in Hbig. lia.
    + f_equal. rewrite N2Z.inj_abs_N. lia.
  - rewrite app_nil. unfold ParseInt. rewrite Hfmt, Hplus, Hminus.
    simpl orb. cbv iota. rewrite <- Hfmt, Hparse. simpl negb. simpl andb.
    destruct (N.leb_spec (2 ^ 63) (Z.abs_N n)) as [Hbig|_].
    + exfalso. apply N2Z.inj_le in Hbig. rewrite N2Z.inj_abs_N in Hbig.
      change (Z.of_N (2 ^ 63)) with (2 ^ 63) in Hbig. lia.
    + f_equal. rewrite N2Z.inj_abs_N. lia.
Qed.

Lemma Itoa_nonempty n : Itoa n <> EmptyString.
Proof.
  unfold Itoa. pose proof (format_uint_nonempty 10 (Z.abs_N n)) as Hne.
  destruct (n <? 0); [by rewrite app_cons|by rewrite app_nil].
Qed.

(** X2.  A number of the [int] range written into the configuration as
    [strconv.Itoa] prints it is read back by [GetConfigInt] as that
    number; so the numeric defaults that [initDefaultConfig] stores are
    read back as the constants they were made from. *)
Theorem GetConfigInt_reads_Itoa (key : string) (n : Z) (d : Database) :
  MinInt64 <= n <= MaxInt64 ->
  GetConfigInt key (fst (SetConfig key (Itoa n) d)) = n /\
  GetConfigInt "server.port" (initDefaultConfig d) = defaultServerPort /\
  GetConfigInt "storage.max_file_size" (initDefaultConfig d) = defaultMaxFileSize /\
  GetConfigInt "storage.cleanup_interval" (initDefaultConfig d) = defaultCleanupInterval /\
  GetConfigInt "storage.default_ttl" (initDefaultConfig d) = defaultDefaultTTL /\
  GetConfigInt "storage.max_ttl" (initDefaultConfig d) = defaultMaxTTL /\
  GetConfigInt "security.rate_limit_per_minute" (initDefaultConfig d) = defaultRateLimit /\
  GetConfigInt "security.session_timeout" (initDefaultConfig d) = defaultSessionTimeout.
Proof.
  intros Hn. split.
  - unfold GetConfigInt, GetConfig. simpl. rewrite lookup_insert_eq.
    destruct (String.eqb_spec (Itoa n) "") as [Hempty|_].
    + by destruct (Itoa_nonempty n).
    + by rewrite Atoi_Itoa.
  - unfold GetConfigInt, GetConfig. vm_compute. done.
Qed.

Lemma GetConfigInt_reads_Itoa_witness :
  MinInt64 <= -42 <= MaxInt64 /\
  Itoa (-42) = "-42"%string /\
  GetConfigInt "storage.max_ttl" (fst (SetConfig "storage.max_ttl" "-42" fresh)) = -42.
Proof.
  assert (Hn : MinInt64 <= -42 <= MaxInt64) by (vm_compute; split; discriminate).
  split; [exact Hn|]. split; [reflexivity|].
  exact (proj1 (GetConfigInt_reads_Itoa "storage.max_ttl" (-42) fresh Hn)).
Defined.

Lemma ParseUint_loop_range n s un :
  ParseUint_loop n s = (un, ErrRange) -> un = maxUint64.
Proof.
  revert n. induction s as [|c s IH]; intros n; simpl; [done|].
  destruct (is_digit c); [|done].
  destruct (_ <=? n)%N; [by intros [= <- ]|].
  destruct (maxUint64 <? _)%N; [by intros [= <- ]|]. apply IH.
Qed.

Lemma ParseUint_loop_bad_byte s : forall n,
  all_chars is_digit s = false -> snd (ParseUint_loop n s) <> num_ok.
Proof.
  induction s as [|c s IH]; intros n; simpl; [done|].
  destruct (is_digit c); [|done]. simpl. intros Hs.
  destruct (_ <=? n)%N; [done|].
  destruct (maxUint64 <? _)%N; [done|]. by apply IH.
Qed.

Lemma ParseInt_error_zero (c : ascii) (r body : string) (neg : bool) :
  snd (ParseUint body) <> num_ok ->
  snd (match ParseUint body with
       | (_, ErrSyntax) => (0, ErrSyntax)
       | (un, _) =>
           let cutoff := (2 ^ 63)%N in
           if negb neg && (cutoff <=? un)%N then (Z.of_N cutoff - 1, ErrRange)
           else if neg && (cutoff <? un)%N then (- Z.of_N cutoff, ErrRange)
           else (if neg then - Z.of_N un else Z.of_N un, num_ok)
       end) <> num_ok.
Proof.
  destruct (ParseUint body) as [un err] eqn:Hp. simpl. intros Herr.
  destruct err; [done|done|].
  assert (un = maxUint64) as ->.
  { unfold ParseUint in Hp. destruct body; [done|].
    by apply ParseUint_loop_range in Hp. }
  by destruct neg.
Qed.

Lemma Atoi_bad_byte v :
  all_chars numeric_byte v = false -> snd (Atoi v) <> num_ok.
Proof.
  intros Hbad. unfold Atoi, ParseInt. destruct v as [|c r]; [done|].
  apply ParseInt_error_zero; [exact c|exact r|].
  assert (Hbody : all_chars is_digit
            (if (code c =? 43)%N || (code c =? 45)%N then r else String c r)
          = false).
  { simpl in Hbad. unfold numeric_byte at 1 in Hbad.
    destruct ((code c =? 43)%N || (code c =? 45)%N) eqn:Hsign.
    - rewrite <- orb_assoc, Hsign, orb_true_r in Hbad. simpl in Hbad.
      destruct (all_chars is_digit r) eqn:Hr; [|done].
      rewrite (all_chars_impl is_digit numeric_byte r) in Hbad; [done| |done].
      intros x Hx. unfold numeric_byte. by rewrite Hx.
    - rewrite <- orb_assoc, Hsign, orb_false_r in Hbad. simpl.
      destruct (is_digit c); [|done]. simpl in *.
      destruct (all_chars is_digit r) eqn:Hr; [|done].
      rewrite (all_chars_impl is_digit numeric_byte r) in Hbad; [done| |done].
      intros x Hx. unfold numeric_byte. by rewrite Hx. }
  unfold ParseUint.
  destruct (if (code c =? 43)%N || (code c =? 45)%N then r else String c r)
    as [|c' r'] eqn:Hb; [done|].
  by apply ParseUint_loop_bad_byte.
Qed.

(** X3.  [GetConfigInt] answers [0] for a key that is missing, for an
    empty value, and for a value holding any byte that is neither a digit
    nor a sign; whatever the value, its answer is in the [int] range. *)
Theorem GetConfigInt_zero_when_unreadable (key : string) (d : Database) :
  (Config (data d) !! key = None -> GetConfigInt key d = 0) /\
  (Config (data d) !! key = Some ""%string -> GetConfigInt key d = 0) /\
  (forall v, Config (data d) !! key = Some v ->
     all_chars numeric_byte v = false -> GetConfigInt key d = 0) /\
  MinInt64 <= GetConfigInt key d <= MaxInt64.
Proof.
  unfold GetConfigInt, GetConfig.
  split; [by intros ->|]. split; [by intros ->|]. split.
  - intros v -> Hbad. destruct (String.eqb v ""); [done|].
    pose proof (Atoi_bad_byte v Hbad) as Herr.
    by destruct (Atoi v) as [num []].
  - assert (Hzero : MinInt64 <= 0 <= MaxInt64) by (vm_compute; split; discriminate).
    destruct (Config (data d) !! key) as [v|]; [|done].
    destruct (String.eqb v ""); [done|].
    destruct (Atoi v) as [num err] eqn:Ha. destruct err; try done.
    unfold Atoi, ParseInt in Ha. destruct v as [|c r]; [done|].
    destruct (ParseUint _) as [un perr].
    assert (Hrange :
      (if negb (code c =? 45)%N && (2 ^ 63 <=? un)%N
       then (Z.of_N (2 ^ 63) - 1, ErrRange)
       else if (code c =? 45)%N && (2 ^ 63 <? un)%N
            then (- Z.of_N (2 ^ 63), ErrRange)
            else (if (code c =? 45)%N then - Z.of_N un else Z.of_N un, num_ok))
      = (num, num_ok) -> MinInt64 <= num <= MaxInt64).
    { destruct (negb _ && (2 ^ 63 <=? un)%N) eqn:H1; [done|].
      destruct ((code c =? 45)%N && (2 ^ 63 <? un)%N) eqn:H2; [done|].
      intros [= <-]. unfold MinInt64, MaxInt64.
      destruct (code c =? 45)%N; simpl in *.
      * apply N.ltb_ge, N2Z.inj_le in H2.
        change (Z.of_N (2 ^ 63)) with (2 ^ 63) in H2. lia.
      * apply N.leb_gt, N2Z.inj_lt in H1.
        change (Z.of_N (2 ^ 63)) with (2 ^ 63) in H1. lia. }
    destruct perr; [by apply Hrange|done|by apply Hrange].
Qed.

(** *** Looking records up and taking them out *)

Section Lookup.
Context `{MapOrder}.

(** X4.  [GetFileMetadata] never fails.  It finds nothing exactly when
    no record has the path; what it finds is a stored record with that
    path; and when paths are unique it finds the record that has it. *)
Theorem GetFileMetadata_by_path (p : string) (d : Database) :
  snd (GetFileMetadata p d) = nil /\
  (fst (GetFileMetadata p d) = None <->
   forall id m, Files (data d) !! id = Some m -> FilePath m <> p) /\
  (forall m, fst (GetFileMetadata p d) = Some m ->
     exists id, Files (data d) !! id = Some m /\ FilePath m = p) /\
  (paths_unique (Files (data d)) ->
   forall id m, Files (data d) !! id = Some m -> FilePath m = p ->
     fst (GetFileMetadata p d) = Some m).
Proof.
  unfold GetFileMetadata. simpl.
  destruct (find (has_path p) (range_files (Files (data d))))
    as [[id0 m0]|] eqn:Hf; simpl.
  - apply find_path_Some in Hf as [Hl0 Hp0].
    split; [done|]. split; [|split].
    + split; [done|]. intros Hnone. by destruct (Hnone id0 m0 Hl0).
    + intros m [= <-]. by exists id0.
    + intros Hu id m Hl Hp.
      assert (id0 = id) as ->
        by (apply (CleanupFacts.paths_unique_lookup _ _ _ _ _ Hu Hl0 Hl); congruence).
      congruence.
  - pose proof (find_path_None _ _ Hf) as Hnone.
    split; [done|]. split; [done|]. split; [done|].
    intros _ id m Hl Hp. by destruct (Hnone id m Hl).
Qed.

(** X5.  A record whose path and id are new to the store is inserted
    and then deleted by its path: the file map is what it was before the
    two calls, neither the path nor the id finds anything, and the id is
    not handed out again: the next insert gets the one after it. *)
Theorem insert_then_delete (meta : FileMetadata) (d : Database) :
  (forall id m, Files (data d) !! id = Some m -> FilePath m <> FilePath meta) ->
  Files (data d) !! NextID (data d) = None ->
  MinInt64 <= NextID (data d) < MaxInt64 ->
  let id := fst (fst (SaveFileMetadata meta d)) in
  let d1 := snd (fst (SaveFileMetadata meta d)) in
  let d2 := fst (DeleteFileMetadata (FilePath meta) d1) in
  id = NextID (data d) /\
  Files (data d2) = Files (data d) /\
  NextID (data d2) = NextID (data d) + 1 /\
  GetFileMetadata (FilePath meta) d2 = (None, nil) /\
  GetFileMetadataByID id d2 = (None, nil) /\
  fst (fst (SaveFileMetadata meta d2)) = id + 1.
Proof.
  intros Hfresh Hfree Hrange id d1 d2.
  assert (Hfiles : Files (data d2) = Files (data d)).
  { subst d2. unfold DeleteFileMetadata.
    destruct (find _ _) as [[id0 m0]|] eqn:Hf; simpl.
    - apply find_path_Some in Hf as [Hl Hp]. subst d1. simpl in Hl.
      destruct (decide (id0 = NextID (data d))) as [->|Hne].
      + by rewrite delete_insert_eq, delete_id.
      + rewrite lookup_insert_ne in Hl by done. by destruct (Hfresh id0 m0 Hl).
    - exfalso. apply (find_path_None _ _ Hf (NextID (data d)) (set_ID id meta)); [|done].
      subst d1. simpl. apply lookup_insert_eq. }
  assert (Hnext : NextID (data d2) = NextID (data d) + 1).
  { subst d2. unfold DeleteFileMetadata.
    assert (NextID (data d1) = NextID (data d) + 1) as Hn1.
    { subst d1. simpl. apply wrap64_id. unfold MinInt64, MaxInt64 in *. lia. }
    by destruct (find _ _) as [[id0 m0]|]. }
  split; [done|]. split; [done|]. split; [done|]. split; [|split].
  - unfold GetFileMetadata. rewrite Hfiles.
    destruct (find _ _) as [[id0 m0]|] eqn:Hf; [|done].
    apply find_path_Some in Hf as [Hl Hp]. by destruct (Hfresh id0 m0 Hl).
  - unfold GetFileMetadataByID. rewrite Hfiles. subst id. simpl. by rewrite Hfree.
  - simpl. by rewrite Hnext.
Qed.
End Lookup.

Lemma insert_then_delete_witness :
  let meta := sample "20260131/c.jpg" 300 in
  (forall id m, Files (data two_records) !! id = Some m -> FilePath m <> FilePath meta) /\
  Files (data two_records) !! NextID (data two_records) = None /\
  let d1 := snd (fst (SaveFileMetadata meta two_records)) in
  let d2 := fst (@DeleteFileMetadata listed_order (FilePath meta) d1) in
  Files (data d2) = Files (data two_records) /\
  fst (fst (SaveFileMetadata meta d2)) = 4.
Proof.
  intros meta.
  assert (Hfresh : forall id m,
            Files (data two_records) !! id = Some m -> FilePath m <> FilePath meta).
  { intros id m Hl. apply elem_of_map_to_list in Hl.
    vm_compute in Hl.
    apply elem_of_cons in Hl as [Heq|Hl];
      [inversion Heq; subst; vm_compute; discriminate|].
    apply elem_of_cons in Hl as [Heq|Hl];
      [inversion Heq; subst; vm_compute; discriminate|].
    by apply elem_of_nil in Hl. }
  assert (Hfree : Files (data two_records) !! NextID (data two_records) = None)
    by reflexivity.
  assert (Hrange : MinInt64 <= NextID (data two_records) < MaxInt64)
    by (vm_compute; split; [discriminate|reflexivity]).
  destruct (@insert_then_delete listed_order meta two_records Hfresh Hfree Hrange)
    as (_ & Hfiles & _ & _ & _ & Hnext).
  split; [exact Hfresh|]. split; [exact Hfree|].
  split; [exact Hfiles|exact Hnext].
Defined.

(** *** Statistics *)

Lemma wrap64_add_l a b : wrap64 (wrap64 a + b) = wrap64 (a + b).
Proof.
  unfold wrap64. f_equal.
  replace ((a + 2 ^ 63) mod 2 ^ 64 - 2 ^ 63 + b + 2 ^ 63)
    with ((a + 2 ^ 63) mod 2 ^ 64 + b) by lia.
  rewrite Zplus_mod_idemp_l. f_equal. lia.
Qed.

Lemma fold_wrap_total l : forall t,
  fold_left (fun total e => wrap64 (total + FileSize (snd e))) l (wrap64 t)
  = wrap64 (t + total_size l).
Proof.
  induction l as [|e l IH]; intros t; simpl.
  - by rewrite Z.add_0_r.
  - rewrite wrap64_add_l, IH. f_equal. lia.
Qed.

Lemma total_size_perm l l' : l ≡ₚ l' -> total_size l = total_size l'.
Proof.
  induction 1 as [| |x y l|]; simpl; try lia.
Qed.

Lemma total_size_bounds l :
  Forall (fun e => 0 <= FileSize (snd e)) l -> 0 <= total_size l.
Proof. induction 1; simpl; lia. Qed.

(** X6.  [GetStats] never fails and does not depend on the order in
    which the map is visited: it gives the number of records and the sum
    of their sizes, reduced to 64 bits; when no size is negative and the
    sum fits in an [int64], it is the sum itself. *)
Theorem GetStats_totals `{MapOrder} (d : Database) :
  GetStats d
  = (Z.of_nat (size (Files (data d))),
     wrap64 (total_size (map_to_list (Files (data d)))), nil) /\
  (map_Forall (fun _ m => 0 <= FileSize m) (Files (data d)) ->
   total_size (map_to_list (Files (data d))) <= MaxInt64 ->
   snd (fst (GetStats d)) = total_size (map_to_list (Files (data d))) /\
   0 <= snd (fst (GetStats d))).
Proof.
  assert (Hstats : GetStats d
            = (Z.of_nat (size (Files (data d))),
               wrap64 (total_size (map_to_list (Files (data d)))), nil)).
  { unfold GetStats. f_equal. f_equal.
    change 0 with (wrap64 0) at 1. rewrite fold_wrap_total. simpl.
    f_equal. apply total_size_perm, range_files_perm. }
  split; [done|]. intros Hpos Hmax. rewrite Hstats. simpl.
  assert (Hge : 0 <= total_size (map_to_list (Files (data d)))).
  { apply total_size_bounds. apply Forall_forall. intros [id m] Hin.
    apply elem_of_map_to_list in Hin. by apply (Hpos id m). }
  rewrite wrap64_id; [done|]. unfold MinInt64. lia.
Qed.

(** *** Browsing by date directory *)

Lemma HasPrefix_app s pre :
  HasPrefix s pre = true <-> exists r, s = pre +:+ r.
Proof.
  revert s. induction pre as [|c pre IH]; intros s; simpl.
  - split; [intros _; by exists s|done].
  - destruct s as [|c' s]; simpl.
    + split; [done|]. intros [r Hr]. by rewrite app_cons in Hr.
    + rewrite andb_true_iff, IH. split.
      * intros [Hc [r ->]]. apply Ascii.eqb_eq in Hc as ->.
        exists r. by rewrite app_cons.
      * intros [r Hr]. rewrite app_cons in Hr. inversion Hr; subst.
        split; [apply Ascii.eqb_refl|by exists r].
Qed.

Lemma split_sep_first s : exists p rest,
  split_sep s = p :: rest /\
  all_chars not_slash p = true /\
  ((rest = [] /\ s = p) \/ exists r, s = p +:+ String "/" r).
Proof.
  induction s as [|c s (p & rest & Hsplit & Hp & Hs)]; simpl.
  - exists EmptyString, []. split; [done|]. split; [done|]. by left.
  - rewrite separator_not_slash. destruct (not_slash c) eqn:Hc; simpl.
    + rewrite Hsplit. exists (String c p), rest.
      split; [done|]. split; [simpl; by rewrite Hc, Hp|].
      destruct Hs as [[-> ->]|[r ->]]; [by left|].
      right. exists r. by rewrite app_cons.
    + exists EmptyString, (split_sep s). split; [done|]. split; [done|].
      right. exists s. rewrite app_nil. f_equal.
      unfold not_slash in Hc. apply negb_false_iff, N.eqb_eq in Hc.
      rewrite <- (ascii_N_embedding c). unfold code in Hc. by rewrite Hc.
Qed.

Lemma ParseDateFromPath_dir date rest :
  all_chars not_slash date = true ->
  Naming.ParseDateFromPath (date +:+ String "/" rest) = date.
Proof.
  intros Hd. unfold Naming.ParseDateFromPath, ToSlash.
  by rewrite split_sep_element.
Qed.

Lemma ParseDateFromPath_plain p :
  all_chars not_slash p = true -> Naming.ParseDateFromPath p = p.
Proof.
  intros Hp. unfold Naming.ParseDateFromPath, ToSlash.
  by rewrite split_sep_last.
Qed.

Lemma not_slash_no_dir p date rest :
  all_chars not_slash p = true -> p <> date +:+ String "/" rest.
Proof.
  intros Hp ->. rewrite all_chars_app in Hp.
  apply andb_true_iff in Hp as [_ Hp]. simpl in Hp. done.
Qed.

Section Browsing.
Context `{MapOrder} `{DateOrder}.

Lemma add_date_spec dateMap e :
  add_date dateMap e = {[ Naming.ParseDateFromPath (FilePath (snd e)) ]} ∪ dateMap.
Proof.
  unfold add_date, Naming.ParseDateFromPath.
  destruct (split_sep_first (ToSlash (FilePath (snd e)))) as (p & rest & -> & _).
  done.
Qed.

Lemma dates_fold l : forall dateMap date,
  date ∈ fold_left add_date l dateMap <->
  date ∈ dateMap \/
  exists e, e ∈ l /\ Naming.ParseDateFromPath (FilePath (snd e)) = date.
Proof.
  induction l as [|e l IH]; intros dateMap date; simpl.
  - split; [by left|]. intros [?|(e & Hin & _)]; [done|].
    by apply elem_of_nil in Hin.
  - rewrite IH, add_date_spec, elem_of_union, elem_of_singleton. split.
    + intros [[->|Hin]|(e' & Hin & He)].
      * right. exists e. split; [apply elem_of_cons; by left|done].
      * by left.
      * right. exists e'. split; [apply elem_of_cons; by right|done].
    + intros [Hin|(e' & Hin & He)]; [left; by right|].
      apply elem_of_cons in Hin as [->|Hin]; [left; by left|].
      right. by exists e'.
Qed.

Lemma ListAllDates_elem date d :
  date ∈ fst (ListAllDates d) <->
  exists id m, Files (data d) !! id = Some m /\
               Naming.ParseDateFromPath (FilePath m) = date.
Proof.
  unfold ListAllDates. simpl.
  rewrite range_dates_perm, elem_of_elements, dates_fold. split.
  - intros [Hin|([id m] & Hin & Hd)]; [by apply elem_of_empty in Hin|].
    apply range_files_lookup in Hin. by exists id, m.
  - intros (id & m & Hl & Hd). right. exists (id, m).
    split; [by apply range_files_lookup|done].
Qed.

Lemma ListFilesByDate_elem date d m :
  m ∈ fst (ListFilesByDate date d) <->
  (exists id, Files (data d) !! id = Some m) /\
  exists rest, FilePath m = date +:+ String "/" rest.
Proof.
  unfold ListFilesByDate, ToSlash. simpl.
  rewrite list_elem_of_In, filter_In, <- list_elem_of_In, list_elem_of_fmap.
  rewrite HasPrefix_app. split.
  - intros [([id m'] & -> & Hin) [r Hr]]. split.
    + exists id. by apply range_files_lookup.
    + exists r. by rewrite Hr, app_assoc.
  - intros [[id Hl] [r Hr]]. split.
    + exists (id, m). split; [done|]. by apply range_files_lookup.
    + exists r. by rewrite Hr, app_assoc.
Qed.

(** X7.  The two listings never fail.  [ListAllDates] gives, each once,
    the first path elements of the stored records; [ListFilesByDate]
    gives the stored records whose path is the date, a separator, and
    more.  So a record stored under [date/rest] is listed under [date],
    and [date] is among the dates; but a record whose path has no
    separator makes its whole path a date under which it is not
    listed. *)
Theorem browsing_by_date (d : Database) :
  snd (ListAllDates d) = nil /\
  (forall date, snd (ListFilesByDate date d) = nil) /\
  NoDup (fst (ListAllDates d)) /\
  (forall date,
     date ∈ fst (ListAllDates d) <->
     exists id m, Files (data d) !! id = Some m /\
                  Naming.ParseDateFromPath (FilePath m) = date) /\
  (forall date m,
     m ∈ fst (ListFilesByDate date d) <->
     (exists id, Files (data d) !! id = Some m) /\
     exists rest, FilePath m = date +:+ String "/" rest) /\
  (forall id m date rest,
     Files (data d) !! id = Some m ->
     FilePath m = date +:+ String "/" rest ->
     all_chars not_slash date = true ->
     date ∈ fst (ListAllDates d) /\ m ∈ fst (ListFilesByDate date d)) /\
  (forall id m,
     Files (data d) !! id = Some m ->
     all_chars not_slash (FilePath m) = true ->
     FilePath m ∈ fst (ListAllDates d) /\
     m ∉ fst (ListFilesByDate (FilePath m) d)).
Proof.
  split; [done|]. split; [done|]. split; [|split; [|split; [|split]]].
  - unfold ListAllDates. simpl. rewrite range_dates_perm. apply NoDup_elements.
  - intros date. apply ListAllDates_elem.
  - intros date m. apply ListFilesByDate_elem.
  - intros id m date rest Hl Hp Hd. split.
    + apply ListAllDates_elem. exists id, m. split; [done|].
      rewrite Hp. by apply ParseDateFromPath_dir.
    + apply ListFilesByDate_elem. split; [by exists id|by exists rest].
  - intros id m Hl Hp. split.
    + apply ListAllDates_elem. exists id, m. split; [done|].
      by apply ParseDateFromPath_plain.
    + rewrite ListFilesByDate_elem. intros [_ [rest Hr]].
      by apply (not_slash_no_dir (FilePath m) (FilePath m) rest).
Qed.
End Browsing.

(** *** Flushing and reopening *)

Lemma tmp_path_differs path : path +:+ ".tmp" <> path.
Proof.
  intros Heq. apply (f_equal String.length) in Heq.
  rewrite app_length in Heq. simpl in Heq. lia.
Qed.

Section Flush.
Context `{JsonCodec}.

(** X8.  A [save] that returns an error has not touched the snapshot:
    the file at the store's path is what it was, and so is every other
    file but the temporary one.  A [save] that returns none has put the
    encoded store at the path and left no temporary file. *)
Theorem save_failure_keeps_snapshot (d : Database) (disk : Disk) :
  let after := fst (save d disk) in
  (snd (save d disk) <> nil ->
   disk_files after !! filePath d = disk_files disk !! filePath d /\
   forall p, p <> filePath d +:+ ".tmp" ->
     disk_files after !! p = disk_files disk !! p) /\
  (snd (save d disk) = nil ->
   disk_files after !! filePath d = MarshalIndent (data d) /\
   disk_files after !! (filePath d +:+ ".tmp") = None /\
   forall p, p <> filePath d -> p <> filePath d +:+ ".tmp" ->
     disk_files after !! p = disk_files disk !! p).
Proof.
  pose proof (tmp_path_differs (filePath d)) as Htmp.
  unfold save, WriteFile, Rename.
  destruct (MarshalIndent (data d)) as [content|]; simpl; [|by split].
  case_decide; simpl; [by split|].
  rewrite lookup_insert_eq. case_decide; simpl.
  - split; [|done]. intros _. split.
    + by rewrite lookup_insert_ne.
    + intros p Hp. by rewrite lookup_insert_ne.
  - split; [done|]. intros _. split; [by rewrite lookup_insert_eq|]. split.
    + rewrite lookup_insert_ne by done. by rewrite lookup_delete_eq.
    + intros p Hp Hpt. rewrite lookup_insert_ne by done.
      rewrite lookup_delete_ne by done. by rewrite lookup_insert_ne.
Qed.

(** X9.  On a directory that can be made and holds no snapshot, [Open]
    gives an empty store with the default configuration and a save
    requested, and writes nothing itself; once [autoSaveLoop] has served
    the request (the path being writable), opening the path again gives
    the same data and requests no save. *)
Theorem first_run_then_reopen (path : string) (disk : Disk) (s : string) :
  MkdirAll (Dir path) disk = nil ->
  disk_files disk !! path = None ->
  faithful defaults -> MarshalIndent defaults = Some s ->
  path ∉ disk_denied disk -> path +:+ ".tmp" ∉ disk_denied disk ->
  let opened := {| filePath := path; data := defaults; autoSave := true |} in
  Open path disk = (Some opened, nil) /\
  exists disk',
    autoSaveLoop_turn Request opened disk
    = Some ({| filePath := path; data := defaults; autoSave := false |}, disk') /\
    disk_files disk' !! path = Some s /\
    Open path disk'
    = (Some {| filePath := path; data := defaults; autoSave := false |}, nil).
Proof.
  intros Hmk Hnone Hok Hs Hp Ht opened. split.
  - unfold Open, Stat. rewrite Hmk, Hnone. simpl.
    rewrite map_size_empty. by rewrite decide_True.
  - unfold autoSaveLoop_turn. simpl.
    rewrite (save_writable opened disk s Hs Hp Ht). simpl.
    eexists. split; [done|]. simpl. split; [apply lookup_insert_eq|].
    rewrite (Open_existing path _ s); [| |apply lookup_insert_eq].
    + rewrite (Unmarshal_MarshalIndent _ _ Hok Hs). simpl.
      rewrite decide_False; [done|]. by vm_compute.
    + unfold MkdirAll in *. done.
Qed.
End Flush.

Lemma first_run_then_reopen_witness :
  let C := codec defaults "snapshot" in
  let path := "data/metadata.db"%string in
  MkdirAll (Dir path) empty_disk = nil /\
  disk_files empty_disk !! path = None /\
  @Open C path empty_disk
  = (Some {| filePath := path; data := defaults; autoSave := true |}, nil).
Proof.
  intros C path.
  assert (Hmk : MkdirAll (Dir path) empty_disk = nil) by (vm_compute; reflexivity).
  assert (Hnone : disk_files empty_disk !! path = None) by reflexivity.
  assert (Hs : @MarshalIndent C defaults = Some "snapshot"%string)
    by (vm_compute; reflexivity).
  assert (Hp : path ∉ disk_denied empty_disk) by apply not_elem_of_empty.
  assert (Ht : path +:+ ".tmp" ∉ disk_denied empty_disk) by apply not_elem_of_empty.
  split; [exact Hmk|]. split; [exact Hnone|].
  exact (proj1 (@first_run_then_reopen C path empty_disk _ Hmk Hnone I Hs Hp Ht)).
Defined.

End DbMore.

(** ** The command line *)

Module MainFacts.
Import GoString Filepath Db Config Main Snapshot DbFacts NamingFacts DbMore.

Lemma Split_nonempty sep s : Split sep s <> [].
Proof.
  destruct s as [|c r]; simpl; [done|].
  destruct (Ascii.eqb c sep); [done|]. by destruct (Split sep r).
Qed.

(** No element of [Split sep s] holds the separator. *)
Lemma Split_free sep s :
  Forall (fun e => all_chars (fun c => negb (Ascii.eqb c sep)) e = true) (Split sep s).
Proof.
  induction s as [|c r IH]; simpl; [by constructor|].
  destruct (Ascii.eqb c sep) eqn:Hc; [by constructor|].
  destruct (Split sep r) as [|x xs]; [constructor; [|done]; simpl; by rewrite Hc|].
  inversion IH; subst. constructor; [|done]. simpl. by rewrite Hc.
Qed.

Lemma Join_Split sep s : GoString.Join (Split sep s) (String sep "") = s.
Proof.
  induction s as [|c r IH]; simpl; [done|].
  destruct (Ascii.eqb_spec c sep) as [->|Hc].
  - pose proof (Split_nonempty sep r) as Hne.
    destruct (Split sep r) as [|x xs]; [done|].
    change (GoString.Join ("" :: x :: xs) (String sep ""))
      with ("" +:+ String sep "" +:+ GoString.Join (x :: xs) (String sep "")).
    by rewrite IH.
  - pose proof (Split_nonempty sep r) as Hne.
    destruct (Split sep r) as [|x xs]; [done|].
    destruct xs as [|y ys].
    + simpl in IH. by rewrite IH.
    + change (GoString.Join (String c x :: y :: ys) (String sep ""))
        with (String c x +:+ String sep "" +:+ GoString.Join (y :: ys) (String sep "")).
      change (GoString.Join (x :: y :: ys) (String sep ""))
        with (x +:+ String sep "" +:+ GoString.Join (y :: ys) (String sep "")) in IH.
      by rewrite app_cons, IH.
Qed.

(** X10.  The IP whitelist that [buildConfigFromDB] hands on is the
    stored text cut at its commas: joined with commas it is the stored
    text again, no entry holds a comma, and it is empty exactly when the
    stored text is. *)
Theorem buildConfigFromDB_whitelist (dbPath : string) (database : Database) :
  let stored := GetConfig "security.ip_whitelist" database in
  let list := Security_IPWhitelist (buildConfigFromDB dbPath database) in
  GoString.Join list "," = stored /\
  Forall (fun e => all_chars (fun c => negb (Ascii.eqb c ",")) e = true) list /\
  (list = [] <-> stored = ""%string).
Proof.
  intros stored list. subst list. unfold buildConfigFromDB. simpl.
  fold stored. destruct (String.eqb_spec stored "") as [->|Hne]; simpl.
  - split; [done|]. split; [by constructor|done].
  - split; [apply Join_Split|]. split; [apply Split_free|].
    split; [intros Hnil; by apply Split_nonempty in Hnil|done].
Qed.

(** *** The sweeper's interval *)

Lemma GetConfigInt_Itoa key n d :
  MinInt64 <= n <= MaxInt64 ->
  GetConfig key d = Itoa n -> GetConfigInt key d = n.
Proof.
  intros Hn Hv. unfold GetConfigInt. rewrite Hv.
  destruct (String.eqb_spec (Itoa n) "") as [He|_]; [by apply Itoa_nonempty in He|].
  by rewrite Atoi_Itoa.
Qed.

Lemma wrap64_above z :
  MaxInt64 < z < 2 ^ 64 -> wrap64 z = z - 2 ^ 64.
Proof.
  unfold wrap64, MaxInt64. intros Hz.
  rewrite <- (Z.mod_unique (z + 2 ^ 63) (2 ^ 64) 1 (z + 2 ^ 63 - 2 ^ 64)); lia.
Qed.

(** X11.  The interval of the sweeper's ticker, from the stored
    configuration.  When [storage.cleanup_interval] is not set,
    [time.NewTicker] is given zero and panics.  When it is the decimal
    text of [n]: for [n] from 1 to 153722867 the ticker runs every [n]
    minutes; for [n] from -153722867 to 0, and for [n] from 153722868 to
    307445734 (where the product leaves 64 bits and comes out
    negative), [time.NewTicker] panics. *)
Theorem cleanup_interval_from_store (dbPath : string) (database : Database) :
  let cfg := cleanupConfig (buildConfigFromDB dbPath database) in
  (Db.Config (data database) !! "storage.cleanup_interval"%string = None ->
   Cleanup.NewTicker (Cleanup.interval cfg) = None) /\
  (forall n, GetConfig "storage.cleanup_interval" database = Itoa n ->
     (1 <= n <= 153722867 ->
      Cleanup.NewTicker (Cleanup.interval cfg) = Some (n * Minute)) /\
     (-153722867 <= n <= 0 ->
      Cleanup.NewTicker (Cleanup.interval cfg) = None) /\
     (153722868 <= n <= 307445734 ->
      Cleanup.NewTicker (Cleanup.interval cfg) = None)).
Proof.
  intros cfg. subst cfg. unfold Cleanup.interval, Cleanup.NewTicker. simpl. split.
  - intros Hnone. unfold GetConfigInt, GetConfig. by rewrite Hnone.
  - intros n Hv.
    assert (Hmin : Minute = 60000000000) by reflexivity.
    split; [|split]; intros Hn.
    + rewrite (GetConfigInt_Itoa _ n) by (unfold MinInt64, MaxInt64; done || lia).
      rewrite wrap64_id by (unfold MinInt64, MaxInt64; lia).
      destruct (Z.leb_spec (n * Minute) 0); [lia|done].
    + rewrite (GetConfigInt_Itoa _ n) by (unfold MinInt64, MaxInt64; done || lia).
      rewrite wrap64_id by (unfold MinInt64, MaxInt64; lia).
      destruct (Z.leb_spec (n * Minute) 0); [done|lia].
    + rewrite (GetConfigInt_Itoa _ n) by (unfold MinInt64, MaxInt64; done || lia).
      rewrite wrap64_above by (unfold MaxInt64; lia).
      destruct (Z.leb_spec (n * Minute - 2 ^ 64) 0); [done|lia].
Qed.

(** *** [set] and [get] *)

Section Commands.
Context `{JsonCodec} `{ConfigOrder}.

Lemma Open_opened path disk database e :
  Open path disk = (Some database, e) ->
  MkdirAll (Dir path) disk = nil /\ filePath database = path /\ e = nil.
Proof.
  unfold Open. destruct (MkdirAll (Dir path) disk); [|done].
  intros [= <- <-]. split; [done|]. split; [|done].
  destruct (Stat path disk); [destruct (ReadFile path disk) as [c []]|];
    simpl; case_decide; done.
Qed.

(** X12.  [httpserver set key v1 ... vn] followed by [httpserver get
    key]: when the first run can write the snapshot, it ends normally
    and leaves the encoded store at the path, and the second prints the
    words joined by single spaces and ends normally.  The key is not
    [all] and the joined value is not empty. *)
Theorem set_then_get (dbPath key : string) (values : list string) (disk : Disk)
    (database : Database) (s : string) :
  let value := GoString.Join values " " in
  let stored := fst (SetConfig key value database) in
  values <> [] -> key <> "all"%string -> value <> ""%string ->
  Open dbPath disk = (Some database, nil) ->
  faithful (data stored) -> MarshalIndent (data stored) = Some s ->
  dbPath ∉ disk_denied disk -> dbPath +:+ ".tmp" ∉ disk_denied disk ->
  let set := handleSetCommand dbPath ("set"%string :: key :: values) disk in
  let get := handleGetCommand dbPath ["get"%string; key] (out_disk set) in
  ending set = Returned /\
  stdout set = ["Config updated: " +:+ key +:+ " = " +:+ value]%string /\
  disk_files (out_disk set) !! dbPath = Some s /\
  stdout get = [value] /\ ending get = Returned.
Proof.
  intros value stored Hvalues Hkey Hvalue Hopen Hok Hs Hp Ht set get.
  destruct (Open_opened _ _ _ _ Hopen) as (Hmk & Hpath & _).
  destruct values as [|v vs]; [done|].
  assert (Hset : set =
    {| out_disk := fst (Close stored disk);
       stdout := ["Config updated: " +:+ key +:+ " = " +:+ value]%string;
       ending := Returned |}).
  { subst set. unfold handleSetCommand. by rewrite Hopen. }
  assert (Hfile : filePath stored = dbPath) by (by subst stored).
  assert (Hclose : Close stored disk =
    ({| disk_files :=
          <[dbPath := s]> (delete (dbPath +:+ ".tmp") (disk_files disk));
        disk_denied := disk_denied disk |}, nil)).
  { unfold Close. rewrite (save_writable stored disk s Hs); rewrite Hfile; done. }
  rewrite Hclose in Hset. simpl in Hset.
  split; [by rewrite Hset|]. split; [by rewrite Hset|].
  split; [rewrite Hset; apply lookup_insert_eq|].
  assert (Hsize : size (Db.Config (data stored)) <> 0%nat).
  { intros Hz. apply map_size_empty_inv in Hz.
    assert (Hl : Db.Config (data stored) !! key = Some value)
      by (subst stored; apply lookup_insert_eq).
    rewrite Hz in Hl. by rewrite lookup_empty in Hl. }
  assert (Hget : get =
    {| out_disk := fst (Close {| filePath := dbPath; data := data stored;
                                 autoSave := false |} (out_disk set));
       stdout := [value]; ending := Returned |}).
  { subst get. unfold handleGetCommand. rewrite Hset.
    rewrite (Open_existing dbPath _ s); [| |apply lookup_insert_eq].
    - rewrite (Unmarshal_MarshalIndent _ _ Hok Hs). simpl.
      rewrite decide_False by done.
      destruct (String.eqb_spec key "all") as [|_]; [done|].
      unfold GetConfig. simpl. rewrite lookup_insert_eq.
      by destruct (String.eqb_spec value "") as [|_].
    - unfold MkdirAll in *. done. }
  by rewrite Hget.
Qed.
End Commands.

Lemma set_then_get_witness :
  let path := "data/metadata.db"%string in
  let database := {| filePath := path; data := defaults; autoSave := true |} in
  let stored := fst (SetConfig "server.port" "4900" database) in
  let C := codec (data stored) "snapshot" in
  stdout (@handleGetCommand C listed_config path ["get"; "server.port"]%string
            (out_disk (@handleSetCommand C path
                         ["set"; "server.port"; "4900"]%string empty_disk)))
  = ["4900"%string].
Proof.
  intros path database stored C.
  assert (Hopen : @Open C path empty_disk = (Some database, nil))
    by (vm_compute; reflexivity).
  assert (Hs : @MarshalIndent C (data stored) = Some "snapshot"%string)
    by (unfold C; simpl; unfold write; by rewrite decide_True).
  assert (Hp : path ∉ disk_denied empty_disk) by apply not_elem_of_empty.
  assert (Ht : path +:+ ".tmp" ∉ disk_denied empty_disk) by apply not_elem_of_empty.
  exact (proj1 (proj2 (proj2 (proj2
    (@set_then_get C listed_config path "server.port" ["4900"%string] empty_disk
       database "snapshot" ltac:(done) ltac:(done) ltac:(done) Hopen I Hs Hp Ht))))).
Defined.

(** *** [get all] *)

Lemma groups_fold (p : string) l : forall groups,
  fold_left add_key l groups !! p =
    match filter (fun k => hd ""%string (Split "." k) = p) l with
    | [] => groups !! p
    | ks => Some (default [] (groups !! p) ++ ks)
    end.
Proof.
  induction l as [|k l IH]; intros groups; [done|].
  simpl. rewrite IH. unfold add_key at 1 2. rewrite filter_cons.
  case_decide as Hk.
  - rewrite Hk, lookup_insert_eq. simpl.
    destruct (filter _ l) as [|k' ks]; [done|].
    by rewrite <- List.app_assoc.
  - by rewrite lookup_insert_ne.
Qed.

Lemma entries_of_keys (m : gmap string string) (P : string -> Prop)
    `{forall k, Decision (P k)} (l : list (string * string)) :
  Forall (fun e => m !! e.1 = Some e.2) l ->
  (fun k => (k, default ""%string (m !! k))) <$> filter P (l.*1)
  = filter (fun e => P e.1) l.
Proof.
  induction 1 as [|[k v] l Hkv Hl IH]; [done|].
  simpl in *. rewrite !filter_cons. simpl.
  case_decide; [|done]. simpl. f_equal; [by rewrite Hkv|exact IH].
Qed.

(** X13.  What [get all] prints, for every order in which Go visits
    the configuration map: the two heading lines, then for each of
    [server], [storage], [auth], [security], in this order, the entries
    whose key begins with that word up to its first dot (each entry
    once, as [key: value]), under a heading and after an empty line, or
    nothing when there is no such entry.  Entries under any other first
    word are not printed. *)
Theorem print_all_groups `{ConfigOrder} (allConfig : gmap string string) :
  exists entries : string -> list (string * string),
    (forall p, entries p ≡ₚ
       filter (fun e => hd ""%string (Split "." e.1) = p) (map_to_list allConfig)) /\
    print_all allConfig =
      ["Configuration:"; "================"]%string
      ++ concat
           ((fun p =>
               match entries p with
               | [] => []
               | es =>
                   [""; "[" +:+ ToUpper p +:+ "]"]%string
                   ++ ((fun e => "  " +:+ e.1 +:+ ": " +:+ e.2) <$> es)
               end) <$> order).
Proof.
  exists (fun p =>
    (fun k => (k, default ""%string (allConfig !! k)))
    <$> filter (fun k => hd ""%string (Split "." k) = p) (range_config allConfig)).
  split.
  - intros p. rewrite (range_config_perm allConfig).
    rewrite (entries_of_keys allConfig (fun k => hd ""%string (Split "." k) = p)); [done|].
    apply Forall_forall. intros [k v] Hin. by apply elem_of_map_to_list in Hin.
  - unfold print_all. f_equal. f_equal.
    apply Forall_fmap_ext, Forall_forall. intros p _.
    unfold print_group. rewrite groups_fold, lookup_empty.
    destruct (filter _ (range_config allConfig)) as [|k ks]; [done|].
    simpl. by rewrite <- list_fmap_compose.
Qed.

End MainFacts.

(** ** Generated paths, taken apart again *)

Module NamingMore.
Import GoString Filepath Naming NamingFacts.

Lemma split_sep_nonempty s : split_sep s <> [].
Proof.
  destruct s as [|c r]; simpl; [done|].
  destruct (IsPathSeparator c); [done|]. by destruct (split_sep r).
Qed.

Lemma split_sep_app a b :
  split_sep (a +:+ String "/" b) = split_sep a ++ split_sep b.
Proof.
  induction a as [|c a IH].
  - by rewrite app_nil.
  - rewrite app_cons. simpl. rewrite IH.
    destruct (IsPathSeparator c); [done|].
    pose proof (split_sep_nonempty a). by destruct (split_sep a).
Qed.

Lemma join_sep_snoc l x :
  l <> [] -> join_sep (l ++ [x]) = join_sep l +:+ String "/" x.
Proof.
  induction l as [|y l IH]; [done|]. intros _.
  destruct l as [|z l]; [done|].
  change (join_sep ((y :: z :: l) ++ [x]))
    with (y +:+ String "/" (join_sep ((z :: l) ++ [x]))).
  rewrite IH by done.
  change (join_sep (y :: z :: l)) with (y +:+ String "/" (join_sep (z :: l))).
  by rewrite app_assoc, app_cons.
Qed.

Lemma app_slash_nonempty s x : s +:+ String "/" x <> ""%string.
Proof. by destruct s. Qed.

Lemma join_sep_snoc_nonempty l x : x <> ""%string -> join_sep (l ++ [x]) <> ""%string.
Proof.
  intros Hx. destruct l as [|y l]; [done|].
  rewrite join_sep_snoc by done. apply app_slash_nonempty.
Qed.

Lemma element_nonempty s : element s -> s <> ""%string.
Proof. by intros (c & r & -> & _). Qed.

Lemma element_not_slash s : element s -> all_chars not_slash s = true.
Proof. intros (c & r & -> & Hc & Hr). simpl. by rewrite digit_not_slash, Hr. Qed.

Lemma eqb_empty_false s : s <> ""%string -> String.eqb s "" = false.
Proof. intros Hs. by destruct (String.eqb_spec s ""). Qed.

Lemma Clean_named c r tail :
  Clean (String c r +:+ tail) =
    let rooted := IsPathSeparator c in
    let out := fold_left (clean_step rooted) (split_sep (String c r +:+ tail)) [] in
    let body := join_sep (rev out) in
    if rooted then String "/" body
    else if String.eqb body "" then "."%string else body.
Proof. by rewrite app_cons. Qed.

Lemma Clean_element d : element d -> Clean d = d.
Proof.
  intros Hd. pose proof (element_not_slash d Hd) as Hdn.
  pose proof (element_nonempty d Hd) as Hne.
  pose proof Hd as (c & r & Heq & Hc & Hr).
  rewrite Heq at 1.
  rewrite Clean_unrooted by (by rewrite separator_not_slash, digit_not_slash).
  rewrite <- Heq. rewrite split_sep_last by done.
  cbn [fold_left]. rewrite element_step by done.
  cbn [rev app join_sep]. by rewrite (eqb_empty_false _ Hne).
Qed.

Lemma Clean_two d f :
  element d -> element f -> Clean (d +:+ String "/" f) = d +:+ String "/" f.
Proof.
  intros Hd Hf. pose proof (Join_elements d f Hd Hf) as HJ.
  unfold Join in HJ. rewrite (eqb_empty_false _ (element_nonempty d Hd)) in HJ.
  exact HJ.
Qed.

(** A file that lies in a date directory is stored in the directory
    that [Join] makes of the images directory and the date. *)
Lemma Join_element_under img d f :
  element d -> element f ->
  Join img (d +:+ String "/" f) = Join img d +:+ String "/" f.
Proof.
  intros Hd Hf.
  pose proof (element_not_slash d Hd) as Hdn.
  pose proof (element_not_slash f Hf) as Hfn.
  assert (Hsplit : split_sep (d +:+ String "/" f) = [d; f])
    by (by rewrite split_sep_element, split_sep_last).
  destruct img as [|c r].
  - unfold Join. change (String.eqb "" "") with true. cbn [negb].
    rewrite (eqb_empty_false _ (app_slash_nonempty d f)).
    rewrite (eqb_empty_false _ (element_nonempty d Hd)). cbn [negb].
    by rewrite Clean_two, Clean_element.
  - unfold Join. change (String.eqb (String c r) "") with false. cbn [negb].
    unfold Separator. rewrite !Clean_named. cbv zeta.
    rewrite !split_sep_app, (split_sep_last d), (split_sep_last f) by done.
    rewrite !fold_left_app. cbn [fold_left].
    rewrite !element_step by done.
    set (out := fold_left (clean_step (IsPathSeparator c)) (split_sep (String c r)) []).
    cbn [rev]. rewrite <- List.app_assoc. cbn [app].
    change (rev out ++ [d; f]) with (rev out ++ [d] ++ [f]).
    rewrite List.app_assoc.
    rewrite (join_sep_snoc (rev out ++ [d]) f) by (by destruct (rev out)).
    pose proof (join_sep_snoc_nonempty (rev out) d (element_nonempty d Hd)) as Hne.
    destruct (IsPathSeparator c); [by rewrite app_cons|].
    rewrite (eqb_empty_false _ Hne).
    by rewrite (eqb_empty_false _ (app_slash_nonempty _ f)).
Qed.

(** A leading separator in the relative path changes nothing under a
    directory that is named. *)
Lemma Join_slash img p :
  img <> ""%string -> Join img (String "/" p) = Join img p.
Proof.
  intros Himg. destruct img as [|c r]; [done|].
  unfold Join. change (String.eqb (String c r) "") with false. cbn [negb].
  unfold Separator. rewrite !Clean_named. cbv zeta.
  rewrite !split_sep_app. rewrite !fold_left_app.
  change (split_sep (String "/" p)) with (""%string :: split_sep p).
  reflexivity.
Qed.

(** *** [Ext] and [Base], from the end of the path *)

Lemma list_of_app a b :
  list_ascii_of_string (a +:+ b) = list_ascii_of_string a ++ list_ascii_of_string b.
Proof. induction a as [|c a IH]; [done|]. rewrite app_cons. simpl. by rewrite IH. Qed.

Lemma string_of_app l m :
  string_of_list_ascii (l ++ m) = string_of_list_ascii l +:+ string_of_list_ascii m.
Proof. induction l as [|c l IH]; [done|]. simpl. by rewrite IH, app_cons. Qed.

Lemma all_chars_Forall p s :
  all_chars p s = true -> Forall (fun c => p c = true) (list_ascii_of_string s).
Proof.
  induction s as [|c s IH]; simpl; [by constructor|].
  intros [Hc Hs]%andb_true_iff. constructor; [done|by apply IH].
Qed.

Lemma Ext_loop_dot l : forall X tail,
  Forall (fun c => not_slash c = true) l ->
  Ext_loop (l ++ "."%char :: X) tail <> ""%string.
Proof.
  induction l as [|c l IH]; intros X tail Hl; [done|].
  inversion Hl as [|? ? Hc Hl']; subst. simpl.
  rewrite separator_not_slash, Hc. simpl.
  destruct (code c =? 46)%N; [done|]. by apply IH.
Qed.

Lemma Ext_dotted stem rest :
  all_chars not_slash rest = true -> Ext (stem +:+ String "." rest) <> ""%string.
Proof.
  intros Hrest. unfold Ext. rewrite list_of_app. simpl.
  rewrite rev_app_distr. simpl. rewrite <- List.app_assoc. simpl.
  apply Ext_loop_dot, Forall_rev, all_chars_Forall, Hrest.
Qed.

Lemma Ext_loop_root l : forall tail,
  Ext_loop (l ++ ["/"%char]) tail = Ext_loop l tail.
Proof.
  induction l as [|c l IH]; intros tail; [done|]. simpl.
  destruct (IsPathSeparator c); [done|].
  destruct (code c =? 46)%N; [done|]. apply IH.
Qed.

Lemma Ext_slash p : Ext (String "/" p) = Ext p.
Proof. unfold Ext. simpl. apply Ext_loop_root. Qed.

Lemma Ext_loop_under l : forall X tail,
  Forall (fun c => not_slash c = true) l ->
  Ext_loop (l ++ "/"%char :: X) tail = Ext_loop l tail.
Proof.
  induction l as [|c l IH]; intros X tail Hl; [done|].
  inversion Hl as [|? ? Hc Hl']; subst. simpl.
  rewrite separator_not_slash, Hc. simpl.
  destruct (code c =? 46)%N; [done|]. by apply IH.
Qed.

(** The extension of a path is that of its last element. *)
Lemma Ext_under d f :
  all_chars not_slash f = true -> Ext (d +:+ String "/" f) = Ext f.
Proof.
  intros Hf. unfold Ext. rewrite list_of_app. simpl.
  rewrite rev_app_distr. simpl. rewrite <- List.app_assoc. simpl.
  apply Ext_loop_under, Forall_rev, all_chars_Forall, Hf.
Qed.

Lemma last_element_run l : forall X tail,
  Forall (fun c => not_slash c = true) l ->
  last_element (l ++ "/"%char :: X) tail = string_of_list_ascii (rev l) +:+ tail.
Proof.
  induction l as [|c l IH]; intros X tail Hl; [done|].
  inversion Hl as [|? ? Hc Hl']; subst. simpl.
  rewrite separator_not_slash, Hc. simpl.
  rewrite IH by done. rewrite string_of_app. simpl.
  by rewrite app_assoc, app_cons, app_nil.
Qed.

Lemma Base_under d f :
  f <> ""%string -> all_chars not_slash f = true ->
  Base (d +:+ String "/" f) = f.
Proof.
  intros Hne Hf. unfold Base.
  rewrite (eqb_empty_false _ (app_slash_nonempty d f)).
  rewrite list_of_app. simpl. rewrite rev_app_distr. simpl.
  rewrite <- List.app_assoc. simpl.
  pose proof (List.Forall_rev (all_chars_Forall _ _ Hf)) as Hall.
  assert (Hf' : string_of_list_ascii (rev (rev (list_ascii_of_string f))) = f)
    by (by rewrite rev_involutive, string_of_list_ascii_of_string).
  destruct (rev (list_ascii_of_string f)) as [|c l] eqn:Hrev.
  { simpl in Hf'. by subst f. }
  pose proof Hall as [Hc Hl]%List.Forall_cons_iff.
  change ((c :: l) ++ "/"%char :: rev (list_ascii_of_string d))
    with (c :: (l ++ "/"%char :: rev (list_ascii_of_string d))).
  cbn [strip_seps]. rewrite separator_not_slash, Hc. cbn [negb].
  change (c :: (l ++ "/"%char :: rev (list_ascii_of_string d)))
    with ((c :: l) ++ "/"%char :: rev (list_ascii_of_string d)).
  rewrite last_element_run by done.
  rewrite Hf'. rewrite (eqb_empty_false (f +:+ "")); [|by destruct f].
  clear. induction f as [|c f IH]; [done|]. by rewrite app_cons, IH.
Qed.

Section Generated.
Context `{UnicodeLower}.

Lemma GenerateFileName_shape now rnd originalName :
  valid_clock now -> valid_rand rnd ->
  element (GenerateFileName now rnd originalName) /\
  exists stem rest,
    GenerateFileName now rnd originalName = stem +:+ String "." rest /\
    all_chars not_slash rest = true.
Proof.
  intros Hv Hrnd.
  pose proof (Format_date_digits now Hv) as Hday.
  pose proof (time_of_day_digits now Hv) as Htod.
  pose proof (random_hex now rnd Hv Hrnd) as Hhex.
  destruct (extension_spec originalName) as (_ & _ & _ & rest & Hext & Hrest).
  assert (Hname : GenerateFileName now rnd originalName
            = Format_date now +:+
              ("-" +:+ ((appendInt (Hour now) 2 +:+ appendInt (Minute now) 2
                         +:+ appendInt (Second now) 2)
                        +:+ fmt_int 10 3 (Z.quot (Nanosecond now) 1000000))
               +:+ "-" +:+ fmt_x_bytes 32
                             match rnd with
                             | RandOk b => b
                             | RandErr => fmt_int 16 16 (UnixNano now)
                             end
               +:+ extension originalName)).
  { unfold GenerateFileName, Format_timestamp.
    rewrite !app_assoc, ?app_cons, ?app_nil. reflexivity. }
  split.
  - rewrite Hname. apply (digits_element 7); [exact Hday|].
    destruct Htod as [_ Htod]. destruct Hhex as [_ Hhex].
    rewrite ?app_cons, ?app_nil.
    apply not_slash_cons; [done|].
    apply not_slash_app;
      [by apply (all_chars_impl is_digit), Htod; apply digit_not_slash|].
    apply not_slash_cons; [done|].
    apply not_slash_app;
      [by apply (all_chars_impl is_lower_hex), Hhex; apply hex_not_slash|].
    rewrite Hext. by apply not_slash_cons.
  - rewrite Hname, Hext. eexists _, rest. split; [|exact Hrest].
    rewrite <- !app_assoc. reflexivity.
Qed.

Lemma GenerateFilePath_joined now1 now2 rnd originalName :
  valid_clock now1 -> valid_clock now2 -> valid_rand rnd ->
  GenerateFilePath now1 now2 rnd originalName
  = GenerateDateDir now1 +:+ String "/" (GenerateFileName now2 rnd originalName).
Proof.
  intros Hv1 Hv2 Hrnd. unfold GenerateFilePath.
  apply Join_elements.
  - apply (digits_is_element 7), Format_date_digits, Hv1.
  - by apply GenerateFileName_shape.
Qed.

(** X14.  The path made for an upload comes apart again: its date
    directory is the one [GenerateDateDir] named, its base name is the
    generated file name, it has an extension, and under any images
    directory the file is stored directly inside the directory that
    [Join] makes of the images directory and the date (the one the
    upload handler creates and the sweeper tries to remove). *)
Theorem generated_path_parts now1 now2 rnd originalName imagesDir :
  valid_clock now1 -> valid_clock now2 -> valid_rand rnd ->
  let p := GenerateFilePath now1 now2 rnd originalName in
  ParseDateFromPath p = GenerateDateDir now1 /\
  Base p = GenerateFileName now2 rnd originalName /\
  Ext p <> ""%string /\
  GetStoragePath imagesDir p
  = Join imagesDir (ParseDateFromPath p) +:+ "/" +:+ Base p.
Proof.
  intros Hv1 Hv2 Hrnd p. subst p.
  rewrite GenerateFilePath_joined by done.
  destruct (GenerateFileName_shape now2 rnd originalName Hv2 Hrnd)
    as (Hf & stem & rest & Hname & Hrest).
  pose proof (digits_is_element 7 _ (Format_date_digits now1 Hv1)) as Hd.
  pose proof (element_not_slash _ Hf) as Hfn.
  assert (Hdate : ParseDateFromPath
            (GenerateDateDir now1 +:+ String "/" (GenerateFileName now2 rnd originalName))
          = GenerateDateDir now1).
  { unfold ParseDateFromPath, ToSlash.
    by rewrite split_sep_element by (by apply element_not_slash). }
  assert (Hbase : Base
            (GenerateDateDir now1 +:+ String "/" (GenerateFileName now2 rnd originalName))
          = GenerateFileName now2 rnd originalName)
    by (apply Base_under; [by apply element_nonempty|done]).
  split; [exact Hdate|]. split; [exact Hbase|]. split.
  - rewrite Ext_under by done. rewrite Hname. by apply Ext_dotted.
  - rewrite Hdate, Hbase. unfold GetStoragePath.
    by apply Join_element_under.
Qed.
End Generated.

Lemma generated_path_parts_witness :
  let p := GenerateFilePath sample_clock sample_clock RandErr "photo.jpg" in
  p = "20260131/20260131-143022123-31383866643733396465356133393135.jpg"%string /\
  ParseDateFromPath p = "20260131"%string /\
  GetStoragePath "./Images" p
  = Join "./Images" (ParseDateFromPath p) +:+ "/" +:+ Base p.
Proof.
  intros p. split; [vm_compute; reflexivity|].
  pose proof (generated_path_parts sample_clock sample_clock RandErr "photo.jpg"
                "./Images" sample_clock_valid sample_clock_valid I) as (Hd & _ & _ & Hs).
  split; [exact Hd|exact Hs].
Defined.

End NamingMore.

(** ** The HTTP handlers *)

Module HttpdFacts.
Import GoString Filepath Naming Db Config Httpd Snapshot DbFacts NamingFacts DbMore
  MainFacts NamingMore.

(** *** Uploads *)

Section Upload.
Context {World : Type} `{Host World} `{UnicodeLower}.

(** X15.  An upload that is not answered with success leaves the
    metadata store as it was.  A request that is not a POST, or that
    does not carry the configured API key, is answered 405 or 401 and
    touches neither the store nor the directory tree. *)
Theorem upload_refused (now1 now2 : Clock) (rnd : RandRead) (uploadedAt : Time)
    (r : Request) (s : Server) (d : Database) (w : World) :
  let out := handleUpload now1 now2 rnd uploadedAt r s d w in
  ((forall p u e, out.1.1 <> Uploaded p u e) -> out.1.2 = d) /\
  (Method r <> "POST"%string ->
   out = (Error "Method not allowed" StatusMethodNotAllowed, d, w)) /\
  (Method r = "POST"%string -> X_API_Key r <> Auth_APIKey (cfg s) ->
   out = (JSONError StatusUnauthorized "Invalid or missing API key", d, w)).
Proof.
  intros out. subst out. unfold handleUpload. split; [|split].
  - destruct (negb (Method r =? "POST")%string); [done|].
    destruct (negb (X_API_Key r =? Auth_APIKey (cfg s))%string); [done|].
    destruct (ParseMultipartForm r); [|done].
    destruct (FormFile r) as [[Filename content]|e]; [|done].
    destruct (if negb (FormValue_ttl r =? "")%string then Atoi (FormValue_ttl r)
              else (Storage_DefaultTTL (cfg s), num_ok)) as [ttl []]; try done.
    destruct ((ttl <? 1) || (Storage_MaxTTL (cfg s) <? ttl)); [done|].
    destruct (os_MkdirAll _ w) as [w1 []]; [|done].
    destruct (os_Create _ w1) as [w2 []]; [|done].
    destruct (io_Copy _ content w2) as [w3 [size []]]; [|done].
    simpl. intros Hno. by destruct (Hno _ _ _ eq_refl).
  - intros Hm. by destruct (String.eqb_spec (Method r) "POST").
  - intros -> Hk. simpl.
    by destruct (String.eqb_spec (X_API_Key r) (Auth_APIKey (cfg s))).
Qed.

Lemma handleUpload_success (now1 now2 : Clock) (rnd : RandRead) (uploadedAt : Time)
    (r : Request) (s : Server) (d d' : Database) (w w' : World)
    (p u : string) (e : Time) :
  handleUpload now1 now2 rnd uploadedAt r s d w = (Uploaded p u e, d', w') ->
  Method r = "POST"%string /\ X_API_Key r = Auth_APIKey (cfg s) /\
  exists Filename content ttl size,
    FormFile r = inl (Filename, content) /\
    (FormValue_ttl r = ""%string -> ttl = Storage_DefaultTTL (cfg s)) /\
    (FormValue_ttl r <> ""%string -> Atoi (FormValue_ttl r) = (ttl, num_ok)) /\
    1 <= ttl <= Storage_MaxTTL (cfg s) /\
    p = GenerateFilePath now1 now2 rnd Filename /\
    u = ("/files/" +:+ p)%string /\
    e = expiry uploadedAt ttl /\
    d' = (SaveFileMetadata
            {| ID := 0; FileName := Base p; OriginalName := Filename;
               FilePath := p; FileSize := size; UploadedAt := uploadedAt;
               ExpiresAt := e; TTL := ttl; RemoteIP := getRemoteIP r |} d).1.2.
Proof.
  unfold handleUpload.
  destruct (String.eqb_spec (Method r) "POST") as [Hm|]; [|done]. simpl.
  destruct (String.eqb_spec (X_API_Key r) (Auth_APIKey (cfg s))) as [Hk|]; [|done].
  simpl.
  destruct (ParseMultipartForm r); [|done].
  destruct (FormFile r) as [[Filename content]|]; [|done].
  destruct (if negb (FormValue_ttl r =? "")%string then Atoi (FormValue_ttl r)
            else (Storage_DefaultTTL (cfg s), num_ok)) as [ttl err] eqn:Httl.
  destruct err; try done.
  destruct (Z.ltb_spec ttl 1) as [|Hlo]; [done|].
  destruct (Z.ltb_spec (Storage_MaxTTL (cfg s)) ttl) as [|Hhi]; [done|]. simpl.
  destruct (os_MkdirAll _ w) as [w1 []]; [|done].
  destruct (os_Create _ w1) as [w2 []]; [|done].
  destruct (io_Copy _ content w2) as [w3 [size []]]; [|done].
  simpl. intros [= <- <- <- <- <-].
  split; [done|]. split; [done|].
  exists Filename, content, ttl, size.
  split; [done|]. split.
  { intros Hempty. rewrite Hempty in Httl. simpl in Httl. by inversion Httl. }
  split.
  { intros Hne. by destruct (String.eqb_spec (FormValue_ttl r) ""). }
  split; [lia|]. done.
Qed.

(** X16.  An upload that is answered with success was a POST with the
    configured API key; its TTL, the [ttl] field read by [Atoi] or the
    default when the field is empty, lies between 1 and the configured
    maximum; the answer names the generated path; and the store has
    gained one record, under the next id, with that path, its base
    name, the TTL and the expiry [uploadedAt.Add(ttl hours)].  When the
    maximum is at most 2562047 hours the expiry is the upload time plus
    [ttl] hours and lies after it; a TTL from 2562048 to 5124095 hours
    (the product leaves 64 bits) gives an expiry before the upload. *)
Theorem upload_accepted (now1 now2 : Clock) (rnd : RandRead) (uploadedAt : Time)
    (r : Request) (s : Server) (d d' : Database) (w w' : World)
    (p u : string) (e : Time) :
  handleUpload now1 now2 rnd uploadedAt r s d w = (Uploaded p u e, d', w') ->
  Method r = "POST"%string /\ X_API_Key r = Auth_APIKey (cfg s) /\
  exists Filename content ttl size,
    FormFile r = inl (Filename, content) /\
    (FormValue_ttl r = ""%string -> ttl = Storage_DefaultTTL (cfg s)) /\
    (FormValue_ttl r <> ""%string -> Atoi (FormValue_ttl r) = (ttl, num_ok)) /\
    1 <= ttl <= Storage_MaxTTL (cfg s) /\
    p = GenerateFilePath now1 now2 rnd Filename /\
    u = ("/files/" +:+ p)%string /\
    e = expiry uploadedAt ttl /\
    Files (data d') =
      <[NextID (data d) :=
          {| ID := NextID (data d); FileName := Base p; OriginalName := Filename;
             FilePath := p; FileSize := size; UploadedAt := uploadedAt;
             ExpiresAt := e; TTL := ttl; RemoteIP := getRemoteIP r |}]>
        (Files (data d)) /\
    NextID (data d') = wrap64 (NextID (data d) + 1) /\
    Db.Config (data d') = Db.Config (data d) /\
    (Storage_MaxTTL (cfg s) <= 2562047 ->
     e = uploadedAt + ttl * 3600000000000 /\ uploadedAt < e) /\
    (2562048 <= ttl <= 5124095 -> e < uploadedAt).
Proof.
  intros Heq.
  destruct (handleUpload_success _ _ _ _ _ _ _ _ _ _ _ _ _ Heq)
    as (Hm & Hk & Filename & content & ttl & size
        & Hfile & Hdefault & Hfield & Httl & Hp & Hu & He & Hd).
  split; [done|]. split; [done|].
  exists Filename, content, ttl, size.
  do 7 (split; [done|]).
  split; [by rewrite Hd|]. split; [by rewrite Hd|]. split; [by rewrite Hd|].
  assert (Hhour : Hour = 3600000000000) by reflexivity.
  rewrite He. unfold expiry, Add. split.
  - intros Hmax. rewrite wrap64_id by (unfold MinInt64, MaxInt64; lia). lia.
  - intros Hbig. rewrite wrap64_above by (unfold MaxInt64; lia). lia.
Qed.
End Upload.

(** *** Downloads *)

Lemma IsPathSeparator_eqb c : IsPathSeparator c = Ascii.eqb c "/".
Proof.
  unfold IsPathSeparator. destruct (Ascii.eqb_spec c "/") as [->|Hc]; [done|].
  apply N.eqb_neq. intros Hcode. apply Hc.
  rewrite <- (ascii_N_embedding c). unfold code in Hcode. by rewrite Hcode.
Qed.

Lemma Split_slash s : Split "/" s = split_sep s.
Proof.
  induction s as [|c r IH]; [done|]. simpl.
  by rewrite IsPathSeparator_eqb, IH.
Qed.

Lemma substring_all s : String.substring 0 (String.length s) s = s.
Proof. induction s as [|c s IH]; [done|]. simpl. by rewrite IH. Qed.

Lemma TrimPrefix_app pre s : TrimPrefix (pre +:+ s) pre = s.
Proof.
  unfold TrimPrefix.
  assert (Hp : HasPrefix (pre +:+ s) pre = true) by (apply HasPrefix_app; by exists s).
  rewrite Hp. clear Hp. induction pre as [|c pre IH].
  - rewrite app_nil. simpl. rewrite Nat.sub_0_r. apply substring_all.
  - rewrite app_cons. simpl. exact IH.
Qed.

Lemma digit_not_f c : is_digit c = true -> Ascii.eqb c "f" = false.
Proof.
  intros Hc. destruct (Ascii.eqb_spec c "f") as [->|]; [|done].
  by vm_compute in Hc.
Qed.

Section Download.
Context {World : Type} `{Host World} `{UnicodeLower}.

(** X17.  A stored file is served under two addresses.  For the path
    [p] made for an upload and an images directory that is named, a GET
    of [/p] is recognised by [handleCatchAll] as direct access and gets
    the answer that [handleFiles] gives to a GET of [/files/p]: the
    same file of the directory tree with the same content type, or the
    same refusal. *)
Theorem direct_access now1 now2 rnd originalName (r1 r2 : Request)
    (s : Server) (w : World) :
  valid_clock now1 -> valid_clock now2 -> valid_rand rnd ->
  Storage_ImagesDir (cfg s) <> ""%string ->
  let p := GenerateFilePath now1 now2 rnd originalName in
  URL_Path r1 = String "/" p -> URL_Path r2 = ("/files/" +:+ p)%string ->
  Method r1 = Method r2 ->
  handleCatchAll r1 s w = handleFiles r2 s w /\
  (Method r2 = "GET"%string ->
   handleFiles r2 s w = Error "File not found" StatusNotFound \/
   exists contentType,
     handleFiles r2 s w
     = ServeFile contentType (GetStoragePath (Storage_ImagesDir (cfg s)) p)).
Proof.
  intros Hv1 Hv2 Hrnd Himg p Hu1 Hu2 Hm. subst p.
  destruct (GenerateFileName_shape now2 rnd originalName Hv2 Hrnd)
    as (Hf & stem & rest & Hname & Hrest).
  pose proof (Format_date_digits now1 Hv1) as Hdate.
  change (Format_date now1) with (GenerateDateDir now1) in Hdate.
  pose proof (digits_is_element 7 _ Hdate) as Hd.
  pose proof (element_not_slash _ Hd) as Hdn.
  pose proof (element_not_slash _ Hf) as Hfn.
  rewrite GenerateFilePath_joined in * by done.
  set (date := GenerateDateDir now1) in *.
  set (name := GenerateFileName now2 rnd originalName) in *.
  assert (Hext : Ext name <> ""%string) by (rewrite Hname; by apply Ext_dotted).
  assert (Hfiles : handleFiles r1 s w = handleFiles r2 s w).
  { unfold handleFiles. rewrite Hm, Hu1, Hu2.
    rewrite TrimPrefix_app.
    assert (Hmiss : TrimPrefix (String "/" (date +:+ String "/" name)) "/files/"
                    = String "/" (date +:+ String "/" name)).
    { unfold TrimPrefix.
      destruct Hd as (c & rd & Hdeq & Hc & _). rewrite Hdeq, app_cons.
      cbn [HasPrefix]. by rewrite (digit_not_f c Hc), andb_false_r. }
    rewrite Hmiss. unfold GetStoragePath.
    rewrite Join_slash by done. rewrite Ext_slash.
    change (String "/" (date +:+ String "/" name) =? "")%string with false.
    by rewrite (eqb_empty_false _ (app_slash_nonempty date name)). }
  split.
  - rewrite <- Hfiles. unfold handleCatchAll. rewrite Hu1.
    assert (Hroot : (String "/" (date +:+ String "/" name) =? "/")%string = false).
    { apply String.eqb_neq. intros [= Heq]. by apply app_slash_nonempty in Heq. }
    rewrite Hroot.
    change (String "/" (date +:+ String "/" name))
      with ("/" +:+ (date +:+ String "/" name))%string.
    rewrite TrimPrefix_app, Split_slash.
    rewrite split_sep_element, split_sep_last by done.
    destruct Hdate as [Hlen Hdig]. unfold isAllDigits.
    rewrite Hlen, Hdig. simpl.
    by rewrite (eqb_empty_false _ Hext).
  - intros Hget. unfold handleFiles. rewrite Hget, Hu2, TrimPrefix_app. simpl.
    rewrite (eqb_empty_false _ (app_slash_nonempty date name)).
    destruct (os_Stat _ w); [right; by eexists|by left|right; by eexists].
Qed.
End Download.

(** *** Sessions *)

(** X18.  After a login with the configured password at time [now0],
    a request that carries the token is let through by [checkSession]
    exactly up to [now0] plus the session timeout (in seconds, here
    from 0 to 9223372036, so that the duration stays within 64 bits);
    a login with another password leaves the session table as it
    was. *)
Theorem session_window (now0 now : Time) (token : string)
    (login r : Request) (s : Server) :
  Method login = "POST"%string ->
  0 <= Security_SessionTimeout (cfg s) <= 9223372036 ->
  Cookie_session_token r = Some token ->
  (Body_password login = Some (Auth_ListPassword (cfg s)) ->
   (handleLogin now0 token login s).1 = Success /\
   (checkSession now r (handleLogin now0 token login s).2 = None <->
    now <= now0 + Security_SessionTimeout (cfg s) * 1000000000)) /\
  (Body_password login <> Some (Auth_ListPassword (cfg s)) ->
   (handleLogin now0 token login s).2 = s).
Proof.
  intros Hm Ht Hcookie. unfold handleLogin. rewrite Hm. simpl. split.
  - intros ->. rewrite String.eqb_refl. simpl. split; [done|].
    unfold checkSession. rewrite Hcookie. simpl. rewrite lookup_insert_eq.
    unfold After, Add, Second.
    rewrite wrap64_id by (unfold MinInt64, MaxInt64; lia).
    destruct (Z.ltb_spec (now0 + Security_SessionTimeout (cfg s) * 1000000000) now);
      split; (done || lia).
  - intros Hp. destruct (Body_password login) as [password|]; [|done].
    destruct (String.eqb_spec password (Auth_ListPassword (cfg s))) as [->|]; done.
Qed.

(** X19.  [cleanupSessions] is not seen by [checkSession]: a turn of
    its loop at an earlier (or the same) clock reading removes only
    sessions that [checkSession] refuses anyway, with the same answer. *)
Theorem cleanupSessions_unseen (now' now : Time) (r : Request) (s : Server) :
  now' <= now ->
  checkSession now r (cleanupSessions_turn now' s) = checkSession now r s.
Proof.
  intros Hle. unfold checkSession, cleanupSessions_turn. simpl.
  destruct (Cookie_session_token r) as [value|]; [|done].
  destruct (sessions s !! value) as [expiresAt|] eqn:Hl.
  - destruct (After now' expiresAt) eqn:Hgone.
    + rewrite (proj2 (map_lookup_filter_None _ _ _)).
      * unfold After in *. apply Z.ltb_lt in Hgone.
        destruct (Z.ltb_spec expiresAt now); [done|lia].
      * right. intros x Hx. rewrite Hl in Hx. inversion Hx; subst. simpl.
        by rewrite Hgone.
    + by rewrite (map_lookup_filter_Some_2 _ _ _ _ Hl Hgone).
  - rewrite (proj2 (map_lookup_filter_None _ _ _)); [done|by left].
Qed.

(** *** [formatBytes] *)

Lemma pow1024_succ k : 0 <= k -> 1024 ^ (k + 1) = 1024 * 1024 ^ k.
Proof. intros Hk. rewrite Z.pow_add_r, Z.pow_1_r by lia. lia. Qed.

Lemma formatBytes_loop_spec fuel : forall n div exp,
  1 <= n < 1024 ^ Z.of_nat fuel -> 0 < div -> div * n <= MaxInt64 ->
  exists k : nat,
    Cleanup.formatBytes_loop fuel n div exp
    = Some (div * 1024 ^ Z.of_nat k, (exp + k)%nat) /\
    1024 ^ Z.of_nat k <= n < 1024 ^ (Z.of_nat k + 1).
Proof.
  induction fuel as [|fuel IH]; intros n div exp Hn Hdiv Hmax.
  - simpl in Hn. lia.
  - replace (Z.of_nat (S fuel)) with (Z.of_nat fuel + 1) in Hn by lia.
    rewrite pow1024_succ in Hn by lia.
    cbn [Cleanup.formatBytes_loop].
    destruct (Z.leb_spec 1024 n) as [Hbig|Hsmall].
    + rewrite Z.quot_div_nonneg by lia.
      assert (Hq1 : 1 <= n / 1024) by (apply Z.div_le_lower_bound; lia).
      assert (Hq2 : n / 1024 < 1024 ^ Z.of_nat fuel)
        by (apply Z.div_lt_upper_bound; lia).
      pose proof (Z.mul_div_le n 1024 ltac:(lia)) as Hq3.
      assert (Hq4 : n < 1024 * (n / 1024 + 1))
        by (pose proof (Z.mod_pos_bound n 1024 ltac:(lia));
            pose proof (Z.div_mod n 1024 ltac:(lia)); lia).
      assert (Hd : div * 1024 <= MaxInt64) by nia.
      rewrite wrap64_id by (unfold MinInt64, MaxInt64 in *; lia).
      destruct (IH (n / 1024) (div * 1024) (S exp)) as (k & Hloop & Hlo & Hhi);
        [lia|lia|nia|].
      exists (S k). rewrite Hloop.
      replace (Z.of_nat (S k)) with (Z.of_nat k + 1) by lia.
      rewrite pow1024_succ in Hhi by lia.
      rewrite !pow1024_succ by lia.
      split.
      * f_equal. f_equal; lia.
      * lia.
    + exists 0%nat. rewrite Z.mul_1_r, Nat.add_0_r. split; [done|].
      simpl. lia.
Qed.

(** X20.  [formatBytes] on a count of at least 1024 (and at most the
    largest [int64]): the loop ends, the index into ["KMGTPE"] is at
    most 5, so that no index is out of range, and the divisor is the
    power of 1024 of that unit, with [div <= b < 1024 * div], computed
    without leaving 64 bits; the two copies of the function agree
    there.  Below 1024 the copy of package cleanup prints ["0 B"]
    whatever the count, that of package httpd the count itself. *)
Theorem formatBytes_units (b : Z) :
  (1024 <= b <= MaxInt64 ->
   exists (exp : nat) (c : ascii),
     Cleanup.formatBytes b = Some (Cleanup.Scaled b (1024 ^ (Z.of_nat exp + 1)) c) /\
     Httpd.formatBytes b = Cleanup.formatBytes b /\
     (exp <= 5)%nat /\ String.get exp "KMGTPE" = Some c /\
     1024 ^ (Z.of_nat exp + 1) <= b < 1024 * 1024 ^ (Z.of_nat exp + 1)) /\
  (b < 1024 ->
   Cleanup.formatBytes b = Some (Cleanup.Plain "0 B") /\
   Httpd.formatBytes b = Some (Cleanup.Plain (Itoa b +:+ " B"))).
Proof.
  unfold Cleanup.formatBytes, Httpd.formatBytes. split.
  - intros Hb. destruct (Z.ltb_spec b 1024) as [|_]; [lia|].
    unfold Cleanup.scaled. rewrite Z.quot_div_nonneg by lia.
    assert (Hq1 : 1 <= b / 1024) by (apply Z.div_le_lower_bound; lia).
    assert (Hq2 : b / 1024 < 2 ^ 53)
      by (apply Z.div_lt_upper_bound; unfold MaxInt64 in Hb; lia).
    pose proof (Z.mul_div_le b 1024 ltac:(lia)) as Hq3.
    destruct (formatBytes_loop_spec 64 (b / 1024) 1024 0) as (k & Hloop & Hlo & Hhi).
    { split; [lia|]. eapply Z.lt_trans; [exact Hq2|]. by vm_compute. }
    { lia. }
    { lia. }
    rewrite Hloop. simpl (0 + k)%nat.
    assert (Hk : (k <= 5)%nat).
    { destruct (Nat.le_gt_cases k 5) as [|Hk]; [done|].
      assert (1024 ^ 6 <= 1024 ^ Z.of_nat k) by (apply Z.pow_le_mono_r; lia).
      assert (1024 ^ 6 = 2 ^ 60) by reflexivity. lia. }
    assert (Hget : exists c, String.get k "KMGTPE" = Some c).
    { do 6 (destruct k as [|k]; [by eexists|]). lia. }
    destruct Hget as [c Hc]. exists k, c. rewrite Hc.
    rewrite pow1024_succ in * by lia.
    split; [done|]. split; [done|].
    split; [done|]. split; [done|].
    assert (b < 1024 * (b / 1024 + 1))
      by (pose proof (Z.mod_pos_bound b 1024 ltac:(lia));
          pose proof (Z.div_mod b 1024 ltac:(lia)); lia).
    lia.
  - intros Hb. by destruct (Z.ltb_spec b 1024) as [_|]; [|lia].
Qed.

(** *** The handlers on sample requests *)

Lemma upload_accepted_witness :
  let out := @handleUpload unit willing ascii_names sample_clock sample_clock RandErr
               1000 (request "POST" "/upload") server fresh tt in
  out.1.1 = Uploaded
    "20260131/20260131-143022123-31383866643733396465356133393135.jpg"
    "/files/20260131/20260131-143022123-31383866643733396465356133393135.jpg"
    3600000001000 /\
  NextID (data out.1.2) = 2.
Proof.
  intros out.
  assert (Heq : out = (Uploaded
    "20260131/20260131-143022123-31383866643733396465356133393135.jpg"
    "/files/20260131/20260131-143022123-31383866643733396465356133393135.jpg"
    3600000001000, out.1.2, tt)) by (vm_compute; reflexivity).
  destruct (@upload_accepted unit willing ascii_names _ _ _ _ _ _ _ _ _ _ _ _ _ Heq)
    as (_ & _ & Filename & content & ttl & size & _ & _ & _ & _ & _ & _ & _ & _
        & Hnext & _).
  split; [by rewrite Heq|]. rewrite Hnext. reflexivity.
Defined.

Lemma direct_access_witness :
  let p := "20260131/20260131-143022123-31383866643733396465356133393135.jpg"%string in
  @handleCatchAll unit willing (request "GET" (String "/" p)) server tt
  = @handleFiles unit willing (request "GET" ("/files/" +:+ p)) server tt.
Proof.
  intros p.
  refine (proj1 (@direct_access unit willing ascii_names sample_clock sample_clock
            RandErr "photo.jpg" (request "GET" (String "/" p))
            (request "GET" ("/files/" +:+ p)) server tt
            sample_clock_valid sample_clock_valid I _ _ _ _)).
  - vm_compute. discriminate.
  - vm_compute. reflexivity.
  - vm_compute. reflexivity.
  - reflexivity.
Defined.

Lemma session_window_witness :
  (checkSession 300000000000 (request "GET" "/api/files")
     (handleLogin 0 "token" (request "POST" "/api/login") server).2 = None <->
   300000000000 <= 0 + Security_SessionTimeout (cfg server) * 1000000000).
Proof.
  refine (proj2 (proj1 (session_window 0 300000000000 "token"
            (request "POST" "/api/login") (request "GET" "/api/files") server
            _ _ _) _)).
  - reflexivity.
  - vm_compute. split; discriminate.
  - reflexivity.
  - vm_compute. reflexivity.
Defined.

Lemma cleanupSessions_unseen_witness :
  checkSession 20 (request "GET" "/api/files")
    (cleanupSessions_turn 10 {| cfg := cfg server; sessions := {[ "token"%string := 5 ]} |})
  = Some (JSONError StatusUnauthorized "Session expired").
Proof.
  rewrite (cleanupSessions_unseen 10 20); [|lia].
  vm_compute. reflexivity.
Defined.
End HttpdFacts.

(** ** The sweeper without the uniqueness of paths, and after an upload *)

Module CleanupMore.
Import GoString Filepath Naming Cleanup Db Config Httpd Snapshot DbFacts CleanupFacts
  NamingFacts HttpdFacts.

Section Sweep.
Context {World : Type} `{Storage World} `{MapOrder}.

Lemma forget_kept d file id m :
  Files (data (forget d file)) !! id = Some m -> Files (data d) !! id = Some m.
Proof.
  unfold forget, DeleteFileMetadata.
  destruct (find _ _) as [[id0 m0]|]; simpl; [|done].
  intros Hl. apply lookup_delete_Some in Hl. tauto.
Qed.

Lemma forget_other d file id m :
  Files (data d) !! id = Some m -> FilePath m <> FilePath file ->
  Files (data (forget d file)) !! id = Some m.
Proof.
  intros Hl Hp. unfold forget, DeleteFileMetadata.
  destruct (find _ _) as [[id0 m0]|] eqn:Hf; simpl; [|done].
  apply find_path_Some in Hf as [Hl0 Hp0].
  rewrite lookup_delete_ne; [done|]. intros ->. congruence.
Qed.

Lemma forget_rest d file :
  NextID (data (forget d file)) = NextID (data d) /\
  Db.Config (data (forget d file)) = Db.Config (data d) /\
  filePath (forget d file) = filePath d.
Proof.
  unfold forget, DeleteFileMetadata. by destruct (find _ _) as [[id0 m0]|].
Qed.

Lemma forget_all files : forall d,
  (forall id m, Files (data (fold_left forget files d)) !! id = Some m ->
                Files (data d) !! id = Some m) /\
  (forall id m, Files (data d) !! id = Some m ->
                FilePath m ∉ FilePath <$> files ->
                Files (data (fold_left forget files d)) !! id = Some m) /\
  NextID (data (fold_left forget files d)) = NextID (data d) /\
  Db.Config (data (fold_left forget files d)) = Db.Config (data d) /\
  filePath (fold_left forget files d) = filePath d.
Proof.
  induction files as [|f files IH]; intros d; [done|]. simpl.
  destruct (IH (forget d f)) as (Hkept & Hother & Hn & Hc & Hp).
  destruct (forget_rest d f) as (Hn' & Hc' & Hp').
  split; [|split; [|split; [|split]]]; try congruence.
  - intros id m Hl. by apply (forget_kept d f), Hkept.
  - intros id m Hl Hnot. apply not_elem_of_cons in Hnot as [Hne Hnot].
    apply Hother; [|done]. by apply forget_other.
Qed.

(** X21.  A sweep only removes records, whatever the directory tree
    answers and whether or not paths are unique: every record of the
    store after the sweep was there before under the same id, the
    configuration, the next id and the snapshot path are as before, and
    a record whose path no expired record has is kept. *)
Theorem runCleanup_only_removes cfg now d (w : World) :
  let swept := (runCleanup cfg now d w).1.1 in
  (forall id m, Files (data swept) !! id = Some m -> Files (data d) !! id = Some m) /\
  (forall id m,
     Files (data d) !! id = Some m ->
     (forall id' m', Files (data d) !! id' = Some m' -> ExpiresAt m' < now ->
                     FilePath m' <> FilePath m) ->
     Files (data swept) !! id = Some m) /\
  NextID (data swept) = NextID (data d) /\
  Db.Config (data swept) = Db.Config (data d) /\
  filePath swept = filePath d.
Proof.
  intros swept. subst swept. unfold runCleanup.
  pose proof (expired_elem now d) as Hexp.
  destruct (GetExpiredFiles now d) as [expired err] eqn:Hget.
  assert (err = nil) as -> by (by inversion Hget).
  simpl in Hexp.
  destruct (Nat.eqb (length expired) 0); simpl; [done|].
  rewrite sweep_db. simpl.
  destruct (forget_all expired d) as (Hkept & Hother & Hn & Hc & Hp).
  split; [done|]. split; [|done].
  intros id m Hl Hfree. apply Hother; [done|].
  intros Hin. apply list_elem_of_fmap in Hin as (m' & Hpath & Hin).
  apply Hexp in Hin as (id' & Hl' & Hlt). by apply (Hfree id' m').
Qed.
End Sweep.

(** *** From the upload to the sweep *)

Lemma paths_unique_insert (files : gmap Z FileMetadata) id x :
  paths_unique files -> files !! id = None ->
  (forall i m, files !! i = Some m -> FilePath m <> FilePath x) ->
  paths_unique (<[id := x]> files).
Proof.
  intros Hu Hnone Hfresh. unfold paths_unique in *.
  rewrite map_to_list_insert by done. simpl. apply NoDup_cons. split; [|done].
  intros Hin. apply list_elem_of_fmap in Hin as ([i m] & Hp & Hin).
  apply elem_of_map_to_list in Hin. by apply (Hfresh i m).
Qed.

Section Lifecycle.
Context {World : Type} `{Host World} `{Storage World} `{UnicodeLower} `{MapOrder}.

(** X22.  From the upload to the sweep.  After an upload answered with
    success, on a store whose paths are unique, in which the generated
    path is new and the next id is free: a sweep at a time after the
    expiry named in the answer removes the record of the upload and
    logs its deletion; a sweep at an earlier time, or at the expiry
    itself, keeps the record, with the path and the expiry of the
    answer. *)
Theorem upload_then_sweep (now1 now2 : Clock) (rnd : RandRead) (uploadedAt : Time)
    (r : Request) (s : Server) (d d' : Database) (w w' : World)
    (p u : string) (e : Time) (cfg : Cleanup.Config) (now : Time) (w0 : World) :
  handleUpload now1 now2 rnd uploadedAt r s d w = (Uploaded p u e, d', w') ->
  paths_unique (Files (data d)) ->
  (forall id m, Files (data d) !! id = Some m -> FilePath m <> p) ->
  Files (data d) !! NextID (data d) = None ->
  let swept := runCleanup cfg now d' w0 in
  (e < now ->
   Files (data swept.1.1) !! NextID (data d) = None /\
   exists originalName size, LogDeleted p originalName size ∈ swept.2) /\
  (now <= e ->
   exists m, Files (data swept.1.1) !! NextID (data d) = Some m /\
             FilePath m = p /\ ExpiresAt m = e).
Proof.
  intros Heq Hu Hfresh Hfree swept.
  destruct (handleUpload_success _ _ _ _ _ _ _ _ _ _ _ _ _ Heq)
    as (_ & _ & Filename & content & ttl & size & _ & _ & _ & _ & _ & _ & _ & Hd).
  set (meta := {| ID := NextID (data d); FileName := Base p; OriginalName := Filename;
                  FilePath := p; FileSize := size; UploadedAt := uploadedAt;
                  ExpiresAt := e; TTL := ttl; RemoteIP := getRemoteIP r |}).
  assert (Hfiles : Files (data d') = <[NextID (data d) := meta]> (Files (data d)))
    by (by rewrite Hd).
  assert (Hl : Files (data d') !! NextID (data d) = Some meta)
    by (rewrite Hfiles; apply lookup_insert_eq).
  assert (Hu' : paths_unique (Files (data d')))
    by (rewrite Hfiles; by apply paths_unique_insert).
  split.
  - intros Hlt. split.
    + destruct (Files (data swept.1.1) !! NextID (data d)) as [m|] eqn:Hafter; [|done].
      apply runCleanup_files in Hafter as [Hl' Hn]; [|done].
      rewrite Hl in Hl'. inversion Hl'; subst m. done.
    + exists Filename, size. subst swept. unfold runCleanup.
      pose proof (expired_elem now d' meta) as Hexp.
      destruct (GetExpiredFiles now d') as [expired err] eqn:Hget.
      assert (err = nil) as -> by (by inversion Hget).
      simpl in Hexp.
      assert (Hin : meta ∈ expired) by (apply Hexp; by exists (NextID (data d))).
      destruct (Nat.eqb (length expired) 0) eqn:Hlen.
      * apply Nat.eqb_eq, nil_length_inv in Hlen. subst expired.
        by apply elem_of_nil in Hin.
      * simpl. apply elem_of_app. left.
        by apply (sweep_log cfg expired _ meta).
  - intros Hle. exists meta. split; [|done].
    apply runCleanup_files; [done|]. split; [done|]. simpl. lia.
Qed.
End Lifecycle.

Lemma upload_then_sweep_witness :
  let out := @handleUpload unit willing ascii_names sample_clock sample_clock RandErr
               1000 (request "POST" "/upload") server fresh tt in
  Files (data (@runCleanup unit vanished listed_order images 3600000001001
                 out.1.2 tt).1.1) !! 1 = None.
Proof.
  intros out.
  assert (Heq : out = (Uploaded
    "20260131/20260131-143022123-31383866643733396465356133393135.jpg"
    "/files/20260131/20260131-143022123-31383866643733396465356133393135.jpg"
    3600000001000, out.1.2, tt)) by (vm_compute; reflexivity).
  refine (proj1 (proj1 (@upload_then_sweep unit willing vanished ascii_names listed_order
            _ _ _ _ _ _ _ _ _ _ _ _ _ images 3600000001001 tt Heq _ _ _) _)).
  - apply (bool_decide_unpack _). vm_compute. exact I.
  - intros id m Hl. destruct (lookup_empty_Some (M:=gmap Z) id m Hl).
  - reflexivity.
  - lia.
Defined.

End CleanupMore.
